(** * Shogun Drive: a shallow embedding of [drive-core.js] and of the
    navigation handlers of [DriveApp.js], with the properties of the
    directory synthesis and transfer engine stated over it.

  Conventions of the embedding.
  - A JavaScript string is a Rocq [string]: the bytes of its UTF-8
    encoding, which are its characters when it is ASCII; a missing
    (undefined) string field is the empty string, which is what [a || b]
    and [!a] observe.  Where the code counts the UTF-16 code units of a
    string ([FileGrid.truncate]), the string is the list of these.
  - The content of a [File] or [Blob] is a string of 8-bit characters,
    that is, a byte sequence; [size] is its length.  [new Blob([text])]
    holds the UTF-8 encoding of [text].
  - [st_log] holds what [console.warn] and [console.error] print, one line
    per call: the message without its emoji, its colon and its arguments.
    [console.log] is not recorded.
  - A rejected promise or thrown [Error] is [Err msg], a resolved one is
    [Ok v]; [try]/[catch] is the [catch] combinator of the monad below.
  - The relay, the storage network, the browser and SEA are collaborators:
    each of their answers is a field of a [World] record. *)

From Stdlib Require Import ZArith Lia Ascii String List Bool.
From stdpp Require Import gmap strings list pretty.

Local Open Scope string_scope.
Local Open Scope list_scope.

(** * Part I: the embedding *)

(** ** JavaScript string primitives *)
Module JS.

Definition chars (s : string) : list ascii := list_ascii_of_string s.

Fixpoint isPrefix (p l : list ascii) : bool :=
  match p, l with
  | [], _ => true
  | _ :: _, [] => false
  | a :: p', b :: l' => if Ascii.eqb a b then isPrefix p' l' else false
  end.

(** [s.startsWith(p)] *)
Definition startsWith (s p : string) : bool := isPrefix (chars p) (chars s).

(** [s.endsWith(suf)] *)
Definition endsWith (s suf : string) : bool :=
  isPrefix (rev (chars suf)) (rev (chars s)).

(** [s.includes(sub)] *)
Fixpoint includesL (sub l : list ascii) : bool :=
  isPrefix sub l || match l with [] => false | _ :: l' => includesL sub l' end.
Definition includes (s sub : string) : bool := includesL (chars sub) (chars s).

(** A string is truthy when it is not empty. *)
Definition truthy (s : string) : bool :=
  match s with EmptyString => false | String _ _ => true end.

(** [a || b] on strings. *)
Definition orElse (a b : string) : string := if truthy a then a else b.

(** [s.split("/")]: never empty, the empty string splits into one empty
    segment. *)
Fixpoint split_slash (s : string) : list string :=
  match s with
  | EmptyString => [EmptyString]
  | String c r =>
      if Ascii.eqb c "/"%char then EmptyString :: split_slash r
      else match split_slash r with
           | h :: t => String c h :: t
           | [] => [String c EmptyString]
           end
  end.

(** [s.split("/").pop()] *)
Definition lastSegment (s : string) : string := List.last (split_slash s) EmptyString.

(** [s.split(",")[1]], undefined (here the empty string) when there is no
    comma. *)
Fixpoint afterFirstComma (s : string) : string :=
  match s with
  | EmptyString => EmptyString
  | String c r =>
      if Ascii.eqb c ","%char then
        (fix upToComma (t : string) : string :=
           match t with
           | EmptyString => EmptyString
           | String d u => if Ascii.eqb d ","%char then EmptyString
                           else String d (upToComma u)
           end) r
      else afterFirstComma r
  end.

End JS.

(** ** Results of asynchronous calls *)
Inductive Result (A : Type) : Type :=
  | Ok (a : A)
  | Err (msg : string).
Arguments Ok {A} a.
Arguments Err {A} msg.

Definition isOk {A} (r : Result A) : bool :=
  match r with Ok _ => true | Err _ => false end.

(** ** Files and blobs *)
Record File := mkFile {
  f_name : string;
  f_webkitRelativePath : string;
  f_type : string;
  f_content : string
}.

Definition f_size (f : File) : nat := String.length (f_content f).

(** [new File([data], name, { type })] *)
Definition newFile (data name type : string) : File :=
  {| f_name := name; f_webkitRelativePath := EmptyString;
     f_type := type; f_content := data |}.

(** A [Blob] is a [File] without a name. *)
Definition newBlob (data type : string) : File := newFile data EmptyString type.

(** ** Metadata records (the objects built by [uploadDirectory],
    [createEmptyDirectory] and [uploadFile]) *)
Record FileMeta := mkFileMeta {
  fm_path : string;
  fm_name : string;
  fm_originalName : string;
  fm_size : nat;
  fm_mimetype : string;
  fm_isEncrypted : bool
}.

Record Metadata := mkMetadata {
  md_hash : string;
  md_userAddress : string;
  md_timestamp : Z;
  md_fileName : string;
  md_displayName : string;
  md_originalName : string;
  md_fileSize : nat;
  md_isEncrypted : bool;
  md_isDirectory : bool;
  md_contentType : string;
  md_fileCount : nat;
  md_files : list FileMeta;
  md_relayUrl : string;
  md_uploadedAt : Z
}.

(** What [localStorage.getItem("shogun-drive-metadata-cache")] followed by
    [JSON.parse] can observe: no item, an item that does not parse, or a
    document [{ data, timestamp }].  A document without [data] behaves as one
    with an empty map on every path of the code ([parsed.data || {}],
    [parsed.data?.[cid]], [parsed.data && parsed.data[cid]]); a missing
    timestamp is [0], which is falsy. *)
Inductive CacheItem :=
  | CacheAbsent
  | CacheCorrupt
  | CacheDoc (data : gmap string Metadata) (timestamp : Z).

(** ** The collaborators *)

(** [window.SEA]: [encrypt] and [decrypt] may reject; [decrypt] answers
    [undefined] (here the falsy empty string) on a wrong key or corrupted
    input. *)
Record SEAlib := mkSEA {
  sea_encrypt : string -> string -> Result string;
  sea_decrypt : string -> string -> Result string
}.

(** Reply of [sdk.ipfs.uploadDirectoryBrowser]. *)
Inductive UploadReply :=
  | UploadThrows (msg : string)
  | UploadReplies (success : bool) (directoryCid : string) (error : string).

(** Reply of [sdk.ipfs.pinLs]: the pins as (cid, Type) pairs, a 401, or
    another failure. *)
Inductive PinLsReply :=
  | PinLsOk (pins : list (string * string))
  | PinLs401
  | PinLsFails (msg : string).

(** One row of [sdk.uploads.getUserUploads]. *)
Record Upload := mkUpload {
  up_hash : string;
  up_name : string;
  up_size : nat;
  up_mimetype : string
}.

(** A [Response]: the body is the sequence of chunks its reader yields,
    [Content-Length] is the parsed header when it is present, and [r_text]
    is what [response.text()] resolves with: the body decoded as UTF-8,
    which is the body itself when that is well-formed UTF-8 without a byte
    order mark. *)
Record Response := mkResponse {
  r_status : Z;
  r_contentType : string;
  r_contentLength : option Z;
  r_chunks : list string;
  r_text : string
}.

(** One attempt of [fetch(url, { signal })]. *)
Inductive FetchReply :=
  | FetchRejects (msg : string)          (* network-level failure *)
  | FetchAborted                          (* the 5 minute timer fired *)
  | FetchResponse (r : Response).

(** The events of one [XMLHttpRequest]. *)
Inductive XhrEvent :=
  | XhrProgress (lengthComputable : bool) (loaded total : Z).

Inductive XhrEnd :=
  | XhrLoad (status : Z) (statusText : string) (response : File)
  | XhrError
  | XhrTimeout.

Record World := mkWorld {
  (* browser *)
  w_windowSEA : nat -> option SEAlib;  (* [window.SEA] after n polls of 100ms *)
  w_readAsDataURL : File -> Result string;
  w_fetchDataURL : string -> Result File;
  w_atob : string -> Result string;
  w_setItemOk : bool;                   (* [localStorage.setItem] does not throw *)
  w_encodeURIComponent : string -> string;
  (* relay and storage network *)
  w_health : bool;                      (* [sdk.system.health] answers within 5s *)
  w_pinLs : PinLsReply;
  w_cat : string -> string -> Result string;   (* [sdk.ipfs.catFromDirectory] *)
  w_uploadDirectoryBrowser : list File -> UploadReply;
  w_saveSystemHash : Metadata -> Result bool;  (* [result.success] *)
  w_pinRm : string -> Result unit;
  w_removeSystemHash : string -> string -> Result unit;
  w_removeSystemHashFetch : string -> string -> Result bool;  (* [response.ok] *)
  w_getSystemHashesMap : Result (gmap string Metadata);
  w_getUserUploads : string -> Result (list Upload);
  w_fetch : string -> nat -> FetchReply;        (* by url and attempt index *)
  w_xhr : string -> list XhrEvent * XhrEnd
}.

(** The fields of a [DriveCore] instance; [null] is the empty string. *)
Record DriveCore := mkDriveCore {
  relayUrl : string;
  authToken : string;
  encryptionToken : string;
  userAddress : string;
  walletSignature : string
}.

(** Calls that leave the process, in the order they are issued.  [Sleep]
    is an awaited [setTimeout]; [Progress] is a call of [onProgress] with
    [{ progress, loaded, total }], of which the rounded percentage
    [progress] is not modelled. *)
Inductive Call :=
  | CallHealth
  | CallPinLs
  | CallCat (directoryCid path : string)
  | CallUploadDirectory (files : list File)
  | CallSaveSystemHash (m : Metadata)
  | CallPinRm (cid : string)
  | CallRemoveSystemHash (cid user : string)
  | CallRemoveSystemHashFetch (cid user : string)
  | CallGetSystemHashesMap
  | CallFetch (url : string)
  | CallXhr (url : string)
  | Sleep (ms : Z)
  | Progress (loaded total : Z).

(** Mutable state: the local cache, the clock read by [Date.now()], the
    calls issued so far and the console warnings and errors. *)
Record State := mkState {
  st_cache : CacheItem;
  st_now : Z;
  st_calls : list Call;
  st_log : list string
}.

(** ** A state and exception monad for [async] methods *)
Definition M (A : Type) : Type := State -> Result A * State.

Definition ret {A} (a : A) : M A := fun s => (Ok a, s).
Definition throw {A} (msg : string) : M A := fun s => (Err msg, s).
Definition bind {A B} (m : M A) (k : A -> M B) : M B :=
  fun s => match m s with
           | (Ok a, s') => k a s'
           | (Err e, s') => (Err e, s')
           end.
(** [try { m } catch (error) { h error.message }] *)
Definition catch {A} (m : M A) (h : string -> M A) : M A :=
  fun s => match m s with
           | (Ok a, s') => (Ok a, s')
           | (Err e, s') => h e s'
           end.
Definition lift {A} (r : Result A) : M A := fun s => (r, s).
Definition call (c : Call) : M unit :=
  fun s => (Ok tt, mkState (st_cache s) (st_now s) (st_calls s ++ [c]) (st_log s)).
Definition warn (msg : string) : M unit :=
  fun s => (Ok tt, mkState (st_cache s) (st_now s) (st_calls s) (st_log s ++ [msg])).
Definition getCache : M CacheItem := fun s => (Ok (st_cache s), s).
Definition now : M Z := fun s => (Ok (st_now s), s).
Definition putCache (c : CacheItem) : M unit :=
  fun s => (Ok tt, mkState c (st_now s) (st_calls s) (st_log s)).

Declare Scope drive_scope.
Delimit Scope drive_scope with drive.
Notation "'let*' x ':=' m 'in' k" := (bind m (fun x => k))
  (at level 10, x name, m at level 100, k at level 200) : drive_scope.
Notation "'run' m 'in' k" := (bind m (fun _ => k))
  (at level 10, m at level 100, k at level 200) : drive_scope.

(** The same for code that touches no state. *)
Definition rbind {A B} (r : Result A) (k : A -> Result B) : Result B :=
  match r with Ok a => k a | Err e => Err e end.

(** [catch (error) { throw new Error(prefix + error.message) }] *)
Definition rethrow {A} (prefix : string) (r : Result A) : Result A :=
  match r with Ok a => Ok a | Err e => Err (prefix +:+ e) end.

(** ** CryptoGate: [loadSEA], [fileToBase64], [encryptFile], [decryptBlob] *)
Module Crypto.
Import JS.

Definition maxAttempts : nat := 10.

(** [checkSEA]: [fuel] is [maxAttempts - attempts]. *)
Fixpoint checkSEA (w : World) (fuel tick : nat) : Result SEAlib :=
  match w_windowSEA w tick with
  | Some sea => Ok sea
  | None =>
      match fuel with
      | S fuel' => checkSEA w fuel' (S tick)
      | O => Err "SEA library not available. Make sure gun.js and sea.js are loaded in the HTML."
      end
  end.

Definition loadSEA (w : World) : Result SEAlib :=
  match w_windowSEA w 0 with
  | Some sea => Ok sea
  | None => checkSEA w maxAttempts 0
  end.

Definition fileToBase64 (w : World) (file : File) : Result string :=
  w_readAsDataURL w file.

Definition encryptedFileName (name : string) : string :=
  if endsWith name ".enc" then name else name +:+ ".enc".

Definition encryptFile (w : World) (file : File) (token : string) : Result File :=
  if negb (truthy token) then Err "Auth token is required for encryption"
  else
    rethrow "Encryption failed: "
      (rbind (loadSEA w) (fun SEA =>
       rbind (fileToBase64 w file) (fun base64data =>
       rbind (sea_encrypt SEA base64data token) (fun encryptedData =>
       Ok (newFile encryptedData (encryptedFileName (f_name file)) "text/plain"))))).

Definition decryptBlob (w : World) (encryptedBlob : File) (token : string)
    : Result File :=
  if negb (truthy token) then Err "Auth token is required for decryption"
  else
    rethrow "Decryption failed: "
      (rbind (loadSEA w) (fun SEA =>
       let encryptedText := f_content encryptedBlob in
       rbind (sea_decrypt SEA encryptedText token) (fun decryptedBase64 =>
       if negb (truthy decryptedBase64) then
         Err "Decryption failed - invalid token or corrupted data"
       else if startsWith decryptedBase64 "data:" then
         w_fetchDataURL w decryptedBase64
       else
         let base64Data :=
           orElse (afterFirstComma decryptedBase64) decryptedBase64 in
         rbind (w_atob w base64Data) (fun binaryString =>
         Ok (newBlob binaryString EmptyString))))).

End Crypto.

(** ** MetadataStore: [saveFileMetadata], [getFileList], [deleteFile] *)
Module MetadataStore.
Import JS.
Local Open Scope drive_scope.

(** [parsed.data || {}] of whatever the cache holds; a corrupt item makes
    [JSON.parse] throw, which the callers below catch. *)
Definition cacheData (c : CacheItem) : gmap string Metadata :=
  match c with
  | CacheDoc data _ => data
  | CacheAbsent | CacheCorrupt => ∅
  end.

(** [localStorage.setItem("shogun-drive-metadata-cache", JSON.stringify(doc))] *)
Definition setItem (w : World) (doc : CacheItem) : M unit :=
  if w_setItemOk w then putCache doc else throw "QuotaExceededError".

(** [JSON.parse(localStorage.getItem(...))] where the item exists. *)
Definition parseCache (c : CacheItem) : M (gmap string Metadata * Z) :=
  match c with
  | CacheDoc data timestamp => ret (data, timestamp)
  | CacheAbsent | CacheCorrupt => throw "SyntaxError"
  end.

Definition saveFileMetadata (w : World) (metadata : Metadata) : M unit :=
  catch
    (run call (CallSaveSystemHash metadata) in
     let* success := lift (w_saveSystemHash w metadata) in
     if success : bool then
       catch
         (let* cachedMetadata := getCache in
          let* t := now in
          (* the inner try around JSON.parse leaves [data: {}] on failure *)
          let data := cacheData cachedMetadata in
          setItem w (CacheDoc (<[md_hash metadata := metadata]> data) t))
         (fun _ => warn "Error updating metadata cache")
     else
       (* the else branch reads an undeclared [response] *)
       throw "response is not defined")
    (fun _ => warn "Error saving file metadata").

(** The staleness window of [getFileList]: five minutes, in milliseconds. *)
Definition staleAfter : Z := 5 * 60 * 1000.

(** [parsed.timestamp && Date.now() - parsed.timestamp < 5 * 60 * 1000] *)
Definition cacheFresh (nowMs timestamp : Z) : bool :=
  negb (timestamp =? 0)%Z && (nowMs - timestamp <? staleAfter)%Z.

(** What [getFileList] hands to the pure code that formats the rows
    (lines 1860-2073 of [drive-core.js]): in admin mode the pins and the
    [systemHashMap] in force when the method returns, in wallet mode the
    uploads of the user. *)
Inductive FileListing :=
  | AdminListing (pins : list (string * string))
                 (systemHashMap : gmap string Metadata)
  | WalletListing (uploads : list Upload).

(** The body of the [async] arrow [fetchMetadataPromise], from the point
    where [getSystemHashesMap] (or the 15s timeout) settles.  It runs as a
    task of its own, after [getFileList] has returned.  The timeout is
    reported by [console.log] only. *)
Definition fetchMetadataSettled (w : World) : M unit :=
  catch
    (let* newSystemHashMap := lift (w_getSystemHashesMap w) in
     let* t := now in
     catch (setItem w (CacheDoc newSystemHashMap t))
           (fun _ => warn "Error saving metadata cache"))
    (fun message =>
       if String.eqb message "Timeout" then ret tt
       else warn "Could not fetch system hashes map").

Definition checkRelayConnection (w : World) : M bool :=
  run call CallHealth in
  if w_health w then ret true
  else run warn "Relay connection check failed" in ret false.

Definition getFileList (w : World) (dc : DriveCore) : M FileListing :=
  if negb (truthy (authToken dc)) && negb (truthy (userAddress dc)) then
    throw "Please connect your wallet or set auth token in settings."
  else
    let* isConnected := checkRelayConnection w in
    if negb isConnected then
      throw "Cannot connect to relay server. Please check the relay URL in settings."
    else if negb (truthy (authToken dc)) && truthy (userAddress dc) then
      match w_getUserUploads w (userAddress dc) with
      | Ok ups => ret (WalletListing ups)
      | Err e =>
          (* the catch of [getUserUploads], then the one around its call *)
          run warn "Error getting user uploads" in
          run warn "Error fetching user uploads" in
          throw ("Failed to fetch your uploads: " +:+ e)
      end
    else
      let* pins :=
        (if truthy (authToken dc) then
           run call CallPinLs in
           match w_pinLs w with
           | PinLsOk pins => ret pins
           | PinLs401 =>
               (* thrown to the outer catch, which logs and rethrows *)
               run warn "Error getting file list" in
               throw "Authentication failed. Please check your auth token in settings."
           | PinLsFails _ =>
               run warn "Could not get pins, using metadata only" in ret []
           end
         else ret []) in
      (* local cache, used only when it is young enough *)
      let* systemHashMap :=
        catch
          (let* cachedMetadata := getCache in
           match cachedMetadata with
           | CacheAbsent => ret ∅
           | _ =>
               let* parsed := parseCache cachedMetadata in
               let* t := now in
               if cacheFresh t (snd parsed) then ret (fst parsed) else ret ∅
           end)
          (fun _ => run warn "Error loading metadata cache" in ret ∅) in
      (* the async arrow runs up to its first await: the request is sent *)
      run call CallGetSystemHashesMap in
      ret (AdminListing pins systemHashMap).

(** [{}] as the [metadata] argument. *)
Definition emptyMetadata : Metadata :=
  mkMetadata EmptyString EmptyString 0 EmptyString EmptyString EmptyString 0
             false false EmptyString 0 [] EmptyString 0.

(** Removal of [cid] from the local cache, the third step of [deleteFile]
    and of the clean-up after a directory rebuild. *)
Definition removeFromLocalCache (w : World) (cid : string) (onError : string)
    : M unit :=
  catch
    (let* cachedMetadata := getCache in
     match cachedMetadata with
     | CacheAbsent => ret tt
     | _ =>
         let* parsed := parseCache cachedMetadata in
         match fst parsed !! cid with
         | Some _ =>
             let* t := now in
             setItem w (CacheDoc (delete cid (fst parsed)) t)
         | None => ret tt
         end
     end)
    (fun _ => warn onError).

Definition deleteFile (w : World) (dc : DriveCore) (cid : string)
    (metadata : Metadata) : M bool :=
  if negb (truthy (authToken dc)) && negb (truthy (walletSignature dc)) then
    throw "Auth token or wallet connection is required."
  else
    catch
      ((* 1. unpin, admin mode only *)
       run (if truthy (authToken dc) then
              catch (run call (CallPinRm cid) in lift (w_pinRm w cid))
                    (fun _ => warn "Pin removal failed")
            else ret tt) in
       (* 2. remote metadata *)
       run catch
             (if truthy (authToken dc) then
                let user := orElse (md_userAddress metadata)
                              (orElse (userAddress dc) "drive-user") in
                run call (CallRemoveSystemHash cid user) in
                lift (w_removeSystemHash w cid user)
              else if truthy (walletSignature dc) && truthy (userAddress dc) then
                run call (CallRemoveSystemHashFetch cid (userAddress dc)) in
                let* ok := lift (w_removeSystemHashFetch w cid (userAddress dc)) in
                if ok : bool then ret tt
                else warn "Metadata removal returned an error status"
              else ret tt)
             (fun _ => warn "Error removing metadata") in
       (* 3. local cache *)
       run removeFromLocalCache w cid "Error removing from cache" in
       ret true)
      (fun e => throw ("Delete failed: " +:+ e)).

End MetadataStore.

(** ** DirectorySynthesizer: [uploadDirectory], [createEmptyDirectory],
    [catFromDirectory], [removeFileFromDirectory] *)
Module Directory.
Import JS MetadataStore.
Local Open Scope drive_scope.

(** What the directory methods resolve with. *)
Record DirResult := mkDirResult {
  dr_success : bool;
  dr_directoryCid : string;
  dr_metadata : Metadata
}.

Definition checkAuthentication (w : World) (dc : DriveCore) : M bool :=
  if truthy (userAddress dc) then ret true
  else if negb (truthy (authToken dc)) then ret false
  else
    run call CallPinLs in
    match w_pinLs w with
    | PinLsOk _ => ret true
    | PinLs401 => ret false
    | PinLsFails _ => run warn "Authentication check failed" in ret false
    end.

(** [file.webkitRelativePath || file.name] *)
Definition relativePathOf (file : File) : string :=
  orElse (f_webkitRelativePath file) (f_name file).

(** An element of [fileEntries]. *)
Record FileEntry := mkFileEntry {
  fe_buffer : string;
  fe_filename : string;
  fe_path : string;
  fe_contentType : string;
  fe_isEncrypted : bool;
  fe_originalName : string
}.

(** One turn of the [for (const file of files)] loop of [uploadDirectory]. *)
Definition prepareEntry (w : World) (dc : DriveCore) (encrypt : bool)
    (file : File) : M FileEntry :=
  let relativePath := relativePathOf file in
  let* enc :=
    (if encrypt then
       match Crypto.encryptFile w file
               (orElse (encryptionToken dc) (authToken dc)) with
       | Ok encrypted => ret (encrypted, true)
       | Err _ => run warn "Warning: Failed to encrypt" in ret (file, false)
       end
     else ret (file, false)) in
  let fileToUpload := fst enc in
  ret {| fe_buffer := f_content fileToUpload;
         fe_filename := f_name file;
         fe_path := relativePath;
         fe_contentType :=
           orElse (f_type fileToUpload)
             (orElse (f_type file) "application/octet-stream");
         fe_isEncrypted := snd enc;
         fe_originalName := f_name file |}.

Fixpoint prepareEntries (w : World) (dc : DriveCore) (encrypt : bool)
    (files : list File) : M (list FileEntry) :=
  match files with
  | [] => ret []
  | file :: rest =>
      let* e := prepareEntry w dc encrypt file in
      let* es := prepareEntries w dc encrypt rest in
      ret (e :: es)
  end.

(** The [File] object rebuilt from an entry for the SDK. *)
Definition fileObject (e : FileEntry) : File :=
  let type := orElse (fe_contentType e) "application/octet-stream" in
  {| f_name := orElse (lastSegment (fe_path e)) (fe_path e);
     f_webkitRelativePath := fe_path e;
     f_type := type;
     f_content := fe_buffer e |}.

Definition entryMeta (f : FileEntry) : FileMeta :=
  {| fm_path := fe_path f;
     fm_name := fe_originalName f;
     fm_originalName := fe_originalName f;
     fm_size := String.length (fe_buffer f);
     fm_mimetype := fe_contentType f;
     fm_isEncrypted := fe_isEncrypted f |}.

(** [s.split("/")[0]] *)
Definition firstSegment (s : string) : string :=
  List.hd EmptyString (split_slash s).

Definition catUrl (dc : DriveCore) (cid : string) : string :=
  relayUrl dc +:+ "/api/v1/ipfs/cat/" +:+ cid.

(** The checks shared by the upload methods, up to the first status change
    to "preparing". *)
Definition checkRelayAndAuth (w : World) (dc : DriveCore) : M unit :=
  let* isConnected := checkRelayConnection w in
  if negb isConnected then
    throw "Cannot connect to relay server. Please check the relay URL in settings."
  else
    let* isAuthenticated := checkAuthentication w dc in
    if negb isAuthenticated then
      throw "Authentication failed. Please check your auth token in settings."
    else ret tt.

(** [sdk.ipfs.uploadDirectoryBrowser(fileObjects)] and the test of its
    reply; resolves with the new directory CID. *)
Definition uploadObjects (w : World) (fileObjects : list File)
    (invalid : string) : M string :=
  run call (CallUploadDirectory fileObjects) in
  match w_uploadDirectoryBrowser w fileObjects with
  | UploadThrows msg => throw msg
  | UploadReplies success directoryCid error =>
      if negb success || negb (truthy directoryCid) then
        throw (orElse error invalid)
      else ret directoryCid
  end.

Definition uploadDirectory (w : World) (dc : DriveCore) (files : list File)
    (encrypt : bool) (folderName : string) : M DirResult :=
  if negb (truthy (authToken dc)) && negb (truthy (userAddress dc)) then
    throw "Please connect your wallet or set auth token in settings."
  else match files with
  | [] => throw "At least one file is required for directory upload"
  | file0 :: _ =>
      run checkRelayAndAuth w dc in
      let* fileEntries := prepareEntries w dc encrypt files in
      let fileObjects := map fileObject fileEntries in
      let* directoryCid :=
        uploadObjects w fileObjects "Directory upload failed - invalid response" in
      let folderDisplayName :=
        orElse folderName
          (if truthy (f_webkitRelativePath file0)
           then firstSegment (f_webkitRelativePath file0) else "folder") in
      let* t := now in
      let metadata :=
        {| md_hash := directoryCid;
           md_userAddress := "drive-user";
           md_timestamp := t;
           md_fileName := folderDisplayName;
           md_displayName := folderDisplayName;
           md_originalName := folderDisplayName;
           md_fileSize := list_sum (map f_size files);
           md_isEncrypted := existsb fe_isEncrypted fileEntries;
           md_isDirectory := true;
           md_contentType := "application/x-directory";
           md_fileCount := length files;
           md_files := map entryMeta fileEntries;
           md_relayUrl := catUrl dc directoryCid;
           md_uploadedAt := t |} in
      run saveFileMetadata w metadata in
      ret (mkDirResult true directoryCid metadata)
  end.

(** The marker member of an empty directory. *)
Definition placeholderFile (folderName : string) : File :=
  {| f_name := ".keep";
     f_webkitRelativePath := folderName +:+ "/.keep";
     f_type := "application/x-empty";
     f_content := EmptyString |}.

Definition createEmptyDirectory (w : World) (dc : DriveCore)
    (folderName : string) : M DirResult :=
  if negb (truthy (authToken dc)) && negb (truthy (userAddress dc)) then
    throw "Please connect your wallet or set auth token in settings."
  else
    run checkRelayAndAuth w dc in
    let* directoryCid :=
      uploadObjects w [placeholderFile folderName]
        "Directory creation failed - invalid response" in
    let* t := now in
    let metadata :=
      {| md_hash := directoryCid;
         md_userAddress := "drive-user";
         md_timestamp := t;
         md_fileName := folderName;
         md_displayName := folderName;
         md_originalName := folderName;
         md_fileSize := 0;
         md_isEncrypted := false;
         md_isDirectory := true;
         md_contentType := "application/x-directory";
         md_fileCount := 0;
         md_files := [];
         md_relayUrl := catUrl dc directoryCid;
         md_uploadedAt := t |} in
    run saveFileMetadata w metadata in
    ret (mkDirResult true directoryCid metadata).

(** [parts.length > 1 ? parts[parts.length - 1] : path] *)
Definition normalizePath (path : string) : string :=
  if (1 <? length (split_slash path))%nat then lastSegment path else path.

Definition catFromDirectory (w : World) (dc : DriveCore)
    (directoryCid filePath : string) : M File :=
  if negb (truthy (authToken dc)) then
    throw "Auth token is required. Please set it in settings."
  else
    let normalizedPath := normalizePath filePath in
    run call (CallCat directoryCid normalizedPath) in
    match w_cat w directoryCid normalizedPath with
    | Ok buffer => ret (newBlob buffer EmptyString)
    | Err e => run warn "Error catting file from directory" in throw e
    end.

(** [fileMeta.path || fileMeta.name] *)
Definition pathOrName (fileMeta : FileMeta) : string :=
  orElse (fm_path fileMeta) (fm_name fileMeta).

(** [fileMeta.path || fileMeta.name || fileMeta.originalName] *)
Definition relativePathOfMeta (fileMeta : FileMeta) : string :=
  orElse (fm_path fileMeta) (orElse (fm_name fileMeta) (fm_originalName fileMeta)).

(** The [File] rebuilt for a member that is kept. *)
Definition existingFile (fileMeta : FileMeta) (blob : File) : File :=
  {| f_name := relativePathOfMeta fileMeta;
     f_webkitRelativePath := relativePathOfMeta fileMeta;
     f_type := orElse (fm_mimetype fileMeta) "application/octet-stream";
     f_content := f_content blob |}.

(** One turn of the loop that downloads the members to keep: [Some] file
    pushed on [allFiles], or [None] after a warning. *)
Definition fetchMember (w : World) (dc : DriveCore) (directoryCid : string)
    (fileMeta : FileMeta) : M (option File) :=
  catch
    (let filePath := normalizePath (pathOrName fileMeta) in
     let* blob := catFromDirectory w dc directoryCid filePath in
     if (f_size blob =? 0)%nat then
       run warn "Empty blob for file, skipping" in ret None
     else ret (Some (existingFile fileMeta blob)))
    (fun _ => run warn "Failed to retrieve existing file" in ret None).

Fixpoint fetchMembers (w : World) (dc : DriveCore) (directoryCid : string)
    (metas : list FileMeta) : M (list File) :=
  match metas with
  | [] => ret []
  | fileMeta :: rest =>
      let* got := fetchMember w dc directoryCid fileMeta in
      let* others := fetchMembers w dc directoryCid rest in
      ret (match got with Some f => f :: others | None => others end)
  end.

(** The display name of the directory, from the local cache. *)
Definition folderNameOf (directoryCid : string) : M string :=
  catch
    (let* cachedMetadata := getCache in
     match cachedMetadata with
     | CacheAbsent => ret "folder"
     | _ =>
         let* parsed := parseCache cachedMetadata in
         match fst parsed !! directoryCid with
         | Some dirMetadata =>
             if truthy (md_displayName dirMetadata)
                || truthy (md_fileName dirMetadata)
             then ret (orElse (md_displayName dirMetadata) (md_fileName dirMetadata))
             else ret "folder"
         | None => ret "folder"
         end
     end)
    (fun _ => run warn "Could not get directory name from metadata" in ret "folder").

(** Best-effort retirement of the superseded directory. *)
Definition cleanupOld (w : World) (directoryCid : string) : M unit :=
  run catch (run call (CallPinRm directoryCid) in lift (w_pinRm w directoryCid))
            (fun _ => warn "Failed to remove old directory pin") in
  run catch (run call (CallRemoveSystemHash directoryCid "drive-user") in
             lift (w_removeSystemHash w directoryCid "drive-user"))
            (fun _ => warn "Error removing old directory metadata") in
  removeFromLocalCache w directoryCid "Error removing old directory from cache".

(** The member test of the filter: the final path segments differ. *)
Definition keeps (filePathToRemove : string) (fileMeta : FileMeta) : bool :=
  negb (String.eqb (lastSegment (pathOrName fileMeta))
                   (lastSegment filePathToRemove)).

Definition removeFileFromDirectory (w : World) (dc : DriveCore)
    (directoryCid filePathToRemove : string)
    (existingFilesMetadata : list FileMeta) : M DirResult :=
  if negb (truthy (authToken dc)) then
    throw "Auth token is required. Please set it in settings."
  else
    let remainingFilesMetadata :=
      List.filter (keeps filePathToRemove) existingFilesMetadata in
    if (length remainingFilesMetadata =? length existingFilesMetadata)%nat then
      throw "File not found in directory"
    else
      let* allFiles := fetchMembers w dc directoryCid remainingFilesMetadata in
      if (length allFiles =? 0)%nat
         && (0 <? length remainingFilesMetadata)%nat then
        throw "Failed to retrieve remaining files from directory"
      else
        let* folderName := folderNameOf directoryCid in
        if (length allFiles =? 0)%nat then
          createEmptyDirectory w dc folderName
        else
          let* result := uploadDirectory w dc allFiles true folderName in
          run (if dr_success result && truthy (dr_directoryCid result)
                  && negb (String.eqb (dr_directoryCid result) directoryCid)
               then cleanupOld w directoryCid
               else ret tt) in
          ret result.

(** New files get [webkitRelativePath = name] when they have none. *)
Definition withRelativePath (newFile : File) : File :=
  if truthy (f_webkitRelativePath newFile) then newFile
  else {| f_name := f_name newFile;
          f_webkitRelativePath := f_name newFile;
          f_type := f_type newFile;
          f_content := f_content newFile |}.

Definition addFilesToDirectory (w : World) (dc : DriveCore)
    (directoryCid : string) (newFiles : list File)
    (existingFilesMetadata : list FileMeta) : M DirResult :=
  if negb (truthy (authToken dc)) && negb (truthy (userAddress dc)) then
    throw "Please connect your wallet or set auth token in settings."
  else
    let* existing := fetchMembers w dc directoryCid existingFilesMetadata in
    let allFiles := existing ++ map withRelativePath newFiles in
    if (length allFiles =? 0)%nat then throw "No files to upload"
    else
      let* folderName := folderNameOf directoryCid in
      let* result := uploadDirectory w dc allFiles true folderName in
      run (if dr_success result && truthy (dr_directoryCid result)
              && negb (String.eqb (dr_directoryCid result) directoryCid)
           then cleanupOld w directoryCid
           else ret tt) in
      ret result.

End Directory.

(** ** TransferPipeline: [downloadFile], [downloadWithXHR] *)
Module Download.
Import JS.
Local Open Scope drive_scope.
Local Open Scope Z_scope.

(** The fields of [metadata] that [downloadFile] reads; a missing [size]
    is [0] ([metadata.size || 0]). *)
Record DownloadMeta := mkDownloadMeta {
  dm_isEncrypted : bool;
  dm_size : Z
}.

(** [response.ok] *)
Definition r_ok (r : Response) : bool :=
  (200 <=? r_status r) && (r_status r <=? 299).

(** The bytes of the body, as the stream reader collects them in
    [allChunks]. *)
Definition r_body (r : Response) : string :=
  fold_right String.append EmptyString (r_chunks r).

(** [fileSize > 5 * 1024 * 1024] *)
Definition isLargeFile (fileSize : Z) : bool := 5 * 1024 * 1024 <? fileSize.

Definition maxRetries : nat := 3.

(** The errors the inner [catch] retries by itself. *)
Definition isHttp2Error (message : string) : bool :=
  includes message "HTTP2" || includes message "Failed to fetch"
  || includes message "ERR_HTTP2".

(** [1000 * (attempt + 1)] milliseconds *)
Definition backoff (attempt : nat) : Z := 1000 * (Z.of_nat attempt + 1).

(** The [for (let attempt = 0; attempt < maxRetries; attempt++)] loop;
    [fuel] is [maxRetries - attempt], [response] is the variable of that
    name.  It resolves with [response] when the loop is left. *)
Fixpoint retryLoop (w : World) (url : string) (fuel attempt : nat)
    (response : option Response) : M (option Response) :=
  match fuel with
  | O => ret response
  | S fuel' =>
      let next := retryLoop w url fuel' (S attempt) in
      (* the outer catch *)
      let outerCatch (message : string) (response : option Response) :=
        if (attempt =? maxRetries - 1)%nat then throw message
        else run call (Sleep (backoff attempt)) in next response in
      (* the inner catch, for an error that is not an AbortError *)
      let innerCatch (message : string) (response : option Response) :=
        if (attempt <? maxRetries - 1)%nat && isHttp2Error message then
          run warn "Download attempt failed, retrying..." in
          run call (Sleep (backoff attempt)) in
          next response
        else outerCatch message response in
      run call (CallFetch url) in
      match w_fetch w url attempt with
      | FetchResponse r =>
          if r_ok r then ret (Some r)
          else innerCatch ("Download failed: " +:+ pretty (r_status r) +:+ " "
                           +:+ r_text r) (Some r)
      | FetchAborted =>
          outerCatch "Download timeout - file too large or connection too slow"
                     response
      | FetchRejects message => innerCatch message response
      end
  end.

(** The [while (true)] loop over [reader.read()]: the chunks are
    accumulated and, when [Content-Length] is known, each one is reported
    to [onProgress] with [{ loaded, total }]. *)
Fixpoint readChunks (contentLength : option Z) (chunks : list string)
    (totalLength : Z) : M Z :=
  match chunks with
  | [] => ret totalLength
  | value :: rest =>
      let totalLength := totalLength + Z.of_nat (String.length value) in
      run (match contentLength with
           | Some total => call (Progress totalLength total)
           | None => ret tt
           end) in
      readChunks contentLength rest totalLength
  end.

Definition readStream (r : Response) (type : string) : M File :=
  run readChunks (r_contentLength r) (r_chunks r) 0 in
  ret (newBlob (r_body r) type).

(** The white space and the line terminators of ECMAScript beyond ASCII,
    in UTF-8: U+00A0 in two bytes; U+1680, U+2000 to U+200A, U+2028,
    U+2029, U+202F, U+205F, U+3000 and U+FEFF in three. *)
Definition isWhite2 (a b : ascii) : bool :=
  (nat_of_ascii a =? 194)%nat && (nat_of_ascii b =? 160)%nat.

Definition isWhite3 (a b c : ascii) : bool :=
  let a := nat_of_ascii a in
  let b := nat_of_ascii b in
  let c := nat_of_ascii c in
  ((a =? 225) && (b =? 154) && (c =? 128)
   || (a =? 226) && (b =? 128)
      && ((128 <=? c) && (c <=? 138) || (c =? 168) || (c =? 169) || (c =? 175))
   || (a =? 226) && (b =? 129) && (c =? 159)
   || (a =? 227) && (b =? 128) && (c =? 128)
   || (a =? 239) && (b =? 187) && (c =? 191))%nat.

(** The white space at the front of [s] removed; with [reversed], [s] is
    read as a string written backwards. *)
Fixpoint stripWhite (reversed : bool) (s : string) : string :=
  match s with
  | String c r =>
      if Ascii.is_space c then stripWhite reversed r
      else
        match r with
        | String c2 r2 =>
            if (if reversed then isWhite2 c2 c else isWhite2 c c2)
            then stripWhite reversed r2
            else
              match r2 with
              | String c3 r3 =>
                  if (if reversed then isWhite3 c3 c2 c else isWhite3 c c2 c3)
                  then stripWhite reversed r3
                  else s
              | EmptyString => s
              end
        | EmptyString => s
        end
  | EmptyString => EmptyString
  end.

(** [text.trim()] *)
Definition trim (s : string) : string :=
  String.rev (stripWhite true (String.rev (stripWhite false s))).

(** The decrypt-detection part of [downloadFile]. *)
Definition decodeResponse (w : World) (dc : DriveCore) (metadata : DownloadMeta)
    (response : Response) : M File :=
  let contentType := r_contentType response in
  if dm_isEncrypted metadata then
    if truthy contentType && negb (includes contentType "text/plain")
       && negb (includes contentType "application/json") then
      readStream response contentType
    else
      let text := r_text response in
      if startsWith (trim text) "SEA{" then
        let* SEA := lift (Crypto.loadSEA w) in
        let* decrypted :=
          lift (sea_decrypt SEA text (orElse (encryptionToken dc) (authToken dc))) in
        if negb (truthy decrypted) then
          throw "Decryption failed - invalid token or corrupted data"
        else if startsWith decrypted "data:" then
          lift (w_fetchDataURL w decrypted)
        else ret (newBlob decrypted (orElse contentType "application/octet-stream"))
      else ret (newBlob text (orElse contentType "application/octet-stream"))
  else readStream response (orElse contentType "application/octet-stream").

Fixpoint reportProgress (events : list XhrEvent) : M unit :=
  match events with
  | [] => ret tt
  | XhrProgress lengthComputable loaded total :: rest =>
      run (if lengthComputable then call (Progress loaded total) else ret tt) in
      reportProgress rest
  end.

Definition downloadWithXHR (w : World) (url : string) : M File :=
  run call (CallXhr url) in
  let '(events, fin) := w_xhr w url in
  run reportProgress events in
  match fin with
  | XhrLoad status statusText blob =>
      if (200 <=? status) && (status <? 300) then
        if (f_size blob =? 0)%nat then throw "Downloaded file is empty"
        else ret blob
      else throw ("Download failed: " +:+ pretty status +:+ " " +:+ statusText)
  | XhrError => throw "Network error during download"
  | XhrTimeout => throw "Download timeout"
  end.

Definition downloadUrl (w : World) (dc : DriveCore) (hash : string)
    (metadata : DownloadMeta) : string :=
  if dm_isEncrypted metadata then
    relayUrl dc +:+ "/api/v1/ipfs/cat/" +:+ hash +:+ "/decrypt?token="
    +:+ w_encodeURIComponent w (orElse (encryptionToken dc) (authToken dc))
  else relayUrl dc +:+ "/api/v1/ipfs/cat/" +:+ hash.

(** The part of [downloadFile] for a file that is not large: the retry
    loop, the test of the response, the decoding and the empty check. *)
Definition fetchWithRetries (w : World) (dc : DriveCore) (url : string)
    (metadata : DownloadMeta) : M File :=
  let* response := retryLoop w url maxRetries 0 None in
  match response with
  | Some r =>
      if r_ok r then
        let* blob := decodeResponse w dc metadata r in
        if (f_size blob =? 0)%nat then throw "Downloaded file is empty"
        else ret blob
      else throw ("Download failed: " +:+ pretty (r_status r) +:+ " "
                  +:+ r_text r)
  | None => throw "Download failed: unknown No response"
  end.

(** [catch (error) { console.error("Download error:", error); throw error }],
    the handler around the body of [downloadFile]. *)
Definition reportFailure {A} (m : M A) : M A :=
  catch m (fun message => run warn "Download error" in throw message).

Definition downloadFile (w : World) (dc : DriveCore) (hash : string)
    (metadata : DownloadMeta) : M File :=
  if dm_isEncrypted metadata
     && negb (truthy (orElse (encryptionToken dc) (authToken dc))) then
    throw "Encryption token is required to decrypt this file."
  else
    let url := downloadUrl w dc hash metadata in
    reportFailure
      (let fileSize := dm_size metadata in
       if isLargeFile fileSize then downloadWithXHR w url
       else fetchWithRetries w dc url metadata).

End Download.

(** ** NavigationState: the fields [currentPath] and [currentDirectoryCid]
    of [DriveApp] and the handlers that write them *)
Module Navigation.
Import JS MetadataStore Directory.
Local Open Scope drive_scope.

(** An element of [currentPath]. *)
Record PathEntry := mkPathEntry {
  pe_cid : string;
  pe_name : string
}.

(** [currentDirectoryCid] is [null] at the root. *)
Record Nav := mkNav {
  currentPath : list PathEntry;
  currentDirectoryCid : option string
}.

Definition initialNav : Nav := mkNav [] None.

(** [this.currentPath[this.currentPath.length - 1].cid = cid] under the
    guard [this.currentPath.length > 0]. *)
Definition setLastCid (path : list PathEntry) (cid : string) : list PathEntry :=
  if (0 <? length path)%nat then
    alter (fun e => mkPathEntry cid (pe_name e)) (length path - 1)%nat path
  else path.

(** [result.success && result.directoryCid &&
     result.directoryCid !== oldDirectoryCid] *)
Definition replaced (result : DirResult) (oldDirectoryCid : string) : bool :=
  dr_success result && truthy (dr_directoryCid result)
  && negb (String.eqb (dr_directoryCid result) oldDirectoryCid).

(** Lines 1169-1183 of [DriveApp.js], in [handleFileDelete]. *)
Definition repointAfterDelete (nav : Nav) (oldDirectoryCid : string)
    (result : DirResult) : Nav :=
  if replaced result oldDirectoryCid then
    match currentDirectoryCid nav with
    | Some cur =>
        if String.eqb cur oldDirectoryCid then
          mkNav (setLastCid (currentPath nav) (dr_directoryCid result))
                (Some (dr_directoryCid result))
        else nav
    | None => nav
    end
  else nav.

(** Lines 961-979 of [DriveApp.js], in [handleUpload]; [oldDirectoryCid]
    is [this.currentDirectoryCid] read before the call. *)
Definition repointAfterUpload (nav : Nav) (oldDirectoryCid : string)
    (result : DirResult) : Nav :=
  if replaced result oldDirectoryCid then
    mkNav (setLastCid (currentPath nav) (dr_directoryCid result))
          (Some (dr_directoryCid result))
  else nav.

(** [dirMetadata.files] of a directory in the local cache, [[]] when the
    cache has nothing usable. *)
Definition existingFilesOf (cache : CacheItem) (directoryCid : string)
    : list FileMeta :=
  match cache with
  | CacheDoc data _ =>
      match data !! directoryCid with
      | Some dirMetadata => md_files dirMetadata
      | None => []
      end
  | CacheAbsent | CacheCorrupt => []
  end.

(** A row of the file grid. *)
Record Row := mkRow {
  row_cid : string;
  row_name : string;
  row_isDirectory : bool;
  row_parentDirectory : string;
  row_relativePath : string;
  row_metadata : Metadata
}.

(** The [try] that reads [dirMetadata.files] from the local cache: an item
    that does not parse leaves a warning and no member. *)
Definition readExistingFiles (directoryCid : string) : M (list FileMeta) :=
  let* cache := getCache in
  run (match cache with
       | CacheCorrupt => warn "Could not get existing files metadata"
       | CacheAbsent | CacheDoc _ _ => ret tt
       end) in
  ret (existingFilesOf cache directoryCid).

(** [handleFileDelete] once the user has confirmed, up to the reload of
    the listing.  A failure is shown as a status message, logged, and
    leaves the navigation state as it is. *)
Definition handleFileDelete (w : World) (dc : DriveCore) (nav : Nav)
    (file : Row) : M Nav :=
  catch
    (if truthy (row_parentDirectory file) && truthy (row_relativePath file) then
       let* existingFilesMetadata :=
         readExistingFiles (row_parentDirectory file) in
       let oldDirectoryCid := row_parentDirectory file in
       let* result :=
         removeFileFromDirectory w dc oldDirectoryCid (row_relativePath file)
           existingFilesMetadata in
       ret (repointAfterDelete nav oldDirectoryCid result)
     else
       run deleteFile w dc (row_cid file) (row_metadata file) in
       ret nav)
    (fun _ => run warn "Delete error" in ret nav).

(** The branch [else if (isInDirectory)] of [handleUpload], up to the
    reload of the listing. *)
Definition handleUploadInDirectory (w : World) (dc : DriveCore) (nav : Nav)
    (files : list File) : M Nav :=
  match currentDirectoryCid nav with
  | None => ret nav
  | Some current =>
      catch
        (let* existingFilesMetadata := readExistingFiles current in
         let oldDirectoryCid := current in
         let* result :=
           addFilesToDirectory w dc current files existingFilesMetadata in
         ret (repointAfterUpload nav oldDirectoryCid result))
        (fun _ => run warn "Error adding files to directory" in ret nav)
  end.

(** The name pushed on the breadcrumb by [handleFolderClick]. *)
Definition dirNameOf (cache : CacheItem) (current folderName : string) : string :=
  match cache with
  | CacheDoc data _ =>
      match data !! current with
      | Some dirMetadata =>
          if truthy (md_displayName dirMetadata) || truthy (md_fileName dirMetadata)
          then orElse (md_displayName dirMetadata) (md_fileName dirMetadata)
          else orElse folderName "Folder"
      | None => orElse folderName "Folder"
      end
  | CacheAbsent | CacheCorrupt => orElse folderName "Folder"
  end.

(** [handleFolderClick], up to the reload of the listing. *)
Definition handleFolderClick (cache : CacheItem) (nav : Nav)
    (folderCid folderName : string) : Nav :=
  match currentDirectoryCid nav with
  | Some current =>
      if truthy current then
        mkNav (currentPath nav
               ++ [mkPathEntry current (dirNameOf cache current folderName)])
              (Some folderCid)
      else mkNav (currentPath nav) (Some folderCid)
  | None => mkNav (currentPath nav) (Some folderCid)
  end.

(** [navigateToPath] for an index the breadcrumb shows: [-1] is the root
    button, [0 .. length - 1] the entries of [currentPath]. *)
Definition navigateToPath (nav : Nav) (pathIndex : Z) : Nav :=
  if (pathIndex <? 0)%Z then mkNav [] None
  else
    let path := take (Z.to_nat pathIndex + 1) (currentPath nav) in
    match path !! Z.to_nat pathIndex with
    | Some targetPath => mkNav path (Some (pe_cid targetPath))
    | None => mkNav path (currentDirectoryCid nav)
    end.

(** The navigation states the handlers can produce from the initial one. *)
Inductive Reachable : Nav -> Prop :=
  | R_init : Reachable initialNav
  | R_click cache nav folderCid folderName :
      Reachable nav ->
      Reachable (handleFolderClick cache nav folderCid folderName)
  | R_navigate nav pathIndex :
      Reachable nav ->
      (pathIndex < Z.of_nat (length (currentPath nav)))%Z ->
      Reachable (navigateToPath nav pathIndex)
  | R_delete nav oldDirectoryCid result :
      Reachable nav ->
      Reachable (repointAfterDelete nav oldDirectoryCid result)
  | R_upload nav current result :
      Reachable nav ->
      currentDirectoryCid nav = Some current ->
      Reachable (repointAfterUpload nav current result).

End Navigation.

(** ** A reference browser: RFC 4648 base64, [data:] URLs, and a tagged
    stand-in for SEA.  It instantiates the collaborators where a statement
    is run on concrete inputs; no property of [drive-core.js] depends on it. *)
Module Reference.
Import JS.

Definition alphabet : string :=
  "ABCDEFGHIJKLMNOPQRSTUVWXYZabcdefghijklmnopqrstuvwxyz0123456789+/".

Definition bit (b : bool) : nat := if b then 1 else 0.

(** The base64 digit of six bits, most significant first. *)
Definition digit (b5 b4 b3 b2 b1 b0 : bool) : ascii :=
  match String.get (32 * bit b5 + 16 * bit b4 + 8 * bit b3 + 4 * bit b2
                    + 2 * bit b1 + bit b0) alphabet with
  | Some c => c
  | None => "="%char
  end.

(** The value of a base64 digit, [None] for any other character. *)
Definition value (c : ascii) : option nat :=
  let n := nat_of_ascii c in
  if (Nat.leb 65 n && Nat.leb n 90)%bool then Some (n - 65)%nat
  else if (Nat.leb 97 n && Nat.leb n 122)%bool then Some (n - 71)%nat
  else if (Nat.leb 48 n && Nat.leb n 57)%bool then Some (n + 4)%nat
  else if Nat.eqb n 43 then Some 62%nat
  else if Nat.eqb n 47 then Some 63%nat
  else None.

Definition isPad (c : ascii) : bool := Ascii.eqb c "="%char.

(** Bit [i] of a digit value. *)
Definition vbit (v i : nat) : bool := Nat.testbit v i.

Fixpoint encode (s : string) : string :=
  match s with
  | EmptyString => EmptyString
  | String (Ascii a0 a1 a2 a3 a4 a5 a6 a7) EmptyString =>
      String (digit a7 a6 a5 a4 a3 a2)
     (String (digit a1 a0 false false false false) "==")
  | String (Ascii a0 a1 a2 a3 a4 a5 a6 a7)
     (String (Ascii b0 b1 b2 b3 b4 b5 b6 b7) EmptyString) =>
      String (digit a7 a6 a5 a4 a3 a2)
     (String (digit a1 a0 b7 b6 b5 b4)
     (String (digit b3 b2 b1 b0 false false) "="))
  | String (Ascii a0 a1 a2 a3 a4 a5 a6 a7)
     (String (Ascii b0 b1 b2 b3 b4 b5 b6 b7)
     (String (Ascii c0 c1 c2 c3 c4 c5 c6 c7) rest)) =>
      String (digit a7 a6 a5 a4 a3 a2)
     (String (digit a1 a0 b7 b6 b5 b4)
     (String (digit b3 b2 b1 b0 c7 c6)
     (String (digit c5 c4 c3 c2 c1 c0) (encode rest))))
  end.

Definition byte1 (v0 v1 : nat) : ascii :=
  Ascii (vbit v1 4) (vbit v1 5) (vbit v0 0) (vbit v0 1)
        (vbit v0 2) (vbit v0 3) (vbit v0 4) (vbit v0 5).
Definition byte2 (v1 v2 : nat) : ascii :=
  Ascii (vbit v2 2) (vbit v2 3) (vbit v2 4) (vbit v2 5)
        (vbit v1 0) (vbit v1 1) (vbit v1 2) (vbit v1 3).
Definition byte3 (v2 v3 : nat) : ascii :=
  Ascii (vbit v3 0) (vbit v3 1) (vbit v3 2) (vbit v3 3)
        (vbit v3 4) (vbit v3 5) (vbit v2 0) (vbit v2 1).

Fixpoint decode (s : string) : option string :=
  match s with
  | EmptyString => Some EmptyString
  | String d0 (String d1 (String d2 (String d3 rest))) =>
      match value d0, value d1 with
      | Some v0, Some v1 =>
          if isPad d2 then
            if isPad d3 then
              match rest with
              | EmptyString => Some (String (byte1 v0 v1) EmptyString)
              | _ => None
              end
            else None
          else
            match value d2 with
            | Some v2 =>
                if isPad d3 then
                  match rest with
                  | EmptyString =>
                      Some (String (byte1 v0 v1) (String (byte2 v1 v2) EmptyString))
                  | _ => None
                  end
                else
                  match value d3, decode rest with
                  | Some v3, Some tail =>
                      Some (String (byte1 v0 v1) (String (byte2 v1 v2)
                           (String (byte3 v2 v3) tail)))
                  | _, _ => None
                  end
            | None => None
            end
      | _, _ => None
      end
  | _ => None
  end.

(** [FileReader.readAsDataURL]. *)
Definition readAsDataURL (file : File) : Result string :=
  Ok ("data:" +:+ orElse (f_type file) "application/octet-stream"
      +:+ ";base64," +:+ encode (f_content file)).

(** Splits at the first comma: the text before it and the text after. *)
Fixpoint splitComma (s : string) : option (string * string) :=
  match s with
  | EmptyString => None
  | String c r =>
      if Ascii.eqb c ","%char then Some (EmptyString, r)
      else match splitComma r with
           | Some (h, t) => Some (String c h, t)
           | None => None
           end
  end.

(** The media type of a header [data:<type>;base64]. *)
Definition mediaType (header : string) : string :=
  String.substring 5 (String.length header - 12) header.

(** [fetch(url).then(r => r.blob())] on a base64 [data:] URL. *)
Definition fetchDataURL (url : string) : Result File :=
  if startsWith url "data:" then
    match splitComma url with
    | Some (header, payload) =>
        if endsWith header ";base64" then
          match decode payload with
          | Some bytes => Ok (newBlob bytes (mediaType header))
          | None => Err "Failed to fetch"
          end
        else Err "Failed to fetch"
    | None => Err "Failed to fetch"
    end
  else Err "Failed to fetch".

(** [atob] *)
Definition atob (s : string) : Result string :=
  match decode s with
  | Some bytes => Ok bytes
  | None => Err "The string to be decoded is not correctly encoded."
  end.

(** [n] characters dropped from the front. *)
Fixpoint dropChars (n : nat) (s : string) : string :=
  match n, s with
  | O, _ => s
  | S n', String _ r => dropChars n' r
  | S _, EmptyString => EmptyString
  end.

(** A stand-in for SEA that tags the plaintext with the key. *)
Definition tag (key : string) : string := "SEA{" +:+ key +:+ "}".

Definition sea : SEAlib :=
  {| sea_encrypt := fun data key => Ok (tag key +:+ data);
     sea_decrypt := fun data key =>
       if startsWith data (tag key)
       then Ok (dropChars (String.length (tag key)) data)
       else Ok EmptyString |}.

(** A world where every collaborator answers; directories get the CID
    ["Qm"] followed by the paths of their members. *)
Definition cidOf (files : list File) : string :=
  fold_left (fun acc f => acc +:+ "|" +:+ f_webkitRelativePath f) files "Qm".

Definition world (store : string -> string -> Result string) : World :=
  {| w_windowSEA := fun _ => Some sea;
     w_readAsDataURL := readAsDataURL;
     w_fetchDataURL := fetchDataURL;
     w_atob := atob;
     w_setItemOk := true;
     w_encodeURIComponent := fun s => s;
     w_health := true;
     w_pinLs := PinLsOk [];
     w_cat := store;
     w_uploadDirectoryBrowser := fun files => UploadReplies true (cidOf files) EmptyString;
     w_saveSystemHash := fun _ => Ok true;
     w_pinRm := fun _ => Ok tt;
     w_removeSystemHash := fun _ _ => Ok tt;
     w_removeSystemHashFetch := fun _ _ => Ok true;
     w_getSystemHashesMap := Ok ∅;
     w_getUserUploads := fun _ => Ok [];
     w_fetch := fun _ _ => FetchRejects "Failed to fetch";
     w_xhr := fun _ => ([], XhrError) |}.

End Reference.

(** ** The observations the statements speak about *)
Module Observations.
Import JS MetadataStore.

(** The record under [hash] in the local cache. *)
Definition cached (s : State) (hash : string) : option Metadata :=
  cacheData (st_cache s) !! hash.

(** The [systemHashMap] that [getFileList] builds its rows from: the
    cached map while the cache is young, the empty map otherwise. *)
Definition mapInForce (cache : CacheItem) (nowMs : Z) : gmap string Metadata :=
  match cache with
  | CacheDoc data timestamp => if cacheFresh nowMs timestamp then data else ∅
  | CacheAbsent | CacheCorrupt => ∅
  end.

(** The pins [getFileList] goes on with. *)
Definition pinsInForce (reply : PinLsReply) : list (string * string) :=
  match reply with
  | PinLsOk pins => pins
  | PinLs401 | PinLsFails _ => []
  end.

(** The batches handed to [sdk.ipfs.uploadDirectoryBrowser]. *)
Fixpoint uploadsOf (calls : list Call) : list (list File) :=
  match calls with
  | [] => []
  | CallUploadDirectory files :: rest => files :: uploadsOf rest
  | _ :: rest => uploadsOf rest
  end.

(** The member paths asked of [sdk.ipfs.catFromDirectory]. *)
Fixpoint catsOf (calls : list Call) : list string :=
  match calls with
  | [] => []
  | CallCat _ path :: rest => path :: catsOf rest
  | _ :: rest => catsOf rest
  end.

(** No batch sent so far is empty. *)
Definition NoEmptyUpload (s : State) : Prop :=
  Forall (fun files : list File => files <> []) (uploadsOf (st_calls s)).

(** An operation keeps a property of the state. *)
Definition preserves {A} (P : State -> Prop) (m : M A) : Prop :=
  forall s, P s -> P (snd (m s)).

(** Whatever an operation resolves with satisfies [Q]. *)
Definition returns {A} (m : M A) (Q : A -> Prop) : Prop :=
  forall s a, fst (m s) = Ok a -> Q a.

(** The content [sdk.ipfs.catFromDirectory] answers for a member, when it
    answers with at least one byte. *)
Definition fetchedContent (w : World) (directoryCid : string)
    (fileMeta : FileMeta) : option string :=
  match w_cat w directoryCid (Directory.normalizePath (Directory.pathOrName fileMeta)) with
  | Ok buffer => if (String.length buffer =? 0)%nat then None else Some buffer
  | Err _ => None
  end.

(** What the download of one member writes to the console: nothing when
    it gives at least one byte. *)
Definition fetchLog (w : World) (directoryCid : string) (fileMeta : FileMeta)
    : list string :=
  match w_cat w directoryCid (Directory.normalizePath (Directory.pathOrName fileMeta)) with
  | Ok buffer =>
      if (String.length buffer =? 0)%nat then ["Empty blob for file, skipping"]
      else []
  | Err _ =>
      ["Error catting file from directory"; "Failed to retrieve existing file"]
  end.

(** The log starts with the lines [L]. *)
Definition hasLogPrefix (L : list string) (s : State) : Prop :=
  exists rest, st_log s = L ++ rest.

(** The files the download loop pushes on [allFiles]. *)
Definition fetchedFiles (w : World) (directoryCid : string)
    (metas : list FileMeta) : list File :=
  flat_map (fun m => match fetchedContent w directoryCid m with
                     | Some buffer =>
                         [Directory.existingFile m (newBlob buffer EmptyString)]
                     | None => []
                     end) metas.

Definition fetched (w : World) (directoryCid : string) (fileMeta : FileMeta)
    : bool :=
  match fetchedContent w directoryCid fileMeta with
  | Some _ => true
  | None => false
  end.



(** An operation sent no batch to the storage network. *)
Definition sameUploads (s s' : State) : Prop :=
  uploadsOf (st_calls s') = uploadsOf (st_calls s).

(** A string without a slash splits into itself. *)
Definition slashFree (t : string) : Prop := split_slash t = [t].

(** The relay is reachable and accepts the credentials of [dc]. *)
Definition relayAccepts (w : World) (dc : DriveCore) : Prop :=
  w_health w = true
  /\ (truthy (userAddress dc) = true
      \/ (truthy (authToken dc) = true /\ exists pins, w_pinLs w = PinLsOk pins)).

(** The storage network accepts every non-empty batch. *)
Definition storageAccepts (w : World) : Prop :=
  forall files, files <> [] ->
    exists cid error,
      w_uploadDirectoryBrowser w files = UploadReplies true cid error
      /\ truthy cid = true.

(** The error one attempt of the retry loop ends with, if it does: the
    rejection of [fetch], the timeout, or a response that is not [ok]. *)
Definition failure (reply : FetchReply) : option string :=
  match reply with
  | FetchRejects message => Some message
  | FetchAborted =>
      Some "Download timeout - file too large or connection too slow"
  | FetchResponse r =>
      if Download.r_ok r then None
      else Some ("Download failed: " +:+ pretty (r_status r) +:+ " "
                 +:+ r_text r)
  end.

(** The [onProgress] reports of an [XMLHttpRequest]. *)
Fixpoint xhrProgress (events : list XhrEvent) : list Call :=
  match events with
  | [] => []
  | XhrProgress true loaded total :: rest => Progress loaded total :: xhrProgress rest
  | XhrProgress false _ _ :: rest => xhrProgress rest
  end.

(** The [onProgress] reports of a stream reader: one per chunk, with the
    bytes accumulated so far. *)
Fixpoint chunkProgress (total : Z) (chunks : list string) (loaded : Z)
    : list Call :=
  match chunks with
  | [] => []
  | value :: rest =>
      let loaded := (loaded + Z.of_nat (String.length value))%Z in
      Progress loaded total :: chunkProgress total rest loaded
  end.

(** The bodies [downloadFile] reads with the stream reader: those of
    files that are not encrypted, and those served with a [Content-Type]
    that is neither [text/plain] nor [application/json]. *)
Definition readByStream (metadata : Download.DownloadMeta) (r : Response) : bool :=
  negb (Download.dm_isEncrypted metadata)
  || truthy (r_contentType r) && negb (includes (r_contentType r) "text/plain")
     && negb (includes (r_contentType r) "application/json").

(** The type of the blob made from such a body. *)
Definition streamType (metadata : Download.DownloadMeta) (r : Response) : string :=
  if Download.dm_isEncrypted metadata then r_contentType r
  else orElse (r_contentType r) "application/octet-stream".

(** No [XMLHttpRequest] was sent. *)
Definition NoXhr (s : State) : Prop :=
  Forall (fun c => match c with CallXhr _ => False | _ => True end) (st_calls s).

(** The token needed to decrypt is there. *)
Definition canDecrypt (dc : DriveCore) (metadata : Download.DownloadMeta) : Prop :=
  Download.dm_isEncrypted metadata
  && negb (truthy (orElse (encryptionToken dc) (authToken dc))) = false.

End Observations.

(** ** Concrete inputs on which statements are run *)
Module Samples.
Import JS MetadataStore.

Definition noStore : string -> string -> Result string :=
  fun _ _ => Err "not found".

Definition helloFile : File := newFile "hello" "notes.txt" "text/plain".

Definition emptyState (cache : CacheItem) (clock : Z) : State :=
  mkState cache clock [] [].

Definition record (hash : string) : Metadata :=
  mkMetadata hash "drive-user" 1000 "notes.txt" "notes.txt" "notes.txt" 5
             false false "text/plain" 0 [] EmptyString 1000.

Definition offlineWorld : World :=
  {| w_windowSEA := fun _ => None;
     w_readAsDataURL := fun _ => Err "NotReadableError";
     w_fetchDataURL := fun _ => Err "Failed to fetch";
     w_atob := fun _ => Err "InvalidCharacterError";
     w_setItemOk := true;
     w_encodeURIComponent := fun s => s;
     w_health := true;
     w_pinLs := PinLsFails "Network Error";
     w_cat := fun _ _ => Err "Network Error";
     w_uploadDirectoryBrowser := fun _ => UploadThrows "Network Error";
     w_saveSystemHash := fun _ => Err "Network Error";
     w_pinRm := fun _ => Err "Network Error";
     w_removeSystemHash := fun _ _ => Err "Network Error";
     w_removeSystemHashFetch := fun _ _ => Err "Failed to fetch";
     w_getSystemHashesMap := Err "Timeout";
     w_getUserUploads := fun _ => Err "Network Error";
     w_fetch := fun _ _ => FetchRejects "Failed to fetch";
     w_xhr := fun _ => ([], XhrError) |}.

(** An admin session: an auth token and no wallet. *)
Definition adminCore : DriveCore :=
  mkDriveCore "https://relay" "admin-token" EmptyString EmptyString EmptyString.

(** A member as [uploadDirectory] records it. *)
Definition member (path name : string) (size : nat) : FileMeta :=
  mkFileMeta path name name size "text/plain" true.

(** A store that answers every path of every directory. *)
Definition fullStore : string -> string -> Result string :=
  fun _ path => Ok ("content of " +:+ path).

(** A directory with two files called [a.txt], in different folders. *)
Definition twoFolders : list FileMeta :=
  [member "docs/a.txt" "a.txt" 10; member "img/a.txt" "a.txt" 20;
   member "b.txt" "b.txt" 5].

(** The world [w] with other answers to [fetch] and [XMLHttpRequest]. *)
Definition withTransfer (w : World) (fetch : string -> nat -> FetchReply)
    (xhr : string -> list XhrEvent * XhrEnd) : World :=
  {| w_windowSEA := w_windowSEA w;
     w_readAsDataURL := w_readAsDataURL w;
     w_fetchDataURL := w_fetchDataURL w;
     w_atob := w_atob w;
     w_setItemOk := w_setItemOk w;
     w_encodeURIComponent := w_encodeURIComponent w;
     w_health := w_health w;
     w_pinLs := w_pinLs w;
     w_cat := w_cat w;
     w_uploadDirectoryBrowser := w_uploadDirectoryBrowser w;
     w_saveSystemHash := w_saveSystemHash w;
     w_pinRm := w_pinRm w;
     w_removeSystemHash := w_removeSystemHash w;
     w_removeSystemHashFetch := w_removeSystemHashFetch w;
     w_getSystemHashesMap := w_getSystemHashesMap w;
     w_getUserUploads := w_getUserUploads w;
     w_fetch := fetch;
     w_xhr := xhr |}.

(** A response whose body is ASCII text: [response.text()] resolves with
    the body. *)
Definition asciiResponse (status : Z) (contentType : string)
    (contentLength : option Z) (chunks : list string) : Response :=
  mkResponse status contentType contentLength chunks
             (fold_right String.append EmptyString chunks).

(** A server that answers 500 to every attempt, and a connection on which
    every request fails. *)
Definition serverError : World :=
  withTransfer (Reference.world noStore)
    (fun _ _ => FetchResponse (asciiResponse 500%Z "text/plain" None ["Internal Server Error"]))
    (fun _ => ([], XhrError)).

(** A server that answers with two chunks of four bytes. *)
Definition serving : World :=
  withTransfer (Reference.world noStore)
    (fun _ _ => FetchResponse (asciiResponse 200%Z "application/octet-stream" (Some 8%Z)
                                 ["abcd"; "efgh"]))
    (fun _ => ([XhrProgress true 4%Z 8%Z; XhrProgress true 8%Z 8%Z],
               XhrLoad 200%Z "OK" (newBlob "abcdefgh" "application/octet-stream"))).

Definition plain (size : Z) : Download.DownloadMeta :=
  Download.mkDownloadMeta false size.

(** A rebuild of a directory that resolved with the new address [cid]. *)
Definition rebuilt (cid : string) : Directory.DirResult :=
  Directory.mkDirResult true cid (record cid).

(** The breadcrumb after the folder [QmA] was entered three times from the
    listing of the root, and after [QmA] was entered from inside [QmP]. *)
Definition enteredThrice : Navigation.Nav :=
  Navigation.mkNav
    [Navigation.mkPathEntry "QmA" "docs"; Navigation.mkPathEntry "QmA" "docs"]
    (Some "QmA").

Definition insideParent : Navigation.Nav :=
  Navigation.mkNav [Navigation.mkPathEntry "QmP" "photos"] (Some "QmA").

End Samples.

(** * Part I, continued: the operations beside the claims *)

Module Effects.
Import JS MetadataStore Directory Observations.

(** The requests [deleteFile] sends for a session, in order: with an auth
    token the unpin and the removal of the remote record through the SDK,
    with a wallet only the removal of the remote record through [fetch]. *)
Definition deleteRequests (dc : DriveCore) (cid : string) (metadata : Metadata)
    : list Call :=
  if truthy (authToken dc) then
    [CallPinRm cid;
     CallRemoveSystemHash cid
       (orElse (md_userAddress metadata) (orElse (userAddress dc) "drive-user"))]
  else if truthy (walletSignature dc) && truthy (userAddress dc) then
    [CallRemoveSystemHashFetch cid (userAddress dc)]
  else [].

(** The requests that retire a pin or a remote record. *)
Definition isRemoval (c : Call) : bool :=
  match c with
  | CallPinRm _ | CallRemoveSystemHash _ _ | CallRemoveSystemHashFetch _ _ => true
  | _ => false
  end.

Definition removalsOf (calls : list Call) : list Call :=
  List.filter isRemoval calls.

(** The requests of the checks that precede an upload: the health probe,
    and the pin listing when no wallet address is set. *)
Definition probes (dc : DriveCore) : list Call :=
  CallHealth :: (if truthy (userAddress dc) then [] else [CallPinLs]).

(** The secret [uploadDirectory] and [uploadFile] encrypt with. *)
Definition secretOf (dc : DriveCore) : string :=
  orElse (encryptionToken dc) (authToken dc).

(** The entry the loop of [uploadDirectory] pushes for [file]. *)
Definition entryOf (w : World) (dc : DriveCore) (encrypt : bool) (file : File)
    : FileEntry :=
  let enc :=
    if encrypt then
      match Crypto.encryptFile w file (secretOf dc) with
      | Ok encrypted => (encrypted, true)
      | Err _ => (file, false)
      end
    else (file, false) in
  {| fe_buffer := f_content (fst enc);
     fe_filename := f_name file;
     fe_path := relativePathOf file;
     fe_contentType :=
       orElse (f_type (fst enc)) (orElse (f_type file) "application/octet-stream");
     fe_isEncrypted := snd enc;
     fe_originalName := f_name file |}.

(** The warning the loop leaves for a file it could not encrypt. *)
Definition encryptionWarning (w : World) (dc : DriveCore) (encrypt : bool)
    (file : File) : list string :=
  if encrypt && negb (isOk (Crypto.encryptFile w file (secretOf dc)))
  then ["Warning: Failed to encrypt"] else [].

(** The local cache after [saveFileMetadata]. *)
Definition savedCache (w : World) (metadata : Metadata) (cache : CacheItem)
    (nowMs : Z) : CacheItem :=
  match w_saveSystemHash w metadata with
  | Ok true =>
      if w_setItemOk w
      then CacheDoc (<[md_hash metadata := metadata]> (cacheData cache)) nowMs
      else cache
  | _ => cache
  end.

(** The local cache after the removal of [cid] from it. *)
Definition forgottenCache (w : World) (cid : string) (cache : CacheItem)
    (nowMs : Z) : CacheItem :=
  match cache with
  | CacheDoc data _ =>
      match data !! cid with
      | Some _ => if w_setItemOk w then CacheDoc (delete cid data) nowMs else cache
      | None => cache
      end
  | CacheAbsent | CacheCorrupt => cache
  end.

(** The record [uploadDirectory] writes for a batch. *)
Definition directoryRecord (dc : DriveCore) (directoryCid folderDisplayName : string)
    (files : list File) (fileEntries : list FileEntry) (nowMs : Z) : Metadata :=
  {| md_hash := directoryCid;
     md_userAddress := "drive-user";
     md_timestamp := nowMs;
     md_fileName := folderDisplayName;
     md_displayName := folderDisplayName;
     md_originalName := folderDisplayName;
     md_fileSize := list_sum (map f_size files);
     md_isEncrypted := existsb fe_isEncrypted fileEntries;
     md_isDirectory := true;
     md_contentType := "application/x-directory";
     md_fileCount := length files;
     md_files := map entryMeta fileEntries;
     md_relayUrl := catUrl dc directoryCid;
     md_uploadedAt := nowMs |}.

(** The members a rebuild carries over: those whose download gave at
    least one byte, and none at all without an auth token, which
    [catFromDirectory] insists on. *)
Definition carriedOver (w : World) (dc : DriveCore) (directoryCid : string)
    (members : list FileMeta) : list File :=
  if truthy (authToken dc) then fetchedFiles w directoryCid members else [].

(** The requests a rebuild sends for the members. *)
Definition memberRequests (dc : DriveCore) (directoryCid : string)
    (members : list FileMeta) : list Call :=
  if truthy (authToken dc) then
    map (fun m => CallCat directoryCid (normalizePath (pathOrName m))) members
  else [].

(** The requests that retire the directory a rebuild has replaced. *)
Definition retirement (directoryCid newCid : string) : list Call :=
  if String.eqb newCid directoryCid then []
  else [CallPinRm directoryCid; CallRemoveSystemHash directoryCid "drive-user"].

(** An operation never rejects. *)
Definition settles {A} (m : M A) : Prop :=
  forall s, isOk (fst (m s)) = true.

(** Whenever an operation rejects, [P] still holds. *)
Definition onFailure {A} (P : State -> Prop) (m : M A) : Prop :=
  forall s, P s -> forall e s', m s = (Err e, s') -> P s'.

(** The local cache is [cache] and the removal requests sent so far are
    [removals]. *)
Definition Unretired (cache : CacheItem) (removals : list Call) (s : State)
    : Prop :=
  st_cache s = cache /\ removalsOf (st_calls s) = removals.

(** The removal requests sent so far are [removals], and the member
    downloads asked for are [cats]. *)
Definition NoRequestBut (removals : list Call) (cats : list string) (s : State)
    : Prop :=
  removalsOf (st_calls s) = removals /\ catsOf (st_calls s) = cats.

(** A request that neither retires anything nor downloads a member. *)
Definition isProbeOrUpload (c : Call) : bool :=
  match c with
  | CallPinRm _ | CallRemoveSystemHash _ _ | CallRemoveSystemHashFetch _ _
  | CallCat _ _ => false
  | _ => true
  end.

(** The requests and waits of the download loop before attempt [k]: each
    earlier attempt is one request followed by its back-off. *)
Definition attemptsBefore (url : string) (k : nat) : list Call :=
  flat_map (fun j => [CallFetch url; Sleep (Download.backoff j)]) (seq 0 k).

(** The progress reports of a body read through the stream reader. *)
Definition bodyProgress (r : Response) : list Call :=
  match r_contentLength r with
  | Some total => chunkProgress total (r_chunks r) 0
  | None => []
  end.

End Effects.

Module Scenarios.
Import JS MetadataStore Samples.

(** The world [w] where [window.SEA] is defined by [sea]. *)
Definition withSEA (w : World) (sea : nat -> option SEAlib) : World :=
  {| w_windowSEA := sea;
     w_readAsDataURL := w_readAsDataURL w;
     w_fetchDataURL := w_fetchDataURL w;
     w_atob := w_atob w;
     w_setItemOk := w_setItemOk w;
     w_encodeURIComponent := w_encodeURIComponent w;
     w_health := w_health w;
     w_pinLs := w_pinLs w;
     w_cat := w_cat w;
     w_uploadDirectoryBrowser := w_uploadDirectoryBrowser w;
     w_saveSystemHash := w_saveSystemHash w;
     w_pinRm := w_pinRm w;
     w_removeSystemHash := w_removeSystemHash w;
     w_removeSystemHashFetch := w_removeSystemHashFetch w;
     w_getSystemHashesMap := w_getSystemHashesMap w;
     w_getUserUploads := w_getUserUploads w;
     w_fetch := w_fetch w;
     w_xhr := w_xhr w |}.

(** A page whose [sea.js] finishes loading after [k] polls. *)
Definition lateSEA (k : nat) : World :=
  withSEA (Reference.world Samples.noStore)
          (fun n => if (k <=? n)%nat then Some Reference.sea else None).

(** A wallet session: an address and a signature, no auth token. *)
Definition walletCore : DriveCore :=
  mkDriveCore "https://relay" EmptyString EmptyString "0xA11CE" "0xsigned".

(** A cache that lists two records. *)
Definition twoRecords : CacheItem :=
  CacheDoc (<["QmA" := record "QmA"]> (<["QmB" := record "QmB"]> ∅)) 1000.

(** What [encryptFile] makes of [helloFile] under the auth token of
    [adminCore] in the reference browser. *)
Definition sealedHello : string :=
  match Crypto.encryptFile (Reference.world noStore) helloFile "admin-token" with
  | Ok encrypted => f_content encrypted
  | Err _ => EmptyString
  end.

(** A relay whose decrypt endpoint hands the stored ciphertext back as
    text, and one whose first two answers fail before the third
    succeeds. *)
Definition relayReturningCiphertext : World :=
  withTransfer (Reference.world noStore)
    (fun _ _ => FetchResponse (asciiResponse 200%Z "text/plain" None [sealedHello]))
    (fun _ => ([], XhrError)).

Definition flakyRelay : World :=
  withTransfer (Reference.world noStore)
    (fun _ attempt =>
       match attempt with
       | 0 => FetchRejects "Failed to fetch"
       | 1 => FetchResponse (asciiResponse 503%Z "text/plain" None ["busy"])
       | _ => FetchResponse (asciiResponse 200%Z "text/plain" (Some 5%Z) ["hel"; "lo"])
       end)
    (fun _ => ([], XhrError)).

End Scenarios.

(** ** Single files: [uploadFile] of [drive-core.js] and the loop of
    [handleUpload] in [DriveApp.js] that calls it *)
Module SingleUpload.
Import JS MetadataStore Directory.
Local Open Scope drive_scope.

(** Reply of [sdk.ipfs.uploadFileBrowser]: it throws, or it answers
    [{ success, file: { hash }, error }]. *)
Inductive UploadFileReply :=
  | UploadFileThrows (msg : string)
  | UploadFileReplies (success : bool) (hash : string) (error : string).

(** Reply of the [fetch] POST to [/api/v1/ipfs/upload] followed by
    [response.json()]: one of the two rejects, or there is a status and a
    body [{ success, file: { hash }, error, hint }]. *)
Inductive UploadFetchReply :=
  | UploadFetchRejects (msg : string)
  | UploadFetchAnswers (status : Z) (success : bool) (hash error hint : string).

(** The two ways a single file reaches the storage network.  The upload
    through the SDK is answered here and is not one of the traced
    [Call]s; the upload through [fetch] is traced as the [fetch] it is. *)
Record Uploader := mkUploader {
  u_uploadFileBrowser : File -> UploadFileReply;
  u_uploadFetch : File -> UploadFetchReply
}.

(** What [uploadFile] resolves with. *)
Record UploadResult := mkUploadResult {
  ur_success : bool;
  ur_hash : string;
  ur_metadata : Metadata
}.

(** [response.ok] *)
Definition statusOk (status : Z) : bool :=
  ((200 <=? status) && (status <=? 299))%Z.

(** The upload in a wallet session, by [fetch]. *)
Definition uploadByFetch (u : Uploader) (dc : DriveCore) (fileToUploadFile : File)
    : M string :=
  run call (CallFetch (relayUrl dc +:+ "/api/v1/ipfs/upload")) in
  match u_uploadFetch u fileToUploadFile with
  | UploadFetchRejects msg => throw msg
  | UploadFetchAnswers status success hash error hint =>
      if negb (statusOk status) then
        if (status =? 401)%Z then
          throw (orElse hint
                   (orElse error "Authentication failed - check wallet signature"))
        else if (status =? 402)%Z then
          throw "Subscription required - please purchase a subscription to upload files"
        else
          throw (orElse error ("Upload failed with status " +:+ pretty status))
      else if negb success || negb (truthy hash) then
        throw (orElse error "Upload failed - invalid response")
      else ret hash
  end.

(** The upload with an auth token, through the SDK. *)
Definition uploadBySdk (u : Uploader) (fileToUploadFile : File) : M string :=
  match u_uploadFileBrowser u fileToUploadFile with
  | UploadFileThrows msg => throw msg
  | UploadFileReplies success hash error =>
      if negb success || negb (truthy hash) then
        throw (orElse error "Upload failed - invalid response")
      else ret hash
  end.

(** [uploadFile(file, { encrypt, fileName })] for a [File]; [fileName] is
    the empty string where the option is not given. *)
Definition uploadFile (w : World) (u : Uploader) (dc : DriveCore) (file : File)
    (encrypt : bool) (fileName : string) : M UploadResult :=
  if negb (truthy (authToken dc)) && negb (truthy (userAddress dc)) then
    throw "Please connect your wallet or set auth token in settings."
  else
    run checkRelayAndAuth w dc in
    let* prepared :=
      (if encrypt then
         match Crypto.encryptFile w file
                 (orElse (encryptionToken dc) (authToken dc)) with
         | Ok encrypted => ret (encrypted, true, f_name encrypted)
         | Err e => throw ("Encryption failed: " +:+ e)
         end
       else ret (file, false, orElse fileName (f_name file))) in
    let fileToUpload := fst (fst prepared) in
    let isEncrypted := snd (fst prepared) in
    let uploadFileName := snd prepared in
    let fileToUploadFile :=
      if String.eqb (f_name fileToUpload) uploadFileName then fileToUpload
      else newFile (f_content fileToUpload) uploadFileName
             (orElse (f_type fileToUpload) "application/octet-stream") in
    let* ipfsHash :=
      (if truthy (walletSignature dc) && truthy (userAddress dc)
       then uploadByFetch u dc fileToUploadFile
       else uploadBySdk u fileToUploadFile) in
    let* t := now in
    let metadata :=
      {| md_hash := ipfsHash;
         md_userAddress := orElse (userAddress dc) "drive-user";
         md_timestamp := t;
         md_fileName := uploadFileName;
         md_displayName := uploadFileName;
         md_originalName := f_name file;
         md_fileSize := f_size fileToUpload;
         md_isEncrypted := isEncrypted;
         md_isDirectory := false;
         md_contentType :=
           orElse (f_type fileToUpload)
             (orElse (f_type file) "application/octet-stream");
         md_fileCount := 0;
         md_files := [];
         md_relayUrl :=
           relayUrl dc +:+ "/api/v1/ipfs/cat/" +:+ ipfsHash
           +:+ (if isEncrypted then
                  "/decrypt?token="
                  +:+ w_encodeURIComponent w
                        (orElse (encryptionToken dc) (authToken dc))
                else EmptyString);
         md_uploadedAt := t |} in
    run saveFileMetadata w metadata in
    ret (mkUploadResult true ipfsHash metadata).

(** The loop of [handleUpload] over single files dropped at the root:
    every file is uploaded with encryption requested, a failure is shown,
    logged and counted, and the loop goes on. *)
Fixpoint uploadEach (w : World) (u : Uploader) (dc : DriveCore)
    (files : list File) (successCount errorCount : nat) : M (nat * nat) :=
  match files with
  | [] => ret (successCount, errorCount)
  | file :: rest =>
      let* uploaded :=
        catch (run uploadFile w u dc file true EmptyString in ret true)
              (fun _ => run warn "Upload error" in ret false) in
      if uploaded : bool
      then uploadEach w u dc rest (S successCount) errorCount
      else uploadEach w u dc rest successCount (S errorCount)
  end.

End SingleUpload.

(** The storage network takes [sent] and answers with the address
    [hash], on the route the session uploads by. *)
Definition uploaderAccepts (u : SingleUpload.Uploader) (dc : DriveCore)
    (sent : File) (hash : string) : Prop :=
  if JS.truthy (walletSignature dc) && JS.truthy (userAddress dc) then
    exists status error hint,
      SingleUpload.u_uploadFetch u sent
      = SingleUpload.UploadFetchAnswers status true hash error hint
      /\ SingleUpload.statusOk status = true
  else
    exists error,
      SingleUpload.u_uploadFileBrowser u sent
      = SingleUpload.UploadFileReplies true hash error.

(** ** The rows of the file grid: the objects built by [getUserUploads],
    by [getFileList] and by [loadDirectoryContents], and what
    [handleFileDownload] and [FileGrid] make of them *)
Module Listing.
Import JS MetadataStore Directory.
Local Open Scope drive_scope.

(** A row.  Its field [type], which the listings infer from a table of
    file extensions, is not modelled; a missing string is the empty
    string, [relayUrl: null] included. *)
Record Entry := mkEntry {
  en_cid : string;
  en_name : string;
  en_originalName : string;
  en_size : nat;
  en_isEncrypted : bool;
  en_isDirectory : bool;
  en_fileCount : nat;
  en_uploadedAt : Z;
  en_relayUrl : string;
  en_parentDirectory : string;
  en_relativePath : string
}.

(** [isEncrypted && (this.encryptionToken || this.authToken) ? decrypt
    endpoint : plain endpoint] *)
Definition catEndpoint (w : World) (dc : DriveCore) (cid : string)
    (isEncrypted : bool) : string :=
  if isEncrypted && truthy (orElse (encryptionToken dc) (authToken dc)) then
    relayUrl dc +:+ "/api/v1/ipfs/cat/" +:+ cid +:+ "/decrypt?token="
    +:+ w_encodeURIComponent w (orElse (encryptionToken dc) (authToken dc))
  else relayUrl dc +:+ "/api/v1/ipfs/cat/" +:+ cid.

(** The callback of [uploads.map] in [getUserUploads]; [uploadedAt] is
    [upload.uploadedAt], [0] where it is missing. *)
Definition uploadEntry (w : World) (dc : DriveCore) (nowMs : Z)
    (upload : Upload) (uploadedAt : Z) : Entry :=
  let isEncrypted :=
    String.eqb (up_mimetype upload) "text/plain"
    && (endsWith (up_name upload) ".enc"
        || endsWith (up_name upload) ".encrypted") in
  {| en_cid := up_hash upload;
     en_name := orElse (up_name upload) (up_hash upload);
     en_originalName := orElse (up_name upload) (up_hash upload);
     en_size := up_size upload;
     en_isEncrypted := isEncrypted;
     en_isDirectory := false;
     en_fileCount := 0;
     en_uploadedAt := if (uploadedAt =? 0)%Z then nowMs else uploadedAt;
     en_relayUrl := catEndpoint w dc (up_hash upload) isEncrypted;
     en_parentDirectory := EmptyString;
     en_relativePath := EmptyString |}.

(** The largest time value of a [Date], in milliseconds. *)
Definition maxTime : Z := 8640000000000000.

(** The callback of [directPins.map] in [getFileList].  [otherName] stands
    for [metadata.name || info.Name || info.Metadata?.name], names the
    application itself never writes; a record that is missing is
    [emptyMetadata]. *)
Definition fileRow (w : World) (dc : DriveCore) (nowMs : Z) (cid : string)
    (metadata : Metadata) (otherName : string) : Entry :=
  let displayName :=
    orElse (md_displayName metadata)
      (orElse (md_fileName metadata)
         (orElse (md_originalName metadata) (orElse otherName cid))) in
  let uploadedAt :=
    if negb (md_uploadedAt metadata =? 0)%Z then md_uploadedAt metadata
    else if negb (md_timestamp metadata =? 0)%Z then md_timestamp metadata
    else nowMs in
  let uploadedAt :=
    if (nowMs <? uploadedAt)%Z || (maxTime <? Z.abs uploadedAt)%Z then nowMs
    else uploadedAt in
  {| en_cid := cid;
     en_name := displayName;
     en_originalName :=
       orElse (md_originalName metadata)
         (orElse (md_fileName metadata) displayName);
     en_size := md_fileSize metadata;
     en_isEncrypted := md_isEncrypted metadata;
     en_isDirectory := md_isDirectory metadata;
     en_fileCount := md_fileCount metadata;
     en_uploadedAt := uploadedAt;
     en_relayUrl :=
       orElse (md_relayUrl metadata)
         (catEndpoint w dc cid (md_isEncrypted metadata));
     en_parentDirectory := EmptyString;
     en_relativePath := EmptyString |}.

(** [s.substring(n)] *)
Fixpoint substringFrom (n : nat) (s : string) : string :=
  match n, s with
  | O, _ => s
  | S n', String _ r => substringFrom n' r
  | S _, EmptyString => EmptyString
  end.

(** The path of a member relative to its directory: the name of the
    directory and a slash are removed from the front when they are
    there. *)
Definition stripDirectoryName (directoryName filePath : string) : string :=
  if truthy directoryName && startsWith filePath (directoryName +:+ "/")
  then substringFrom (String.length directoryName + 1) filePath
  else filePath.

(** The callback of [metadata.files.map] in [loadDirectoryContents].  A
    member record carries its [path] and [name] as strings and its flag
    [isEncrypted] here, as those written by [uploadDirectory] do; the
    fallback on the suffix [.enc] for a record without the flag is not
    modelled, and neither is a record that has no [path] and no [name]
    property at all. *)
Definition memberRow (directoryCid : string) (metadata : Metadata) (nowMs : Z)
    (fileInfo : FileMeta) : Entry :=
  let filePath :=
    stripDirectoryName
      (orElse (md_displayName metadata) (md_fileName metadata))
      (orElse (fm_path fileInfo) (fm_name fileInfo)) in
  {| en_cid := directoryCid +:+ "/" +:+ filePath;
     en_name := orElse (fm_name fileInfo) (fm_path fileInfo);
     en_originalName := orElse (fm_name fileInfo) (fm_path fileInfo);
     en_size := fm_size fileInfo;
     en_isEncrypted := fm_isEncrypted fileInfo;
     en_isDirectory := false;
     en_fileCount := 0;
     en_uploadedAt :=
       if (md_uploadedAt metadata =? 0)%Z then nowMs
       else md_uploadedAt metadata;
     en_relayUrl := EmptyString;
     en_parentDirectory := directoryCid;
     en_relativePath := filePath |}.

(** [s.slice(0, -n)] *)
Definition dropLast (n : nat) (s : string) : string :=
  String.substring 0 (String.length s - n) s.

(** The name [handleFileDownload] saves a row under. *)
Definition downloadName (file : Entry) : string :=
  let name := orElse (en_originalName file) (en_name file) in
  if en_isEncrypted file && endsWith name ".enc" then dropLast 4 name
  else name.

(** [handleFileDownload]: the name and the blob handed to the browser,
    or nothing after an error has been shown and logged. *)
Definition handleFileDownload (w : World) (dc : DriveCore) (file : Entry)
    : M (option (string * File)) :=
  catch
    (let* blob :=
       (if truthy (en_parentDirectory file) && truthy (en_relativePath file)
        then catFromDirectory w dc (en_parentDirectory file)
               (en_relativePath file)
        else Download.downloadFile w dc (en_cid file)
               (Download.mkDownloadMeta (en_isEncrypted file)
                  (Z.of_nat (en_size file)))) in
     ret (Some (downloadName file, blob)))
    (fun _ => run warn "Download error" in ret None).

(** A string as [FileGrid] measures it: the list of its UTF-16 code
    units. *)
Definition CodeUnits : Type := list N.

(** The code units of an ASCII string: its characters. *)
Definition asciiUnits (s : string) : CodeUnits := map N_of_ascii (chars s).

(** ["..."] *)
Definition threeDots : CodeUnits := asciiUnits "...".

(** [str.substring(0, n)]; a negative [n] counts as [0], which the
    subtraction on [nat] gives. *)
Definition substringTo (n : nat) (str : CodeUnits) : CodeUnits := firstn n str.

(** [FileGrid.truncate] *)
Definition truncate (str : CodeUnits) (maxLength : nat) : CodeUnits :=
  if (length str <=? maxLength)%nat then str
  else substringTo (maxLength - 3) str ++ threeDots.

End Listing.

(** Uploaders for concrete runs: one that stores everything under the
    address [QmFile], one that refuses everything. *)
Module Uploaders.
Import SingleUpload.

Definition storing : Uploader :=
  {| u_uploadFileBrowser := fun _ => UploadFileReplies true "QmFile" EmptyString;
     u_uploadFetch := fun _ =>
       UploadFetchAnswers 200%Z true "QmFile" EmptyString EmptyString |}.

Definition refusing : Uploader :=
  {| u_uploadFileBrowser := fun _ => UploadFileThrows "Network Error";
     u_uploadFetch := fun _ => UploadFetchRejects "Failed to fetch" |}.

End Uploaders.

(** * Part II: properties *)

Import JS Observations Samples Effects Scenarios.

(** ** Strings *)
Section StringFacts.

Lemma chars_app (a b : string) : chars (a +:+ b) = chars a ++ chars b.
Proof. induction a as [|c a IH]; simpl; [reflexivity|]. now rewrite <- IH. Qed.

Lemma isPrefix_app (p l : list ascii) : isPrefix p (p ++ l) = true.
Proof.
  induction p as [|a p IH]; simpl; [reflexivity|].
  now rewrite Ascii.eqb_refl.
Qed.

Lemma isPrefix_cancel (a p l : list ascii) :
  isPrefix (a ++ p) (a ++ l) = isPrefix p l.
Proof.
  induction a as [|c a IH]; simpl; [reflexivity|].
  now rewrite Ascii.eqb_refl.
Qed.

Lemma endsWith_append (s suf : string) : endsWith (s +:+ suf) suf = true.
Proof.
  unfold endsWith. rewrite chars_app, rev_app_distr. apply isPrefix_app.
Qed.

(** Appending [suf] creates a doubled suffix only over an existing one. *)
Lemma endsWith_append_twice (s suf : string) :
  endsWith (s +:+ suf) (suf +:+ suf) = endsWith s suf.
Proof.
  unfold endsWith. rewrite !chars_app, !rev_app_distr. apply isPrefix_cancel.
Qed.

Lemma isPrefix_app_l (p q l : list ascii) :
  isPrefix (p ++ q) l = true -> isPrefix p l = true.
Proof.
  revert l. induction p as [|a p IH]; intros l H; simpl in *; [reflexivity|].
  destruct l as [|b l]; [discriminate|].
  destruct (Ascii.eqb a b); [eauto|discriminate].
Qed.

(** A string that ends with [a ++ suf] ends with [suf]. *)
Lemma endsWith_suffix (s a suf : string) :
  endsWith s (a +:+ suf) = true -> endsWith s suf = true.
Proof.
  unfold endsWith. rewrite chars_app, rev_app_distr. apply isPrefix_app_l.
Qed.

Lemma truthy_false (s : string) : truthy s = false <-> s = EmptyString.
Proof. destruct s; simpl; split; congruence. Qed.

End StringFacts.


(** ** CryptoGate *)
Section CryptoGate.
Import Crypto.

Lemma startsWith_truthy (s p : string) :
  truthy p = true -> startsWith s p = true -> truthy s = true.
Proof.
  destruct p as [|a p]; [discriminate|]. destruct s as [|b s]; [|reflexivity].
  intros _ H. unfold startsWith in H. simpl in H. discriminate.
Qed.

Lemma encryptedFileName_endsWith (name : string) :
  endsWith (encryptedFileName name) ".enc" = true.
Proof.
  unfold encryptedFileName. destruct (endsWith name ".enc") eqn:E; [exact E|].
  apply endsWith_append.
Qed.

Lemma encryptedFileName_kept (name : string) :
  endsWith name ".enc" = true -> encryptedFileName name = name.
Proof. intros H. unfold encryptedFileName. now rewrite H. Qed.

Lemma encryptedFileName_idempotent (name : string) :
  encryptedFileName (encryptedFileName name) = encryptedFileName name.
Proof. apply encryptedFileName_kept, encryptedFileName_endsWith. Qed.

Lemma encryptedFileName_iter (name : string) (k : nat) :
  Nat.iter (S k) encryptedFileName name = encryptedFileName name.
Proof.
  induction k as [|k IH]; [reflexivity|].
  change (Nat.iter (S (S k)) encryptedFileName name)
    with (encryptedFileName (Nat.iter (S k) encryptedFileName name)).
  rewrite IH. apply encryptedFileName_idempotent.
Qed.

(** The doubled suffix is in the new name only when the old name had it. *)
Lemma encryptedFileName_no_double (name : string) :
  endsWith (encryptedFileName name) ".enc.enc" = endsWith name ".enc.enc".
Proof.
  unfold encryptedFileName. destruct (endsWith name ".enc") eqn:E; [reflexivity|].
  change ".enc.enc" with (".enc" +:+ ".enc").
  rewrite endsWith_append_twice, E. symmetry.
  apply not_true_is_false. intros D. apply endsWith_suffix in D. congruence.
Qed.

Lemma encryptFile_ok (w : World) (file : File) (token : string)
      (SEA : SEAlib) (url c : string) :
  truthy token = true ->
  loadSEA w = Ok SEA ->
  fileToBase64 w file = Ok url ->
  sea_encrypt SEA url token = Ok c ->
  encryptFile w file token
  = Ok (newFile c (encryptedFileName (f_name file)) "text/plain").
Proof.
  intros Ht Hs Hu Hc. unfold encryptFile. rewrite Ht. simpl.
  rewrite Hs. simpl. rewrite Hu. simpl. rewrite Hc. reflexivity.
Qed.

Lemma encryptFile_name (w : World) (file : File) (token : string)
      (encrypted : File) :
  encryptFile w file token = Ok encrypted ->
  f_name encrypted = encryptedFileName (f_name file).
Proof.
  unfold encryptFile. destruct (negb (truthy token)); [discriminate|].
  destruct (loadSEA w) as [S'|]; simpl; [|discriminate].
  destruct (fileToBase64 w file) as [u|]; simpl; [|discriminate].
  destruct (sea_encrypt S' u token); simpl; [|discriminate].
  intros H. injection H as <-. reflexivity.
Qed.

Lemma length_append (a b : string) :
  String.length (a +:+ b) = (String.length a + String.length b)%nat.
Proof.
  induction a as [|c a IH]; [reflexivity|].
  change (S (String.length (a +:+ b)) = S (String.length a + String.length b)).
  now rewrite IH.
Qed.

(** Encrypting again and again never stacks a second suffix on the name. *)
Lemma encryptedFileName_never_stacks (name : string) (k : nat) :
  Nat.iter (S k) encryptedFileName name <> name +:+ ".enc.enc".
Proof.
  rewrite encryptedFileName_iter. unfold encryptedFileName.
  destruct (endsWith name ".enc"); intros E.
  - apply (f_equal String.length) in E. rewrite length_append in E.
    simpl in E. lia.
  - apply String.app_inj in E. discriminate.
Qed.

(** C9, amended.  For every file and non-empty secret for which the
    collaborators answer, [encryptFile] produces a file whose name is the
    input name with [.enc] appended unless it already ends in [.enc]: the
    name ends in [.enc], a name that already ends in [.enc] is kept,
    encrypting again any number of times leaves the name as it is and
    never yields the input name followed by [.enc.enc].  A name can still
    end in [.enc.enc]: the new name does exactly when the input name
    did. *)
Theorem C9_encrypted_name_idempotent (w : World) (file : File) (token : string)
        (SEA : SEAlib) (url c : string) :
  truthy token = true ->
  loadSEA w = Ok SEA ->
  fileToBase64 w file = Ok url ->
  sea_encrypt SEA url token = Ok c ->
  exists encrypted,
    encryptFile w file token = Ok encrypted
    /\ f_name encrypted = encryptedFileName (f_name file)
    /\ endsWith (f_name encrypted) ".enc" = true
    /\ (endsWith (f_name file) ".enc" = true ->
        f_name encrypted = f_name file)
    /\ (forall again, encryptFile w encrypted token = Ok again ->
        f_name again = f_name encrypted)
    /\ (forall k, Nat.iter k encryptedFileName (f_name encrypted)
                  = f_name encrypted)
    /\ (forall k, Nat.iter (S k) encryptedFileName (f_name file)
                  <> f_name file +:+ ".enc.enc")
    /\ endsWith (f_name encrypted) ".enc.enc"
       = endsWith (f_name file) ".enc.enc".
Proof.
  intros Ht Hs Hu Hc. eexists. split; [eapply encryptFile_ok; eassumption|].
  simpl. repeat split.
  - apply encryptedFileName_endsWith.
  - apply encryptedFileName_kept.
  - intros again H. apply encryptFile_name in H. rewrite H. simpl.
    apply encryptedFileName_idempotent.
  - intros [|k]; [reflexivity|].
    rewrite encryptedFileName_iter. apply encryptedFileName_idempotent.
  - intros k. apply encryptedFileName_never_stacks.
  - apply encryptedFileName_no_double.
Qed.

Lemma decryptBlob_ok (w : World) (blob : File) (token : string)
      (SEA : SEAlib) (url : string) (out : File) :
  truthy token = true ->
  loadSEA w = Ok SEA ->
  sea_decrypt SEA (f_content blob) token = Ok url ->
  startsWith url "data:" = true ->
  w_fetchDataURL w url = Ok out ->
  decryptBlob w blob token = Ok out.
Proof.
  intros Ht Hs Hd Hp Hf. unfold decryptBlob. rewrite Ht. simpl.
  rewrite Hs. simpl. rewrite Hd. simpl.
  rewrite (startsWith_truthy url "data:" eq_refl Hp). simpl.
  rewrite Hp, Hf. reflexivity.
Qed.

(** C7. For every file content and every non-empty secret: when SEA is
    loaded and decrypts with the secret what it encrypted with it, and the
    browser reads the file as a [data:] URL that it fetches back to the
    same bytes, [decryptBlob] applied to the file made by [encryptFile]
    resolves with a blob holding exactly the original content. *)
Theorem C7_encrypt_decrypt_roundtrip (w : World) (file : File) (s : string)
        (SEA : SEAlib) (url c : string) (fetched : File) :
  truthy s = true ->
  loadSEA w = Ok SEA ->
  fileToBase64 w file = Ok url ->
  startsWith url "data:" = true ->
  w_fetchDataURL w url = Ok fetched ->
  f_content fetched = f_content file ->
  sea_encrypt SEA url s = Ok c ->
  sea_decrypt SEA c s = Ok url ->
  exists encrypted decrypted,
    encryptFile w file s = Ok encrypted
    /\ decryptBlob w encrypted s = Ok decrypted
    /\ f_content decrypted = f_content file.
Proof.
  intros Ht Hs Hu Hp Hf Hb He Hd.
  exists (newFile c (encryptedFileName (f_name file)) "text/plain"), fetched.
  split; [eapply encryptFile_ok; eassumption|].
  split; [|exact Hb].
  eapply decryptBlob_ok; eauto.
Qed.

End CryptoGate.

(** ** The reference browser satisfies the assumptions on the collaborators *)
Section ReferenceBrowser.
Import Reference.

Lemma value_digit (b5 b4 b3 b2 b1 b0 : bool) :
  value (digit b5 b4 b3 b2 b1 b0)
  = Some (32 * bit b5 + 16 * bit b4 + 8 * bit b3 + 4 * bit b2
          + 2 * bit b1 + bit b0)%nat.
Proof. destruct b5, b4, b3, b2, b1, b0; reflexivity. Qed.

Lemma digit_not_pad (b5 b4 b3 b2 b1 b0 : bool) :
  isPad (digit b5 b4 b3 b2 b1 b0) = false.
Proof. destruct b5, b4, b3, b2, b1, b0; reflexivity. Qed.

Lemma digit_not_comma (b5 b4 b3 b2 b1 b0 : bool) :
  Ascii.eqb (digit b5 b4 b3 b2 b1 b0) ","%char = false.
Proof. destruct b5, b4, b3, b2, b1, b0; reflexivity. Qed.

Lemma byte1_digit (a0 a1 a2 a3 a4 a5 a6 a7 x3 x2 x1 x0 : bool) :
  byte1 (32 * bit a7 + 16 * bit a6 + 8 * bit a5 + 4 * bit a4
         + 2 * bit a3 + bit a2)
        (32 * bit a1 + 16 * bit a0 + 8 * bit x3 + 4 * bit x2
         + 2 * bit x1 + bit x0)
  = Ascii a0 a1 a2 a3 a4 a5 a6 a7.
Proof.
  destruct a0, a1, a2, a3, a4, a5, a6, a7, x3, x2, x1, x0; reflexivity.
Qed.

Lemma byte2_digit (y1 y0 b0 b1 b2 b3 b4 b5 b6 b7 x1 x0 : bool) :
  byte2 (32 * bit y1 + 16 * bit y0 + 8 * bit b7 + 4 * bit b6
         + 2 * bit b5 + bit b4)
        (32 * bit b3 + 16 * bit b2 + 8 * bit b1 + 4 * bit b0
         + 2 * bit x1 + bit x0)
  = Ascii b0 b1 b2 b3 b4 b5 b6 b7.
Proof.
  destruct y1, y0, b0, b1, b2, b3, b4, b5, b6, b7, x1, x0; reflexivity.
Qed.

Lemma byte3_digit (y3 y2 y1 y0 c0 c1 c2 c3 c4 c5 c6 c7 : bool) :
  byte3 (32 * bit y3 + 16 * bit y2 + 8 * bit y1 + 4 * bit y0
         + 2 * bit c7 + bit c6)
        (32 * bit c5 + 16 * bit c4 + 8 * bit c3 + 4 * bit c2
         + 2 * bit c1 + bit c0)
  = Ascii c0 c1 c2 c3 c4 c5 c6 c7.
Proof.
  destruct y3, y2, y1, y0, c0, c1, c2, c3, c4, c5, c6, c7; reflexivity.
Qed.

(** Induction on strings three characters at a time. *)
Lemma string_ind3 (P : string -> Prop) :
  P EmptyString ->
  (forall a, P (String a EmptyString)) ->
  (forall a b, P (String a (String b EmptyString))) ->
  (forall a b c r, P r -> P (String a (String b (String c r)))) ->
  forall s, P s.
Proof.
  intros H0 H1 H2 H3.
  assert (H : forall s, P s /\ (forall a, P (String a s))
                        /\ (forall a b, P (String a (String b s)))).
  { induction s as [|c s (IHs & IH1 & IH2)]; [now auto|].
    repeat split; auto. }
  intros s. apply H.
Qed.

Lemma decode_encode (s : string) : decode (encode s) = Some s.
Proof.
  induction s as [|a|a b|a b c r IH] using string_ind3.
  - reflexivity.
  - destruct a as [a0 a1 a2 a3 a4 a5 a6 a7]. cbn [encode decode].
    rewrite !value_digit.
    change (isPad "=") with true. cbn iota.
    now rewrite byte1_digit.
  - destruct a as [a0 a1 a2 a3 a4 a5 a6 a7], b as [b0 b1 b2 b3 b4 b5 b6 b7].
    cbn [encode decode]. rewrite !value_digit, digit_not_pad.
    change (isPad "=") with true. cbn iota.
    now rewrite byte1_digit, byte2_digit.
  - destruct a as [a0 a1 a2 a3 a4 a5 a6 a7], b as [b0 b1 b2 b3 b4 b5 b6 b7],
      c as [c0 c1 c2 c3 c4 c5 c6 c7].
    cbn [encode decode]. rewrite !value_digit, !digit_not_pad, IH.
    now rewrite byte1_digit, byte2_digit, byte3_digit.
Qed.

Lemma encode_no_comma (s : string) : splitComma (encode s) = None.
Proof.
  induction s as [|a|a b|a b c r IH] using string_ind3.
  - reflexivity.
  - destruct a as [a0 a1 a2 a3 a4 a5 a6 a7]. cbn [encode splitComma].
    now rewrite !digit_not_comma.
  - destruct a as [a0 a1 a2 a3 a4 a5 a6 a7], b as [b0 b1 b2 b3 b4 b5 b6 b7].
    cbn [encode splitComma]. now rewrite !digit_not_comma.
  - destruct a as [a0 a1 a2 a3 a4 a5 a6 a7], b as [b0 b1 b2 b3 b4 b5 b6 b7],
      c as [c0 c1 c2 c3 c4 c5 c6 c7].
    cbn [encode splitComma]. now rewrite !digit_not_comma, IH.
Qed.

Lemma splitComma_app_none (a b : string) :
  splitComma a = None -> splitComma b = None -> splitComma (a +:+ b) = None.
Proof.
  intros Ha Hb. induction a as [|c a IH]; simpl in *; [exact Hb|].
  destruct (Ascii.eqb c ","); [discriminate|].
  destruct (splitComma a) as [[h t]|]; [discriminate|]. now rewrite IH.
Qed.

Lemma splitComma_at (a t : string) :
  splitComma a = None ->
  splitComma (a +:+ String ","%char t) = Some (a, t).
Proof.
  intros Ha. induction a as [|c a IH]; simpl in *; [reflexivity|].
  destruct (Ascii.eqb c ","); [discriminate|].
  destruct (splitComma a) as [[h t']|]; [discriminate|]. now rewrite IH.
Qed.

Lemma append_assoc (a b c : string) : (a +:+ b) +:+ c = a +:+ (b +:+ c).
Proof.
  induction a as [|x a IH]; [reflexivity|].
  change (String x ((a +:+ b) +:+ c) = String x (a +:+ (b +:+ c))).
  now rewrite IH.
Qed.

(** Every file with a comma-free type is read as a [data:] URL that is
    fetched back to its bytes. *)
Lemma reference_dataURL_roundtrip (file : File) :
  splitComma (f_type file) = None ->
  exists url fetched,
    readAsDataURL file = Ok url
    /\ startsWith url "data:" = true
    /\ fetchDataURL url = Ok fetched
    /\ f_content fetched = f_content file.
Proof.
  intros Hty. unfold readAsDataURL.
  set (ty := orElse (f_type file) "application/octet-stream").
  assert (Hc : splitComma ty = None).
  { unfold ty, orElse. destruct (truthy (f_type file)); [exact Hty|reflexivity]. }
  exists ("data:" +:+ ty +:+ ";base64," +:+ encode (f_content file)).
  eexists. split; [reflexivity|].
  assert (Hp : startsWith ("data:" +:+ ty +:+ ";base64," +:+ encode (f_content file))
                 "data:" = true).
  { unfold startsWith. rewrite chars_app. apply isPrefix_app. }
  split; [exact Hp|].
  unfold fetchDataURL. rewrite Hp.
  replace ("data:" +:+ ty +:+ ";base64," +:+ encode (f_content file))
    with (("data:" +:+ ty +:+ ";base64")
          +:+ String ","%char (encode (f_content file))).
  2:{ rewrite !append_assoc. reflexivity. }
  rewrite splitComma_at.
  2:{ apply splitComma_app_none; [reflexivity|].
      apply splitComma_app_none; [exact Hc|reflexivity]. }
  replace ("data:" +:+ ty +:+ ";base64") with (("data:" +:+ ty) +:+ ";base64")
    by apply append_assoc.
  rewrite endsWith_append, decode_encode. split; reflexivity.
Qed.

Lemma dropChars_app (p x : string) : dropChars (String.length p) (p +:+ x) = x.
Proof. induction p as [|c p IH]; simpl; [now destruct x|exact IH]. Qed.

(** The stand-in for SEA decrypts what it encrypted with the same key. *)
Lemma reference_sea_roundtrip (data key : string) :
  exists c, sea_encrypt sea data key = Ok c /\ sea_decrypt sea c key = Ok data.
Proof.
  eexists. split; [reflexivity|]. simpl.
  assert (H : startsWith (tag key +:+ data) (tag key) = true).
  { unfold startsWith. rewrite chars_app. apply isPrefix_app. }
  rewrite H. now rewrite dropChars_app.
Qed.

End ReferenceBrowser.

(** ** Concrete runs of the CryptoGate statements *)
Section CryptoGateRuns.
Import Crypto.

Lemma C9_encrypted_name_idempotent_witness :
  exists encrypted,
    encryptFile (Reference.world noStore) helloFile "s3cret" = Ok encrypted
    /\ f_name encrypted = encryptedFileName (f_name helloFile)
    /\ endsWith (f_name encrypted) ".enc" = true
    /\ (endsWith (f_name helloFile) ".enc" = true ->
        f_name encrypted = f_name helloFile)
    /\ (forall again,
          encryptFile (Reference.world noStore) encrypted "s3cret" = Ok again ->
          f_name again = f_name encrypted)
    /\ (forall k, Nat.iter k encryptedFileName (f_name encrypted)
                  = f_name encrypted)
    /\ (forall k, Nat.iter (S k) encryptedFileName (f_name helloFile)
                  <> f_name helloFile +:+ ".enc.enc")
    /\ endsWith (f_name encrypted) ".enc.enc"
       = endsWith (f_name helloFile) ".enc.enc".
Proof.
  eapply (C9_encrypted_name_idempotent (Reference.world noStore) helloFile
            "s3cret" Reference.sea); reflexivity.
Defined.

(** C9, as stated, fails in its last clause: a file whose name already
    ends in [.enc.enc] is encrypted under that very name, so encryption
    does produce a name ending in [.enc.enc]. *)
Lemma C9_doubled_suffix_is_kept_counterexample :
  let file := newFile "hello" "a.enc.enc" "text/plain" in
  exists encrypted,
    encryptFile (Reference.world noStore) file "s3cret" = Ok encrypted
    /\ f_name encrypted = "a.enc.enc"
    /\ endsWith (f_name encrypted) ".enc.enc" = true.
Proof.
  intros file. eexists. split; [reflexivity|]. split; reflexivity.
Qed.

Lemma C7_encrypt_decrypt_roundtrip_witness :
  exists encrypted decrypted,
    encryptFile (Reference.world noStore) helloFile "s3cret" = Ok encrypted
    /\ decryptBlob (Reference.world noStore) encrypted "s3cret" = Ok decrypted
    /\ f_content decrypted = f_content helloFile.
Proof.
  eapply (C7_encrypt_decrypt_roundtrip (Reference.world noStore) helloFile
            "s3cret" Reference.sea); reflexivity.
Defined.

End CryptoGateRuns.

(** ** MetadataStore *)
Section MetadataStoreFacts.
Import MetadataStore.

(** Unfolds the monad so that a run of a method computes. *)
Ltac run_monad :=
  unfold bind, catch, ret, throw, lift, call, warn, getCache, now, putCache,
    setItem, parseCache in *; simpl in *.

(** C4, as stated, fails: with the relay unreachable the record is not in
    the local cache after the put. *)
Lemma C4_put_counterexample :
  ~ (forall (w : World) (metadata : Metadata) (s : State),
        cached (snd (saveFileMetadata w metadata s)) (md_hash metadata)
        = Some metadata).
Proof.
  intros H.
  specialize (H offlineWorld (record "QmA") (emptyState CacheAbsent 2000)).
  vm_compute in H. discriminate.
Qed.

(** C4, amended. [saveFileMetadata] sends the record to the remote store
    once and never surfaces a failure.  The local cache is written only
    after the remote store has reported success: then (when [localStorage]
    accepts the write) the record is in the local cache under its hash and
    the other entries are kept; when the remote write rejects or reports no
    success, the failure is logged and the local cache is left as it was. *)
Theorem C4_put_writes_local_after_remote_success
        (w : World) (metadata : Metadata) (s : State) :
  let s' := snd (saveFileMetadata w metadata s) in
  fst (saveFileMetadata w metadata s) = Ok tt
  /\ st_calls s' = st_calls s ++ [CallSaveSystemHash metadata]
  /\ (w_saveSystemHash w metadata = Ok true -> w_setItemOk w = true ->
      st_cache s'
      = CacheDoc (<[md_hash metadata := metadata]> (cacheData (st_cache s)))
                 (st_now s)
      /\ cached s' (md_hash metadata) = Some metadata
      /\ (forall other, other <> md_hash metadata ->
                        cached s' other = cached s other)
      /\ st_log s' = st_log s)
  /\ (w_saveSystemHash w metadata <> Ok true ->
      st_cache s' = st_cache s
      /\ st_log s' = st_log s ++ ["Error saving file metadata"]).
Proof.
  unfold saveFileMetadata, cached. run_monad.
  destruct (w_saveSystemHash w metadata) as [[|]|e] eqn:R; simpl.
  - destruct (w_setItemOk w) eqn:W; simpl.
    + repeat split; try congruence.
      * apply lookup_insert_eq.
      * intros other Hne. now apply lookup_insert_ne.
    + repeat split; congruence.
  - repeat split; congruence.
  - repeat split; congruence.
Qed.

Lemma C4_put_writes_local_after_remote_success_witness :
  let w := Reference.world noStore in
  let s := emptyState CacheAbsent 2000 in
  let s' := snd (saveFileMetadata w (record "QmA") s) in
  st_cache s' = CacheDoc (<["QmA" := record "QmA"]> ∅) 2000
  /\ cached s' "QmA" = Some (record "QmA").
Proof.
  intros w s s'.
  destruct (C4_put_writes_local_after_remote_success w (record "QmA") s)
    as (_ & _ & H & _).
  destruct (H eq_refl eq_refl) as (H1 & H2 & _). split; [exact H1|exact H2].
Defined.

(** [deleteFile] *)
Lemma removeFromLocalCache_ok (w : World) (cid msg : string) (s : State) :
  fst (removeFromLocalCache w cid msg s) = Ok tt.
Proof.
  unfold removeFromLocalCache. run_monad.
  destruct (st_cache s) as [| |data ts]; simpl; try reflexivity.
  destruct (data !! cid); simpl; [|reflexivity].
  destruct (w_setItemOk w); reflexivity.
Qed.

(** C10. Whenever an auth token or a wallet signature is present,
    [deleteFile] resolves with [true], whatever the pin removal, the remote
    metadata removal and the local cache removal do.  The failures are
    logged: a pin removal that rejects, a remote metadata removal that
    rejects (through the SDK in admin mode, through [fetch] in wallet mode),
    and a local cache that does not parse or cannot be written each leave
    a warning in the log. *)
Theorem C10_deleteFile_always_true (w : World) (dc : DriveCore) (cid : string)
        (metadata : Metadata) (s : State) :
  truthy (authToken dc) = true \/ truthy (walletSignature dc) = true ->
  let s' := snd (deleteFile w dc cid metadata s) in
  let user := orElse (md_userAddress metadata)
                (orElse (userAddress dc) "drive-user") in
  fst (deleteFile w dc cid metadata s) = Ok true
  /\ (truthy (authToken dc) = true -> isOk (w_pinRm w cid) = false ->
      In "Pin removal failed" (st_log s'))
  /\ (truthy (authToken dc) = true ->
      isOk (w_removeSystemHash w cid user) = false ->
      In "Error removing metadata" (st_log s'))
  /\ (truthy (authToken dc) = false -> truthy (userAddress dc) = true ->
      isOk (w_removeSystemHashFetch w cid (userAddress dc)) = false ->
      In "Error removing metadata" (st_log s'))
  /\ (st_cache s = CacheCorrupt
      \/ (w_setItemOk w = false /\ is_Some (cached s cid)) ->
      In "Error removing from cache" (st_log s')).
Proof.
  intros Hcred. unfold deleteFile, removeFromLocalCache, cached.
  destruct (truthy (authToken dc)) eqn:A; simpl.
  - run_monad.
    destruct (w_pinRm w cid) as [[]|e1] eqn:P; simpl;
      destruct (w_removeSystemHash w cid _) as [[]|e2] eqn:Rm; simpl;
      destruct (st_cache s) as [| |data ts] eqn:C; simpl;
      try destruct (data !! cid) eqn:L; simpl;
      try destruct (w_setItemOk w) eqn:W; simpl;
      (split; [reflexivity|]);
      repeat split; intros;
      repeat match goal with
             | H : _ \/ _ |- _ => destruct H
             | H : _ /\ _ |- _ => destruct H
             | H : is_Some None |- _ => destruct H
             | H : is_Some (∅ !! _) |- _ => rewrite lookup_empty in H
             | H : is_Some (?m !! ?k), L : ?m !! ?k = None |- _ =>
                 rewrite L in H
             end;
      try discriminate; try congruence;
      rewrite ?in_app_iff; simpl; tauto.
  - destruct Hcred as [H|H]; [discriminate|]. rewrite H. simpl. run_monad.
    destruct (truthy (userAddress dc)) eqn:U; simpl;
      try destruct (w_removeSystemHashFetch w cid _) as [[|]|e2] eqn:Rm; simpl;
      destruct (st_cache s) as [| |data ts] eqn:C; simpl;
      try destruct (data !! cid) eqn:L; simpl;
      try destruct (w_setItemOk w) eqn:W; simpl;
      (split; [reflexivity|]);
      repeat split; intros;
      repeat match goal with
             | H : _ \/ _ |- _ => destruct H
             | H : _ /\ _ |- _ => destruct H
             | H : is_Some None |- _ => destruct H
             | H : is_Some (∅ !! _) |- _ => rewrite lookup_empty in H
             | H : is_Some (?m !! ?k), L : ?m !! ?k = None |- _ =>
                 rewrite L in H
             end;
      try discriminate; try congruence;
      rewrite ?in_app_iff; simpl; tauto.
Qed.

(** With every removal step failing the caller still observes [true]. *)
Lemma C10_deleteFile_always_true_witness :
  let dc := adminCore in
  let s := emptyState CacheCorrupt 2000 in
  fst (deleteFile offlineWorld dc "QmA" emptyMetadata s) = Ok true
  /\ st_log (snd (deleteFile offlineWorld dc "QmA" emptyMetadata s))
     = ["Pin removal failed"; "Error removing metadata";
        "Error removing from cache"].
Proof.
  intros dc s.
  split; [|reflexivity].
  apply (C10_deleteFile_always_true offlineWorld dc "QmA" emptyMetadata s).
  left. reflexivity.
Defined.

End MetadataStoreFacts.

(** ** The staleness policy of [getFileList] *)
Section StaleWhileRevalidate.
Import MetadataStore.

Ltac run_monad :=
  unfold bind, catch, ret, throw, lift, call, warn, getCache, now, putCache,
    setItem, parseCache in *; simpl in *.

(** C2, as stated, fails twice.  A read one second after the cache was
    written, well inside the window, still sends the request for the system
    hash map; and a read after the window does not return the cached map:
    it goes on with an empty one. *)
Lemma C2_fresh_read_fetches_counterexample :
  let data : gmap string Metadata := {[ "QmA" := record "QmA" ]} in
  let fresh := emptyState (CacheDoc data 1000) 2000 in
  let stale := emptyState (CacheDoc data 1000) (1000 + staleAfter) in
  cacheFresh (st_now fresh) 1000 = true
  /\ In CallGetSystemHashesMap
        (st_calls (snd (getFileList (Reference.world noStore) adminCore fresh)))
  /\ cacheFresh (st_now stale) 1000 = false
  /\ fst (getFileList (Reference.world noStore) adminCore stale)
     = Ok (AdminListing [] ∅).
Proof.
  intros data fresh stale. split; [reflexivity|].
  split; [vm_compute; tauto|]. split; reflexivity.
Qed.

Lemma getFileList_admin (w : World) (dc : DriveCore) (s : State) :
  truthy (authToken dc) = true ->
  w_health w = true ->
  w_pinLs w <> PinLs401 ->
  exists log,
    getFileList w dc s
    = (Ok (AdminListing (pinsInForce (w_pinLs w))
                        (mapInForce (st_cache s) (st_now s))),
       mkState (st_cache s) (st_now s)
               (st_calls s ++ [CallHealth; CallPinLs; CallGetSystemHashesMap])
               log).
Proof.
  intros A H P. unfold getFileList, checkRelayConnection. rewrite A. simpl.
  run_monad. rewrite H. simpl.
  destruct (w_pinLs w) as [pins| |msg] eqn:E; [|congruence|]; simpl;
    destruct (st_cache s) as [| |data ts]; simpl;
    try destruct (cacheFresh (st_now s) ts); simpl;
    rewrite <- !app_assoc; simpl; eexists; reflexivity.
Qed.

(** The two checks that come before the request: a relay that does not
    answer and a token that is refused end the read. *)
Lemma getFileList_unreachable (w : World) (dc : DriveCore) (s : State) :
  truthy (authToken dc) = true ->
  w_health w = false ->
  getFileList w dc s
  = (Err "Cannot connect to relay server. Please check the relay URL in settings.",
     mkState (st_cache s) (st_now s) (st_calls s ++ [CallHealth])
             (st_log s ++ ["Relay connection check failed"])).
Proof.
  intros A H. unfold getFileList, checkRelayConnection. rewrite A. simpl.
  run_monad. rewrite H. reflexivity.
Qed.

Lemma getFileList_refused (w : World) (dc : DriveCore) (s : State) :
  truthy (authToken dc) = true ->
  w_health w = true ->
  w_pinLs w = PinLs401 ->
  getFileList w dc s
  = (Err "Authentication failed. Please check your auth token in settings.",
     mkState (st_cache s) (st_now s) (st_calls s ++ [CallHealth; CallPinLs])
             (st_log s ++ ["Error getting file list"])).
Proof.
  intros A H P. unfold getFileList, checkRelayConnection. rewrite A. simpl.
  run_monad. rewrite H. simpl. rewrite P. simpl.
  now rewrite <- app_assoc.
Qed.

Lemma fetchMetadataSettled_fails (w : World) (s : State) :
  isOk (w_getSystemHashesMap w) = false \/ w_setItemOk w = false ->
  exists log,
    fetchMetadataSettled w s
    = (Ok tt, mkState (st_cache s) (st_now s) (st_calls s) log).
Proof.
  intros H. unfold fetchMetadataSettled. run_monad.
  destruct (w_getSystemHashesMap w) as [newMap|e]; simpl.
  - destruct H as [H|H]; [discriminate|]. rewrite H. simpl. eauto.
  - destruct (String.eqb e "Timeout"); simpl; destruct s; eauto.
Qed.

(** C2, amended.  In admin mode a read by [getFileList] never writes the
    local cache, and it first checks the relay and lists the pins: when
    the relay does not answer, or refuses the token with a 401, the read
    rejects and no request for the system hash map is sent.  Every other
    read sends exactly one request for the system hash map, whatever the
    age of the local cache, and returns without waiting for the answer:
    its result is built from the cached map when the cache is younger than
    five minutes and from an empty map otherwise.  When the request later
    succeeds and [localStorage] accepts the write, the cache becomes the
    server's map stamped with the current time, and a read less than five
    minutes after that uses this map; when it fails, the cache stays as it
    was.  The background task sends nothing and never rejects. *)
Theorem C2_every_read_refreshes_in_background
        (w : World) (dc : DriveCore) (s : State) :
  truthy (authToken dc) = true ->
  let out := getFileList w dc s in
  st_cache (snd out) = st_cache s
  /\ (w_health w = false ->
      fst out
      = Err "Cannot connect to relay server. Please check the relay URL in settings."
      /\ st_calls (snd out) = st_calls s ++ [CallHealth])
  /\ (w_health w = true -> w_pinLs w = PinLs401 ->
      fst out
      = Err "Authentication failed. Please check your auth token in settings."
      /\ st_calls (snd out) = st_calls s ++ [CallHealth; CallPinLs])
  /\ (w_health w = true -> w_pinLs w <> PinLs401 ->
      fst out
      = Ok (AdminListing (pinsInForce (w_pinLs w))
                         (mapInForce (st_cache s) (st_now s)))
      /\ st_calls (snd out)
         = st_calls s ++ [CallHealth; CallPinLs; CallGetSystemHashesMap])
  /\ (forall newMap later,
        w_getSystemHashesMap w = Ok newMap ->
        w_setItemOk w = true ->
        let s2 := snd (fetchMetadataSettled w later) in
        fst (fetchMetadataSettled w later) = Ok tt
        /\ st_cache s2 = CacheDoc newMap (st_now later)
        /\ st_calls s2 = st_calls later
        /\ (w_health w = true -> w_pinLs w <> PinLs401 ->
            forall next,
              st_cache next = st_cache s2 ->
              cacheFresh (st_now next) (st_now later) = true ->
              fst (getFileList w dc next)
              = Ok (AdminListing (pinsInForce (w_pinLs w)) newMap)))
  /\ (forall later,
        isOk (w_getSystemHashesMap w) = false \/ w_setItemOk w = false ->
        let s2 := snd (fetchMetadataSettled w later) in
        fst (fetchMetadataSettled w later) = Ok tt
        /\ st_cache s2 = st_cache later
        /\ st_calls s2 = st_calls later).
Proof.
  intros A out. subst out.
  assert (Hok : forall newMap later,
             w_getSystemHashesMap w = Ok newMap -> w_setItemOk w = true ->
             fetchMetadataSettled w later
             = (Ok tt, mkState (CacheDoc newMap (st_now later)) (st_now later)
                               (st_calls later) (st_log later))).
  { intros newMap later Hm Hs. unfold fetchMetadataSettled. run_monad.
    now rewrite Hm, Hs. }
  split; [|split; [|split; [|split; [|split]]]].
  - destruct (w_health w) eqn:H.
    + destruct (w_pinLs w) as [pins| |msg] eqn:P.
      * destruct (getFileList_admin w dc s A H) as [log E];
          [rewrite P; discriminate|]. now rewrite E.
      * now rewrite (getFileList_refused w dc s A H P).
      * destruct (getFileList_admin w dc s A H) as [log E];
          [rewrite P; discriminate|]. now rewrite E.
    + now rewrite (getFileList_unreachable w dc s A H).
  - intros H. rewrite (getFileList_unreachable w dc s A H). split; reflexivity.
  - intros H P. rewrite (getFileList_refused w dc s A H P). split; reflexivity.
  - intros H P. destruct (getFileList_admin w dc s A H P) as [log E].
    rewrite E. split; reflexivity.
  - intros newMap later Hm Hs. cbv zeta. rewrite (Hok newMap later Hm Hs).
    cbn [fst snd st_cache st_calls].
    split; [reflexivity|]. split; [reflexivity|]. split; [reflexivity|].
    intros H P next Hc Hf.
    destruct (getFileList_admin w dc next A H P) as [log' E']. rewrite E'.
    cbn [fst]. rewrite Hc. cbn [mapInForce]. now rewrite Hf.
  - intros later Hfail. cbv zeta.
    destruct (fetchMetadataSettled_fails w later Hfail) as [log E].
    rewrite E. repeat split.
Qed.

Lemma C2_every_read_refreshes_in_background_witness :
  let w := Reference.world noStore in
  let data : gmap string Metadata := {[ "QmA" := record "QmA" ]} in
  let s := emptyState (CacheDoc data 1000) 2000 in
  fst (getFileList w adminCore s) = Ok (AdminListing [] data)
  /\ st_calls (snd (getFileList w adminCore s))
     = [CallHealth; CallPinLs; CallGetSystemHashesMap].
Proof.
  intros w data s.
  destruct (C2_every_read_refreshes_in_background w adminCore s eq_refl)
    as (_ & _ & _ & H & _).
  apply H; [reflexivity|discriminate].
Defined.

End StaleWhileRevalidate.

(** ** Running the monad *)
Section MonadFacts.


Lemma bind_err {A B} (m : M A) (k : A -> M B) (s s' : State) (e : string) :
  m s = (Err e, s') -> bind m k s = (Err e, s').
Proof. intros H. unfold bind. now rewrite H. Qed.

Lemma catch_ok {A} (m : M A) (h : string -> M A) (s s' : State) (a : A) :
  m s = (Ok a, s') -> catch m h s = (Ok a, s').
Proof. intros H. unfold catch. now rewrite H. Qed.

Lemma uploadsOf_app (l1 l2 : list Call) :
  uploadsOf (l1 ++ l2) = uploadsOf l1 ++ uploadsOf l2.
Proof.
  induction l1 as [|c l1 IH]; [reflexivity|].
  destruct c; simpl; rewrite ?IH; reflexivity.
Qed.

Variable P : State -> Prop.

Lemma preserves_ret {A} (a : A) : preserves P (ret a).
Proof. intros s H. exact H. Qed.

Lemma preserves_throw {A} (e : string) : preserves P (@throw A e).
Proof. intros s H. exact H. Qed.

Lemma preserves_lift {A} (r : Result A) : preserves P (lift r).
Proof. intros s H. exact H. Qed.

Lemma preserves_bind {A B} (m : M A) (k : A -> M B) :
  preserves P m -> (forall a, preserves P (k a)) -> preserves P (bind m k).
Proof.
  intros Hm Hk s Hs. unfold bind. specialize (Hm s Hs).
  destruct (m s) as [[a|e] s']; simpl in *; [now apply Hk|exact Hm].
Qed.

Lemma preserves_bind_returns {A B} (m : M A) (k : A -> M B) (Q : A -> Prop) :
  preserves P m -> returns m Q -> (forall a, Q a -> preserves P (k a)) ->
  preserves P (bind m k).
Proof.
  intros Hm Hr Hk s Hs. unfold bind. specialize (Hm s Hs).
  specialize (Hr s).
  destruct (m s) as [[a|e] s']; simpl in *; [|exact Hm].
  apply Hk; [now apply Hr|exact Hm].
Qed.

Lemma preserves_catch {A} (m : M A) (h : string -> M A) :
  preserves P m -> (forall e, preserves P (h e)) -> preserves P (catch m h).
Proof.
  intros Hm Hh s Hs. unfold catch. specialize (Hm s Hs).
  destruct (m s) as [[a|e] s']; simpl in *; [exact Hm|now apply Hh].
Qed.

End MonadFacts.

(** ** Properties of the state that every directory operation keeps

    [P] is any property of the state that survives a warning, a write of
    the cache and every call except the upload of an empty batch. *)
Section Frames.
Import MetadataStore Directory.
Variable P : State -> Prop.
Hypothesis P_call : forall c,
  match c with CallUploadDirectory [] => False | _ => True end ->
  preserves P (call c).
Hypothesis P_warn : forall msg, preserves P (warn msg).
Hypothesis P_putCache : forall c, preserves P (putCache c).
Variable w : World.
Variable dc : DriveCore.

Local Abbreviation stable := (preserves P).

Create HintDb frames.

Lemma frame_getCache : stable getCache.
Proof. intros s Hs. exact Hs. Qed.

Lemma frame_now : stable now.
Proof. intros s Hs. exact Hs. Qed.

(** Closes a goal [stable m] by following the structure of [m]. *)
Ltac frame_step :=
  repeat (lazy beta zeta;
    first
    [ apply preserves_ret | apply preserves_throw | apply preserves_lift
    | apply P_warn | apply frame_getCache
    | apply frame_now | apply P_putCache
    | apply P_call; exact I
    | solve [auto with frames]
    | apply preserves_bind; [|intros ?]
    | apply preserves_catch; [|intros ?]
    | match goal with
      | |- preserves _ (if ?b then _ else _) => destruct b
      | |- preserves _ (match ?x with _ => _ end) => destruct x
      end ]).

Lemma frame_setItem (c : CacheItem) : stable (setItem w c).
Proof. unfold setItem. frame_step. Qed.
#[local] Hint Resolve frame_setItem : frames.

Lemma frame_parseCache (c : CacheItem) : stable (parseCache c).
Proof. unfold parseCache. frame_step. Qed.
#[local] Hint Resolve frame_parseCache : frames.

Lemma frame_saveFileMetadata (m : Metadata) :
  stable (saveFileMetadata w m).
Proof.
  unfold saveFileMetadata. frame_step.
Qed.
#[local] Hint Resolve frame_saveFileMetadata : frames.

Lemma frame_removeFromLocalCache (cid msg : string) :
  stable (removeFromLocalCache w cid msg).
Proof.
  unfold removeFromLocalCache.
  frame_step.
Qed.
#[local] Hint Resolve frame_removeFromLocalCache : frames.

Lemma frame_checkRelayAndAuth : stable (checkRelayAndAuth w dc).
Proof.
  unfold checkRelayAndAuth, checkRelayConnection, checkAuthentication.
  frame_step.
Qed.
#[local] Hint Resolve frame_checkRelayAndAuth : frames.

Lemma frame_uploadObjects (files : list File) (invalid : string) :
  files <> [] -> stable (uploadObjects w files invalid).
Proof.
  intros Hne. unfold uploadObjects.
  apply preserves_bind; [|intros ?; frame_step].
  apply P_call. destruct files; [contradiction|exact I].
Qed.
#[local] Hint Resolve frame_uploadObjects : frames.

Lemma frame_createEmptyDirectory (folderName : string) :
  stable (createEmptyDirectory w dc folderName).
Proof.
  unfold createEmptyDirectory.
  assert (stable (uploadObjects w [placeholderFile folderName]
                          "Directory creation failed - invalid response"))
    by (apply frame_uploadObjects; discriminate).
  frame_step.
Qed.
#[local] Hint Resolve frame_createEmptyDirectory : frames.

Lemma frame_prepareEntry (encrypt : bool) (file : File) :
  stable (prepareEntry w dc encrypt file).
Proof. unfold prepareEntry. frame_step. Qed.
#[local] Hint Resolve frame_prepareEntry : frames.

Lemma frame_prepareEntries (encrypt : bool) (files : list File) :
  stable (prepareEntries w dc encrypt files).
Proof.
  induction files as [|f files IH]; simpl; [apply preserves_ret|]. frame_step.
Qed.
#[local] Hint Resolve frame_prepareEntries : frames.

Lemma prepareEntry_run (encrypt : bool) (file : File) (s : State) :
  exists e s',
    prepareEntry w dc encrypt file s = (Ok e, s')
    /\ fe_path e = relativePathOf file
    /\ st_cache s' = st_cache s /\ st_now s' = st_now s
    /\ st_calls s' = st_calls s.
Proof.
  unfold prepareEntry, bind, ret, warn.
  destruct encrypt; [|simpl; eauto 10].
  destruct (Crypto.encryptFile w file _); simpl; eauto 10.
Qed.

Lemma prepareEntries_run (encrypt : bool) (files : list File) (s : State) :
  exists es s',
    prepareEntries w dc encrypt files s = (Ok es, s')
    /\ map fe_path es = map relativePathOf files
    /\ st_cache s' = st_cache s /\ st_now s' = st_now s
    /\ st_calls s' = st_calls s.
Proof.
  revert s. induction files as [|f files IH]; intros s; simpl.
  - exists [], s. repeat split; reflexivity.
  - destruct (prepareEntry_run encrypt f s) as (e & s1 & E1 & Hp & Hc & Hn & Hl).
    destruct (IH s1) as (es & s2 & E2 & Hps & Hc2 & Hn2 & Hl2).
    exists (e :: es), s2. unfold bind at 1. rewrite E1.
    unfold bind at 1. rewrite E2. unfold ret. simpl.
    repeat split; congruence.
Qed.

Lemma prepareEntries_length (encrypt : bool) (files : list File) :
  returns (prepareEntries w dc encrypt files)
          (fun es => length es = length files).
Proof.
  intros s es H.
  destruct (prepareEntries_run encrypt files s) as (es' & s' & E & Hp & _).
  rewrite E in H. simpl in H. injection H as <-.
  rewrite <- (length_map fe_path), Hp. apply length_map.
Qed.

Lemma frame_uploadDirectory (files : list File) (encrypt : bool)
      (folderName : string) :
  stable (uploadDirectory w dc files encrypt folderName).
Proof.
  unfold uploadDirectory.
  destruct (negb (truthy (authToken dc)) && negb (truthy (userAddress dc)));
    [apply preserves_throw|].
  destruct files as [|file0 rest]; [apply preserves_throw|].
  apply preserves_bind; [apply frame_checkRelayAndAuth|intros _].
  eapply preserves_bind_returns;
    [apply frame_prepareEntries|apply prepareEntries_length|].
  intros es Hlen. apply preserves_bind.
  - apply frame_uploadObjects. destruct es; [discriminate|discriminate].
  - intros cid. frame_step.
Qed.
#[local] Hint Resolve frame_uploadDirectory : frames.

Lemma frame_catFromDirectory (directoryCid filePath : string) :
  stable (catFromDirectory w dc directoryCid filePath).
Proof. unfold catFromDirectory. frame_step. Qed.
#[local] Hint Resolve frame_catFromDirectory : frames.

Lemma frame_fetchMembers (directoryCid : string) (metas : list FileMeta) :
  stable (fetchMembers w dc directoryCid metas).
Proof.
  induction metas as [|m metas IH]; simpl; [apply preserves_ret|].
  unfold fetchMember.
  frame_step.
Qed.
#[local] Hint Resolve frame_fetchMembers : frames.

Lemma frame_folderNameOf (directoryCid : string) :
  stable (folderNameOf directoryCid).
Proof.
  unfold folderNameOf. frame_step.
Qed.
#[local] Hint Resolve frame_folderNameOf : frames.

Lemma frame_cleanupOld (directoryCid : string) :
  stable (cleanupOld w directoryCid).
Proof.
  unfold cleanupOld.
  frame_step.
Qed.
#[local] Hint Resolve frame_cleanupOld : frames.


Lemma frame_addFilesToDirectory
      (directoryCid : string) (newFiles : list File) (members : list FileMeta) :
  stable (addFilesToDirectory w dc directoryCid newFiles members).
Proof.
  unfold addFilesToDirectory.
  frame_step.
Qed.

End Frames.

(** ** No zero-member upload *)
Section NoEmptyUploads.
Import Directory.

Lemma NoEmptyUpload_call (c : Call) :
  match c with CallUploadDirectory [] => False | _ => True end ->
  preserves NoEmptyUpload (call c).
Proof.
  intros Hc s Hs. unfold NoEmptyUpload, call in *. simpl.
  rewrite uploadsOf_app. apply Forall_app. split; [exact Hs|].
  destruct c; simpl; try constructor; [|constructor].
  destruct files; [contradiction|discriminate].
Qed.


End NoEmptyUploads.

(** ** Path normalisation *)
Section Paths.
Import Directory.

Lemma split_slash_segments (s : string) : Forall slashFree (split_slash s).
Proof.
  induction s as [|c r IH]; simpl.
  - constructor; [reflexivity|constructor].
  - destruct (Ascii.eqb c "/") eqn:E.
    + constructor; [reflexivity|exact IH].
    + destruct (split_slash r) as [|h t]; [constructor; [|constructor]|].
      * unfold slashFree. simpl. now rewrite E.
      * inversion IH as [|? ? Hh Ht]; subst. constructor; [|exact Ht].
        unfold slashFree in *. simpl. now rewrite E, Hh.
Qed.

Lemma last_Forall {A} (Q : A -> Prop) (l : list A) (d : A) :
  Forall Q l -> Q d -> Q (List.last l d).
Proof.
  induction l as [|x l IH]; intros Hl Hd; [exact Hd|].
  inversion Hl; subst. destruct l; [assumption|]. now apply IH.
Qed.

Lemma lastSegment_slashFree (s : string) : slashFree (lastSegment s).
Proof.
  unfold lastSegment. apply last_Forall; [apply split_slash_segments|reflexivity].
Qed.

Lemma normalizePath_idempotent (path : string) :
  normalizePath (normalizePath path) = normalizePath path.
Proof.
  pose proof (lastSegment_slashFree path) as H. unfold slashFree in H.
  unfold normalizePath.
  destruct (1 <? length (split_slash path))%nat eqn:E.
  - now rewrite H.
  - now rewrite E.
Qed.

Lemma filter_length_all {A} (f : A -> bool) (l : list A) :
  length (List.filter f l) = length l <-> (forall x, In x l -> f x = true).
Proof.
  induction l as [|a l IH]; simpl; [tauto|].
  pose proof (List.filter_length_le f l) as Hle.
  destruct (f a) eqn:E; simpl.
  - split.
    + intros H x [<-|Hx]; [exact E|]. apply IH; [lia|exact Hx].
    + intros H. f_equal. apply IH. auto.
  - split; [lia|]. intros H. specialize (H a (or_introl eq_refl)). congruence.
Qed.

Lemma orElse_same (a : string) : orElse a a = a.
Proof. unfold orElse. now destruct (truthy a). Qed.

End Paths.

(** ** Runs of the directory operations *)
Section DirectoryRuns.
Import MetadataStore Directory.
Variable w : World.
Variable dc : DriveCore.
Hypothesis Htoken : truthy (authToken dc) = true.




Lemma fetchedFiles_paths (directoryCid : string) (metas : list FileMeta) :
  map relativePathOf (fetchedFiles w directoryCid metas)
  = map relativePathOfMeta (List.filter (fetched w directoryCid) metas).
Proof.
  induction metas as [|m metas IH]; [reflexivity|]. simpl. unfold fetched.
  destruct (fetchedContent w directoryCid m); simpl; [|exact IH].
  rewrite IH. f_equal. unfold relativePathOf. simpl. apply orElse_same.
Qed.




Lemma saveFileMetadata_run (m : Metadata) (s : State) :
  exists s', saveFileMetadata w m s = (Ok tt, s') /\ sameUploads s s'.
Proof.
  unfold saveFileMetadata, sameUploads, catch, bind, call, lift, getCache, now,
    setItem, putCache, warn, throw.
  simpl.
  destruct (w_saveSystemHash w m) as [[|]|e]; simpl;
    try destruct (w_setItemOk w); simpl;
    eexists; (split; [reflexivity|]); simpl; rewrite uploadsOf_app; simpl;
    apply app_nil_r.
Qed.



Lemma cleanupOld_run (directoryCid : string) (s : State) :
  exists s', cleanupOld w directoryCid s = (Ok tt, s') /\ sameUploads s s'.
Proof.
  unfold cleanupOld, removeFromLocalCache, sameUploads, catch, bind, call, lift,
    getCache, parseCache, now, setItem, putCache, warn, throw, ret.
  simpl.
  destruct (w_pinRm w directoryCid) as [[]|e1]; simpl;
    destruct (w_removeSystemHash w directoryCid "drive-user") as [[]|e2]; simpl;
    destruct (st_cache s) as [| |data ts]; simpl;
    try destruct (data !! directoryCid); simpl;
    try destruct (w_setItemOk w); simpl;
    eexists; (split; [reflexivity|]); simpl;
    rewrite ?uploadsOf_app; simpl; rewrite ?app_nil_r; reflexivity.
Qed.

End DirectoryRuns.

(** ** DirectorySynthesizer: removal of a member *)
Section Removal.
Import MetadataStore Directory.


(** A member listed under the very path that is removed is matched. *)
Lemma listed_is_matched (p : string) (m : FileMeta) :
  fm_path m = p -> truthy p = true -> keeps p m = false.
Proof.
  intros <- T. unfold keeps, pathOrName, orElse. rewrite T.
  now rewrite String.eqb_refl.
Qed.




End Removal.

(** ** The reference world accepts every request *)
Section ReferenceWorld.
Import Reference.

Lemma orElse_truthy (a b : string) : truthy b = true -> truthy (orElse a b) = true.
Proof. intros H. unfold orElse. destruct (truthy a) eqn:E; [exact E|exact H]. Qed.

Lemma truthy_append (a b : string) : truthy a = true -> truthy (a +:+ b) = true.
Proof. destruct a; [discriminate|reflexivity]. Qed.

Lemma cidOf_truthy (files : list File) : truthy (cidOf files) = true.
Proof.
  unfold cidOf. generalize "Qm" (eq_refl : truthy "Qm" = true).
  induction files as [|f files IH]; intros acc H; simpl; [exact H|].
  apply IH. now apply truthy_append.
Qed.

Lemma reference_storageAccepts (store : string -> string -> Result string) :
  storageAccepts (world store).
Proof.
  intros files _. exists (cidOf files), EmptyString.
  split; [reflexivity|apply cidOf_truthy].
Qed.

Lemma reference_relayAccepts (store : string -> string -> Result string) :
  relayAccepts (world store) adminCore.
Proof. split; [reflexivity|]. right. split; [reflexivity|]. now exists []. Qed.

End ReferenceWorld.

(** ** The removal of the last member *)
Section RemovalClaims.
Import MetadataStore Directory.



End RemovalClaims.

(** ** TransferPipeline: the two strategies and the handler around them *)
Section TransferFacts.
Import Download.
Local Open Scope Z_scope.

Lemma reportFailure_ok {A} (m : M A) (s s' : State) (a : A) :
  m s = (Ok a, s') -> reportFailure m s = (Ok a, s').
Proof. intros E. unfold reportFailure, catch. now rewrite E. Qed.

Lemma reportFailure_resolves {A} (m : M A) (s s' : State) (a : A) :
  reportFailure m s = (Ok a, s') -> m s = (Ok a, s').
Proof.
  unfold reportFailure, catch. destruct (m s) as [[a'|e] s1]; [trivial|].
  unfold bind, warn, throw. discriminate.
Qed.

Lemma reportFailure_fst {A} (m : M A) (s : State) :
  fst (reportFailure m s) = fst (m s).
Proof.
  unfold reportFailure, catch. destruct (m s) as [[a|e] s']; reflexivity.
Qed.

Lemma reportFailure_calls {A} (m : M A) (s : State) :
  st_calls (snd (reportFailure m s)) = st_calls (snd (m s)).
Proof.
  unfold reportFailure, catch. destruct (m s) as [[a|e] s']; reflexivity.
Qed.

Lemma downloadFile_large (w : World) (dc : DriveCore) (hash : string)
      (metadata : DownloadMeta) (s : State) :
  canDecrypt dc metadata ->
  5 * 1024 * 1024 < dm_size metadata ->
  downloadFile w dc hash metadata s
  = reportFailure (downloadWithXHR w (downloadUrl w dc hash metadata)) s.
Proof.
  intros Hd Hlarge. unfold downloadFile, canDecrypt in *. rewrite Hd.
  unfold isLargeFile. now rewrite (proj2 (Z.ltb_lt _ _) Hlarge).
Qed.

Lemma downloadFile_small (w : World) (dc : DriveCore) (hash : string)
      (metadata : DownloadMeta) (s : State) :
  canDecrypt dc metadata ->
  dm_size metadata <= 5 * 1024 * 1024 ->
  downloadFile w dc hash metadata s
  = reportFailure
      (fetchWithRetries w dc (downloadUrl w dc hash metadata) metadata) s.
Proof.
  intros Hd Hsmall. unfold downloadFile, canDecrypt in *. rewrite Hd.
  unfold isLargeFile. now rewrite (proj2 (Z.ltb_ge _ _) Hsmall).
Qed.

Lemma readChunks_run (total : Z) (chunks : list string) (loaded : Z) (s : State) :
  exists n,
    readChunks (Some total) chunks loaded s
    = (Ok n, mkState (st_cache s) (st_now s)
                     (st_calls s ++ chunkProgress total chunks loaded)
                     (st_log s)).
Proof.
  revert loaded s. induction chunks as [|value rest IH]; intros loaded s.
  - exists loaded. cbn [readChunks chunkProgress]. rewrite app_nil_r.
    now destruct s.
  - cbn [readChunks chunkProgress]. unfold bind at 1, call at 1.
    match goal with |- context [readChunks _ rest ?l ?st] =>
      destruct (IH l st) as (n & E) end.
    exists n. rewrite E. cbn [st_cache st_now st_calls st_log].
    now rewrite <- app_assoc.
Qed.

Lemma reportProgress_run (events : list XhrEvent) (s : State) :
  reportProgress events s
  = (Ok tt, mkState (st_cache s) (st_now s)
                    (st_calls s ++ xhrProgress events) (st_log s)).
Proof.
  revert s. induction events as [|[[|] loaded total] rest IH]; intros s.
  - cbn [reportProgress xhrProgress]. rewrite app_nil_r. now destruct s.
  - cbn [reportProgress xhrProgress]. unfold bind at 1, call at 1.
    rewrite IH. cbn [st_cache st_now st_calls st_log].
    now rewrite <- app_assoc.
  - cbn [reportProgress xhrProgress]. unfold bind at 1, ret at 1.
    now rewrite IH.
Qed.

(** The one request of [downloadWithXHR] and what it ends with. *)
Lemma downloadWithXHR_run (w : World) (url : string) (s : State) :
  downloadWithXHR w url s
  = (match snd (w_xhr w url) with
     | XhrLoad status statusText response =>
         if (200 <=? status) && (status <? 300) then
           if (f_size response =? 0)%nat then Err "Downloaded file is empty"
           else Ok response
         else Err ("Download failed: " +:+ pretty status +:+ " " +:+ statusText)
     | XhrError => Err "Network error during download"
     | XhrTimeout => Err "Download timeout"
     end,
     mkState (st_cache s) (st_now s)
             (st_calls s ++ CallXhr url :: xhrProgress (fst (w_xhr w url)))
             (st_log s)).
Proof.
  unfold downloadWithXHR. unfold bind at 1, call at 1.
  destruct (w_xhr w url) as [events fin].
  unfold bind at 1. rewrite reportProgress_run.
  cbn [st_cache st_now st_calls st_log fst snd]. rewrite <- app_assoc.
  destruct fin as [status statusText response| |]; unfold throw, ret;
    repeat match goal with |- context [if ?b then _ else _] => destruct b end;
    reflexivity.
Qed.

Lemma readStream_exact (r : Response) (type : string) (s : State) :
  readStream r type s
  = (Ok (newBlob (r_body r) type),
     mkState (st_cache s) (st_now s) (st_calls s ++ bodyProgress r) (st_log s)).
Proof.
  unfold readStream, bodyProgress, bind, ret.
  destruct (r_contentLength r) as [total|].
  - destruct (readChunks_run total (r_chunks r) 0 s) as [n E]. now rewrite E.
  - assert (H : forall chunks n st, exists m,
                 readChunks None chunks n st = (Ok m, st)).
    { induction chunks as [|c cs IH]; intros n st; simpl; [eexists; reflexivity|].
      unfold bind, ret. simpl. apply IH. }
    destruct (H (r_chunks r) 0 s) as [m E]. rewrite E, app_nil_r.
    destruct s; reflexivity.
Qed.

Lemma length_zero (t : string) : (String.length t =? 0)%nat = true -> t = EmptyString.
Proof. destruct t; [reflexivity|discriminate]. Qed.

(** The decoding sends nothing but the progress reports of the stream
    reader, and only for a body that goes through it. *)
Lemma decodeResponse_calls (w : World) (dc : DriveCore) (metadata : DownloadMeta)
      (r : Response) (s : State) :
  st_calls (snd (decodeResponse w dc metadata r s))
  = st_calls s ++ (if readByStream metadata r then bodyProgress r else []).
Proof.
  unfold decodeResponse, readByStream.
  destruct (dm_isEncrypted metadata); cbn [negb orb].
  - destruct (truthy (r_contentType r) && negb (includes (r_contentType r) "text/plain")
              && negb (includes (r_contentType r) "application/json")).
    + now rewrite readStream_exact.
    + rewrite app_nil_r.
      destruct (startsWith (trim (r_text r)) "SEA{"); [|reflexivity].
      unfold bind, lift, ret, throw.
      destruct (Crypto.loadSEA w) as [SEA|e]; [|reflexivity].
      destruct (sea_decrypt SEA _ _) as [decrypted|e]; [|reflexivity].
      destruct (negb (truthy decrypted)); [reflexivity|].
      destruct (startsWith decrypted "data:"); [|reflexivity].
      destruct (w_fetchDataURL w decrypted); reflexivity.
  - now rewrite readStream_exact.
Qed.

End TransferFacts.

(** ** TransferPipeline: the retry loop *)
Section Retry.
Import Download.
Local Open Scope Z_scope.

Lemma retry_step (w : World) (url : string) (fuel attempt : nat)
      (response : option Response) (s : State) (e : string) :
  (attempt < 2)%nat ->
  failure (w_fetch w url attempt) = Some e ->
  exists response' log',
    retryLoop w url (S fuel) attempt response s
    = retryLoop w url fuel (S attempt) response'
        (mkState (st_cache s) (st_now s)
                 (st_calls s ++ [CallFetch url; Sleep (backoff attempt)]) log').
Proof.
  intros Hlt Hf. cbn [retryLoop]. unfold bind at 1, call at 1.
  cbn [st_cache st_now st_calls st_log].
  assert (Hlast : (attempt =? maxRetries - 1)%nat = false).
  { apply Nat.eqb_neq. unfold maxRetries. lia. }
  assert (Hless : (attempt <? maxRetries - 1)%nat = true).
  { apply Nat.ltb_lt. unfold maxRetries. lia. }
  rewrite Hlast, Hless. unfold failure in Hf.
  destruct (w_fetch w url attempt) as [message| |r].
  - cbn [andb]. destruct (isHttp2Error message);
      unfold bind, warn, call; cbn [st_cache st_now st_calls st_log];
      rewrite <- app_assoc; eauto.
  - unfold bind, call; cbn [st_cache st_now st_calls st_log].
    rewrite <- app_assoc. eauto.
  - destruct (r_ok r); [discriminate|]. cbn [andb].
    destruct (isHttp2Error _);
      unfold bind, warn, call; cbn [st_cache st_now st_calls st_log];
      rewrite <- app_assoc; eauto.
Qed.

Lemma retry_last (w : World) (url : string) (fuel : nat)
      (response : option Response) (s : State) (e : string) :
  failure (w_fetch w url 2) = Some e ->
  retryLoop w url (S fuel) 2 response s
  = (Err e, mkState (st_cache s) (st_now s) (st_calls s ++ [CallFetch url])
                    (st_log s)).
Proof.
  intros Hf. cbn [retryLoop]. unfold bind at 1, call at 1.
  cbn [st_cache st_now st_calls st_log].
  change ((2 =? maxRetries - 1)%nat) with true.
  change ((2 <? maxRetries - 1)%nat) with false. cbn [andb].
  unfold failure in Hf.
  destruct (w_fetch w url 2) as [message| |r].
  - injection Hf as <-. reflexivity.
  - injection Hf as <-. reflexivity.
  - destruct (r_ok r); [discriminate|]. injection Hf as <-. reflexivity.
Qed.

Lemma retry_exhausted (w : World) (url : string) (s : State)
      (e0 e1 e2 : string) :
  failure (w_fetch w url 0) = Some e0 ->
  failure (w_fetch w url 1) = Some e1 ->
  failure (w_fetch w url 2) = Some e2 ->
  exists log',
    retryLoop w url maxRetries 0 None s
    = (Err e2,
       mkState (st_cache s) (st_now s)
               (st_calls s ++ [CallFetch url; Sleep 1000; CallFetch url;
                               Sleep 2000; CallFetch url]) log').
Proof.
  intros H0 H1 H2. unfold maxRetries.
  destruct (retry_step w url 2 0 None s e0 ltac:(lia) H0) as (r1 & l1 & E1).
  rewrite E1.
  match goal with |- context [retryLoop w url 2 1 r1 ?st] =>
    destruct (retry_step w url 1 1 r1 st e1 ltac:(lia) H1) as (r2 & l2 & E2)
  end.
  rewrite E2. rewrite retry_last with (e := e2) by exact H2.
  cbn [st_cache st_now st_calls st_log]. exists l2.
  rewrite <- !app_assoc. reflexivity.
Qed.

(** C3, as stated, fails.  A server that answers 500 to a small download
    gets three requests: a completed response with a non-2xx status is
    retried like any other failure.  And a download declared larger than
    5 MB that meets a network error is attempted once. *)
Lemma C3_non_2xx_is_retried_counterexample :
  let url := downloadUrl serverError adminCore "QmA" (plain 1024) in
  st_calls (snd (downloadFile serverError adminCore "QmA" (plain 1024)
                   (emptyState CacheAbsent 2000)))
  = [CallFetch url; Sleep 1000; CallFetch url; Sleep 2000; CallFetch url]
  /\ failure (w_fetch serverError url 0)
     = Some "Download failed: 500 Internal Server Error"
  /\ isHttp2Error "Download failed: 500 Internal Server Error" = false
  /\ downloadFile serverError adminCore "QmA" (plain (6 * 1024 * 1024))
       (emptyState CacheAbsent 2000)
     = (Err "Network error during download",
        mkState CacheAbsent 2000
                [CallXhr (downloadUrl serverError adminCore "QmA"
                            (plain (6 * 1024 * 1024)))]
                ["Download error"]).
Proof. intros url. repeat split; vm_compute; reflexivity. Qed.

(** C3, amended.  A download whose declared size is at most 5 MB (the
    path with retries) and whose three attempts all fail, by a network
    error, by the timeout or by a response that is not [ok], makes exactly
    three requests, waits 1000 ms after the first and 2000 ms after the
    second, and then fails with the error of the third attempt.  Every
    kind of failure is retried, a non-2xx response included.  A download
    declared larger than 5 MB goes through [XMLHttpRequest] and is
    attempted once: it sends that one request, never waits and never
    fetches, and a network error, a timeout or a status outside 2xx of
    that request is the failure of the download. *)
Theorem C3_three_attempts_then_failure
        (w : World) (dc : DriveCore) (hash : string) (metadata : DownloadMeta)
        (s : State) :
  canDecrypt dc metadata ->
  let url := downloadUrl w dc hash metadata in
  let out := downloadFile w dc hash metadata s in
  (dm_size metadata <= 5 * 1024 * 1024 ->
   forall e0 e1 e2,
     failure (w_fetch w url 0) = Some e0 ->
     failure (w_fetch w url 1) = Some e1 ->
     failure (w_fetch w url 2) = Some e2 ->
     fst out = Err e2
     /\ st_calls (snd out)
        = st_calls s ++ [CallFetch url; Sleep (1000 * 1); CallFetch url;
                         Sleep (1000 * 2); CallFetch url])
  /\ (5 * 1024 * 1024 < dm_size metadata ->
      st_calls (snd out)
      = st_calls s ++ CallXhr url :: xhrProgress (fst (w_xhr w url))
      /\ (snd (w_xhr w url) = XhrError ->
          fst out = Err "Network error during download")
      /\ (snd (w_xhr w url) = XhrTimeout -> fst out = Err "Download timeout")
      /\ (forall status statusText response,
            snd (w_xhr w url) = XhrLoad status statusText response ->
            (200 <=? status) && (status <? 300) = false ->
            fst out
            = Err ("Download failed: " +:+ pretty status +:+ " " +:+ statusText))).
Proof.
  intros Hd url out. subst out. split.
  - intros Hsize e0 e1 e2 H0 H1 H2.
    rewrite (downloadFile_small w dc hash metadata s Hd Hsize).
    rewrite reportFailure_fst, reportFailure_calls. fold url.
    destruct (retry_exhausted w url s e0 e1 e2 H0 H1 H2) as (log' & E).
    unfold fetchWithRetries, bind. rewrite E. split; reflexivity.
  - intros Hlarge.
    rewrite (downloadFile_large w dc hash metadata s Hd Hlarge).
    rewrite reportFailure_fst, reportFailure_calls. fold url.
    rewrite downloadWithXHR_run. cbn [fst snd st_calls].
    split; [reflexivity|]. split; [|split].
    + intros E. now rewrite E.
    + intros E. now rewrite E.
    + intros status statusText response E Hs. now rewrite E, Hs.
Qed.

Lemma C3_three_attempts_then_failure_witness :
  let url := downloadUrl offlineWorld adminCore "QmA" (plain 1024) in
  fst (downloadFile offlineWorld adminCore "QmA" (plain 1024)
         (emptyState CacheAbsent 2000)) = Err "Failed to fetch"
  /\ st_calls (snd (downloadFile offlineWorld adminCore "QmA" (plain 1024)
                      (emptyState CacheAbsent 2000)))
     = [CallFetch url; Sleep (1000 * 1); CallFetch url; Sleep (1000 * 2);
        CallFetch url].
Proof.
  intros url.
  destruct (C3_three_attempts_then_failure offlineWorld adminCore "QmA"
              (plain 1024) (emptyState CacheAbsent 2000) eq_refl) as (H & _).
  apply (H ltac:(vm_compute; discriminate)
           "Failed to fetch" "Failed to fetch" "Failed to fetch");
    reflexivity.
Defined.

End Retry.

(** ** TransferPipeline: the choice of the strategy *)
Section Strategy.
Import Download.
Local Open Scope Z_scope.

Local Abbreviation keepsNoXhr := (preserves NoXhr).

Create HintDb noxhr.

Lemma NoXhr_call (c : Call) :
  match c with CallXhr _ => False | _ => True end -> keepsNoXhr (call c).
Proof.
  intros Hc s Hs. unfold NoXhr, call in *. simpl.
  apply Forall_app. split; [exact Hs|]. constructor; [exact Hc|constructor].
Qed.

Lemma NoXhr_warn (msg : string) : keepsNoXhr (warn msg).
Proof. intros s Hs. exact Hs. Qed.

Ltac keeps_noxhr :=
  repeat (lazy beta zeta;
    first
    [ apply preserves_ret | apply preserves_throw | apply preserves_lift
    | apply NoXhr_warn
    | apply NoXhr_call; exact I
    | solve [auto with noxhr]
    | apply preserves_bind; [|intros ?]
    | apply preserves_catch; [|intros ?]
    | match goal with
      | |- preserves _ (if ?b then _ else _) => destruct b
      | |- preserves _ (match ?x with _ => _ end) => destruct x
      end ]).

Lemma NoXhr_retryLoop (w : World) (url : string) (fuel attempt : nat)
      (response : option Response) :
  keepsNoXhr (retryLoop w url fuel attempt response).
Proof.
  revert attempt response.
  induction fuel as [|fuel IH]; intros attempt response; cbn [retryLoop];
    keeps_noxhr.
Qed.
#[local] Hint Resolve NoXhr_retryLoop : noxhr.

Lemma NoXhr_readChunks (contentLength : option Z) (chunks : list string)
      (totalLength : Z) :
  keepsNoXhr (readChunks contentLength chunks totalLength).
Proof.
  revert totalLength.
  induction chunks as [|value rest IH]; intros totalLength; cbn [readChunks];
    keeps_noxhr.
Qed.
#[local] Hint Resolve NoXhr_readChunks : noxhr.

Lemma NoXhr_decodeResponse (w : World) (dc : DriveCore) (metadata : DownloadMeta)
      (response : Response) :
  keepsNoXhr (decodeResponse w dc metadata response).
Proof. unfold decodeResponse, readStream. keeps_noxhr. Qed.
#[local] Hint Resolve NoXhr_decodeResponse : noxhr.

Lemma NoXhr_fetchWithRetries (w : World) (dc : DriveCore) (url : string)
      (metadata : DownloadMeta) :
  keepsNoXhr (fetchWithRetries w dc url metadata).
Proof. unfold fetchWithRetries. keeps_noxhr. Qed.

(** The first answer being [ok], the loop is left at once. *)
Lemma fetchWithRetries_first (w : World) (dc : DriveCore) (url : string)
      (metadata : DownloadMeta) (r : Response) (s : State) :
  w_fetch w url 0 = FetchResponse r -> r_ok r = true ->
  fetchWithRetries w dc url metadata s
  = bind (decodeResponse w dc metadata r)
         (fun blob => if (f_size blob =? 0)%nat
                      then throw "Downloaded file is empty" else ret blob)
         (mkState (st_cache s) (st_now s) (st_calls s ++ [CallFetch url])
                  (st_log s)).
Proof.
  intros Hr Hok. unfold fetchWithRetries, maxRetries. cbn [retryLoop].
  unfold bind at 1. unfold bind at 1, call at 1.
  cbn [st_cache st_now st_calls st_log]. rewrite Hr, Hok.
  unfold ret at 1. now rewrite Hok.
Qed.

(** C8, as stated, fails at the threshold: a download declared to be
    exactly 5 MB is fetched like a smaller one and sends no
    [XMLHttpRequest]; one byte more and it goes through [downloadWithXHR]. *)
Lemma C8_exactly_5MB_counterexample :
  let at5MB := plain (5 * 1024 * 1024) in
  let above := plain (5 * 1024 * 1024 + 1) in
  let s := emptyState CacheAbsent 2000 in
  let url := downloadUrl serving adminCore "QmA" at5MB in
  isLargeFile (dm_size at5MB) = false
  /\ st_calls (snd (downloadFile serving adminCore "QmA" at5MB s))
     = [CallFetch url; Progress 4 8; Progress 8 8]
  /\ st_calls (snd (downloadFile serving adminCore "QmA" (plain 1) s))
     = [CallFetch url; Progress 4 8; Progress 8 8]
  /\ st_calls (snd (downloadFile serving adminCore "QmA" above s))
     = [CallXhr url; Progress 4 8; Progress 8 8].
Proof. intros at5MB above s url. repeat split; vm_compute; reflexivity. Qed.

(** C8, amended.  The strategy follows the declared size, a missing size
    counting as 0.  Strictly above 5 MB the download is what
    [downloadWithXHR] makes of it: one [XMLHttpRequest] whose
    length-computable progress events are each reported as
    [{ loaded, total }].  At or below 5 MB, exactly 5 MB included, it is
    what the [fetch] loop with retries makes of it, and no
    [XMLHttpRequest] is sent.  There, when the first answer is [ok], how
    the body is read depends on the file and on the answer.  The body of a
    file that is not encrypted, and that of an encrypted file served with
    a [Content-Type] other than [text/plain] and [application/json], is
    read chunk by chunk: each chunk is reported as [{ loaded, total }]
    with the bytes accumulated so far when [Content-Length] is known, no
    report is made when it is not, and a body that is not empty is what
    the download resolves with.  The body of an encrypted file served as
    [text/plain], as [application/json] or without a [Content-Type] is
    read in one piece as text and nothing is reported; when the text is
    not an [SEA{] envelope and not empty, the download resolves with
    it. *)
Theorem C8_strategy_by_declared_size
        (w : World) (dc : DriveCore) (hash : string) (metadata : DownloadMeta)
        (s : State) :
  canDecrypt dc metadata ->
  let url := downloadUrl w dc hash metadata in
  let out := downloadFile w dc hash metadata s in
  (5 * 1024 * 1024 < dm_size metadata ->
   fst out = fst (downloadWithXHR w url s)
   /\ st_calls (snd out)
      = st_calls s ++ CallXhr url :: xhrProgress (fst (w_xhr w url)))
  /\ (dm_size metadata <= 5 * 1024 * 1024 ->
      fst out = fst (fetchWithRetries w dc url metadata s)
      /\ st_calls (snd out)
         = st_calls (snd (fetchWithRetries w dc url metadata s))
      /\ (NoXhr s -> NoXhr (snd out))
      /\ (forall r,
            w_fetch w url 0 = FetchResponse r ->
            r_ok r = true ->
            (readByStream metadata r = true ->
             st_calls (snd out)
             = st_calls s ++ CallFetch url :: bodyProgress r
             /\ (forall total,
                   r_contentLength r = Some total ->
                   bodyProgress r = chunkProgress total (r_chunks r) 0)
             /\ (r_contentLength r = None -> bodyProgress r = [])
             /\ (r_body r <> EmptyString ->
                 fst out = Ok (newBlob (r_body r) (streamType metadata r))))
            /\ (readByStream metadata r = false ->
                st_calls (snd out) = st_calls s ++ [CallFetch url]
                /\ (startsWith (trim (r_text r)) "SEA{" = false ->
                    r_text r <> EmptyString ->
                    fst out
                    = Ok (newBlob (r_text r)
                            (orElse (r_contentType r)
                               "application/octet-stream")))))).
Proof.
  intros Hd url out. subst out. split.
  - intros Hlarge.
    rewrite (downloadFile_large w dc hash metadata s Hd Hlarge).
    rewrite reportFailure_fst, reportFailure_calls. fold url.
    split; [reflexivity|]. now rewrite downloadWithXHR_run.
  - intros Hsmall.
    rewrite (downloadFile_small w dc hash metadata s Hd Hsmall).
    rewrite reportFailure_fst, reportFailure_calls. fold url.
    split; [reflexivity|]. split; [reflexivity|]. split.
    + intros Hs. unfold NoXhr in *. rewrite reportFailure_calls.
      now apply NoXhr_fetchWithRetries.
    + intros r Hr Hok.
      rewrite (fetchWithRetries_first w dc url metadata r s Hr Hok).
      pose proof (decodeResponse_calls w dc metadata r
                    (mkState (st_cache s) (st_now s)
                             (st_calls s ++ [CallFetch url]) (st_log s)))
        as Hcalls.
      cbn [st_calls] in Hcalls. split.
      * intros Hstream. rewrite Hstream in Hcalls.
        assert (Hdec : decodeResponse w dc metadata r
                         (mkState (st_cache s) (st_now s)
                                  (st_calls s ++ [CallFetch url]) (st_log s))
                       = readStream r (streamType metadata r)
                           (mkState (st_cache s) (st_now s)
                                    (st_calls s ++ [CallFetch url]) (st_log s))).
        { unfold decodeResponse, streamType, readByStream in *.
          destruct (dm_isEncrypted metadata); cbn [negb orb] in *;
            [now rewrite Hstream|reflexivity]. }
        unfold bind. rewrite Hdec, readStream_exact.
        cbn [st_cache st_now st_calls st_log].
        change (f_size (newBlob (r_body r) (streamType metadata r)))
          with (String.length (r_body r)).
        split; [|split; [|split]].
        -- destruct (String.length (r_body r) =? 0)%nat;
             cbn [snd st_calls]; now rewrite <- app_assoc.
        -- intros total Ht. unfold bodyProgress. now rewrite Ht.
        -- intros Hn. unfold bodyProgress. now rewrite Hn.
        -- intros Hne.
           destruct (String.length (r_body r) =? 0)%nat eqn:Z;
             [apply length_zero in Z; contradiction|reflexivity].
      * intros Htext. rewrite Htext, app_nil_r in Hcalls.
        split.
        -- unfold bind.
           destruct (decodeResponse w dc metadata r _) as [[blob|e] s1] eqn:D;
             cbn [snd] in Hcalls; [|exact Hcalls].
           destruct (f_size blob =? 0)%nat; exact Hcalls.
        -- intros Henv Hne.
           unfold decodeResponse, readByStream in *.
           destruct (dm_isEncrypted metadata); cbn [negb orb] in *;
             [|discriminate].
           unfold bind. rewrite Htext, Henv. unfold ret.
           change (f_size (newBlob (r_text r)
                             (orElse (r_contentType r)
                                "application/octet-stream")))
             with (String.length (r_text r)).
           destruct (String.length (r_text r) =? 0)%nat eqn:Z;
             [apply length_zero in Z; contradiction|reflexivity].
Qed.

Lemma C8_strategy_by_declared_size_witness :
  let s := emptyState CacheAbsent 2000 in
  let url := downloadUrl serving adminCore "QmA" (plain (5 * 1024 * 1024)) in
  fst (downloadFile serving adminCore "QmA" (plain (5 * 1024 * 1024)) s)
  = fst (fetchWithRetries serving adminCore url (plain (5 * 1024 * 1024)) s)
  /\ st_calls (snd (downloadFile serving adminCore "QmA"
                      (plain (5 * 1024 * 1024)) s))
     = st_calls (snd (fetchWithRetries serving adminCore url
                        (plain (5 * 1024 * 1024)) s)).
Proof.
  intros s url.
  destruct (C8_strategy_by_declared_size serving adminCore "QmA"
              (plain (5 * 1024 * 1024)) s eq_refl) as (_ & H).
  destruct H as (H1 & H2 & _); [vm_compute; discriminate|].
  split; [exact H1|exact H2].
Defined.

End Strategy.

(** ** NavigationState *)
Section NavigationFacts.
Import Directory Navigation.

Lemma setLastCid_length (path : list PathEntry) (cid : string) :
  length (setLastCid path cid) = length path.
Proof.
  unfold setLastCid. destruct (0 <? length path)%nat; [|reflexivity].
  apply length_alter.
Qed.

(** Only the last entry is written, whatever it refers to. *)
Lemma setLastCid_lookup (path : list PathEntry) (cid : string) (i : nat) :
  setLastCid path cid !! i
  = if decide (i = length path - 1)%nat
    then (fun e => mkPathEntry cid (pe_name e)) <$> path !! i
    else path !! i.
Proof.
  unfold setLastCid. destruct (0 <? length path)%nat eqn:E.
  - destruct (decide (i = length path - 1)%nat) as [->|Hne].
    + apply list_lookup_alter_eq.
    + apply list_lookup_alter_ne. congruence.
  - apply Nat.ltb_ge in E. destruct path; [|simpl in E; lia].
    now destruct (decide _).
Qed.

(** What the two handlers do to the navigation state when the rebuild of
    the current directory [A] gave a new address [B]. *)
Lemma repoint_current (nav : Nav) (A : string) (result : DirResult) :
  replaced result A = true ->
  currentDirectoryCid nav = Some A ->
  repointAfterDelete nav A result = repointAfterUpload nav A result
  /\ currentDirectoryCid (repointAfterUpload nav A result)
     = Some (dr_directoryCid result)
  /\ currentPath (repointAfterUpload nav A result)
     = setLastCid (currentPath nav) (dr_directoryCid result).
Proof.
  intros Hr Hc. unfold repointAfterDelete, repointAfterUpload.
  rewrite Hr, Hc, String.eqb_refl. repeat split.
Qed.

Lemma enteredThrice_reachable : Reachable enteredThrice.
Proof.
  change enteredThrice
    with (handleFolderClick CacheAbsent
            (handleFolderClick CacheAbsent
               (handleFolderClick CacheAbsent initialNav "QmA" "docs")
               "QmA" "docs") "QmA" "docs").
  repeat constructor.
Qed.

Lemma insideParent_reachable : Reachable insideParent.
Proof.
  change insideParent
    with (handleFolderClick CacheAbsent
            (handleFolderClick CacheAbsent initialNav "QmP" "photos")
            "QmA" "photos").
  repeat constructor.
Qed.

(** C6 on the code.  The current directory address does become the new
    one, but the breadcrumb is repointed by position, not by address: the
    handlers overwrite the last entry and nothing else.  In a state the
    handlers reach, an entry that references the old address [QmA] below
    the top keeps it after the rebuild to [QmB]; and when the top entry is
    the parent [QmP] of the current directory, it is the one overwritten
    with [QmB]. *)
Theorem C6_breadcrumb_repointed_by_position :
  Reachable enteredThrice
  /\ currentDirectoryCid enteredThrice = Some "QmA"
  /\ repointAfterUpload enteredThrice "QmA" (rebuilt "QmB")
     = mkNav [mkPathEntry "QmA" "docs"; mkPathEntry "QmB" "docs"] (Some "QmB")
  /\ repointAfterDelete enteredThrice "QmA" (rebuilt "QmB")
     = mkNav [mkPathEntry "QmA" "docs"; mkPathEntry "QmB" "docs"] (Some "QmB")
  /\ Reachable insideParent
  /\ currentDirectoryCid insideParent = Some "QmA"
  /\ repointAfterUpload insideParent "QmA" (rebuilt "QmB")
     = mkNav [mkPathEntry "QmB" "photos"] (Some "QmB")
  /\ repointAfterDelete insideParent "QmA" (rebuilt "QmB")
     = mkNav [mkPathEntry "QmB" "photos"] (Some "QmB").
Proof.
  split; [exact enteredThrice_reachable|].
  split; [reflexivity|]. split; [reflexivity|]. split; [reflexivity|].
  split; [exact insideParent_reachable|].
  repeat split; reflexivity.
Qed.

End NavigationFacts.

(** * Part III: what the operations send, store and resolve with *)


Section CryptoGatePolling.
Import Crypto.

Lemma checkSEA_first (w : World) (SEA : SEAlib) (k fuel tick : nat) :
  (tick <= k)%nat -> (k <= tick + fuel)%nat ->
  w_windowSEA w k = Some SEA ->
  (forall j, (tick <= j)%nat -> (j < k)%nat -> w_windowSEA w j = None) ->
  checkSEA w fuel tick = Ok SEA.
Proof.
  revert tick. induction fuel as [|fuel IH]; intros tick Hle Hk Hs Hn.
  - assert (k = tick) by lia. subst. simpl. now rewrite Hs.
  - destruct (Nat.eq_dec k tick) as [->|Hne].
    + simpl. now rewrite Hs.
    + simpl. rewrite (Hn tick) by lia.
      apply IH; [lia|lia|exact Hs|]. intros j H1 H2. apply Hn; lia.
Qed.

Lemma checkSEA_found (w : World) (SEA : SEAlib) (fuel tick : nat) :
  checkSEA w fuel tick = Ok SEA ->
  exists k, (tick <= k)%nat /\ (k <= tick + fuel)%nat
            /\ w_windowSEA w k = Some SEA
            /\ forall j, (tick <= j)%nat -> (j < k)%nat -> w_windowSEA w j = None.
Proof.
  revert tick. induction fuel as [|fuel IH]; intros tick; simpl.
  - destruct (w_windowSEA w tick) as [sea|] eqn:E; [|discriminate].
    intros H. injection H as ->. exists tick.
    split; [lia|]. split; [lia|]. split; [exact E|]. intros; lia.
  - destruct (w_windowSEA w tick) as [sea|] eqn:E.
    + intros H. injection H as ->. exists tick.
      split; [lia|]. split; [lia|]. split; [exact E|]. intros; lia.
    + intros H. destruct (IH _ H) as (k & H1 & H2 & H3 & H4).
      exists k. split; [lia|]. split; [lia|]. split; [exact H3|].
      intros j Hj1 Hj2. destruct (Nat.eq_dec j tick) as [->|Hne]; [exact E|].
      apply H4; lia.
Qed.

Lemma checkSEA_none (w : World) (fuel tick : nat) :
  (forall j, (tick <= j)%nat -> (j <= tick + fuel)%nat -> w_windowSEA w j = None) ->
  checkSEA w fuel tick
  = Err "SEA library not available. Make sure gun.js and sea.js are loaded in the HTML.".
Proof.
  revert tick. induction fuel as [|fuel IH]; intros tick Hn; simpl.
  - now rewrite (Hn tick) by lia.
  - rewrite (Hn tick) by lia. apply IH. intros j H1 H2. apply Hn; lia.
Qed.

(** X1. [loadSEA] resolves with [window.SEA] as it is at the first of the
    polls 0 to 10 (one every 100 ms) at which it is defined: it resolves
    with a library exactly when that library is what the page holds at such
    a poll, nothing being there at the earlier ones. *)
Theorem X1_loadSEA_resolves_with_first_poll (w : World) (SEA : SEAlib) :
  loadSEA w = Ok SEA <->
  exists k, (k <= maxAttempts)%nat
            /\ w_windowSEA w k = Some SEA
            /\ forall j, (j < k)%nat -> w_windowSEA w j = None.
Proof.
  unfold loadSEA. split.
  - destruct (w_windowSEA w 0) as [sea|] eqn:E.
    + intros H. injection H as ->. exists 0%nat.
      split; [unfold maxAttempts; lia|]. split; [exact E|intros; lia].
    + intros H. destruct (checkSEA_found _ _ _ _ H) as (k & _ & H2 & H3 & H4).
      exists k. split; [exact H2|]. split; [exact H3|].
      intros j Hj. apply H4; lia.
  - intros (k & Hk & Hs & Hn).
    destruct (w_windowSEA w 0) as [sea|] eqn:E.
    + destruct k; [congruence|]. rewrite (Hn 0%nat) in E by lia. discriminate.
    + apply (checkSEA_first w SEA k); [lia|exact Hk|exact Hs|].
      intros j _ Hj. now apply Hn.
Qed.

Lemma X1_loadSEA_resolves_with_first_poll_witness :
  loadSEA (lateSEA 3) = Ok Reference.sea.
Proof.
  apply (proj2 (X1_loadSEA_resolves_with_first_poll (lateSEA 3) Reference.sea)).
  exists 3%nat. split; [unfold maxAttempts; lia|]. split; [reflexivity|].
  intros j Hj. unfold lateSEA, withSEA. cbn [w_windowSEA].
  destruct (Nat.leb_spec 3 j) as [E|E]; [lia|reflexivity].
Defined.

(** X2. [loadSEA] gives up after the eleventh look: when [window.SEA] is
    undefined at the polls 0 to 10 it rejects, whatever the page holds
    later. *)
Theorem X2_loadSEA_gives_up_after_ten_retries (w : World) :
  (forall j, (j <= maxAttempts)%nat -> w_windowSEA w j = None) ->
  loadSEA w
  = Err "SEA library not available. Make sure gun.js and sea.js are loaded in the HTML.".
Proof.
  intros Hn. unfold loadSEA. rewrite (Hn 0%nat) by lia.
  apply checkSEA_none. intros j _ Hj. apply Hn. exact Hj.
Qed.

Lemma X2_loadSEA_gives_up_after_ten_retries_witness :
  loadSEA (lateSEA 11)
  = Err "SEA library not available. Make sure gun.js and sea.js are loaded in the HTML.".
Proof.
  apply (X2_loadSEA_gives_up_after_ten_retries (lateSEA 11)).
  intros j Hj. unfold lateSEA, withSEA. cbn [w_windowSEA].
  unfold maxAttempts in Hj.
  destruct (Nat.leb_spec 11 j) as [E|E]; [lia|reflexivity].
Defined.

End CryptoGatePolling.

Section MetadataStoreExtras.
Import MetadataStore Directory.

Ltac run_monad :=
  unfold bind, catch, ret, throw, lift, call, warn, getCache, now, putCache,
    setItem, parseCache in *; simpl in *.

Lemma removeFromLocalCache_cache (w : World) (cid msg : string) (s : State) :
  let s' := snd (removeFromLocalCache w cid msg s) in
  (forall other, other <> cid -> cached s' other = cached s other)
  /\ (w_setItemOk w = true -> cached s' cid = None)
  /\ (cached s cid = None -> st_cache s' = st_cache s)
  /\ (w_setItemOk w = true -> is_Some (cached s cid) ->
      st_cache s' = CacheDoc (delete cid (cacheData (st_cache s))) (st_now s))
  /\ st_calls s' = st_calls s.
Proof.
  unfold removeFromLocalCache, cached. run_monad.
  destruct (st_cache s) as [| |data ts] eqn:C; simpl; rewrite ?C; simpl.
  - repeat split; try reflexivity. intros _ [x Hx]. rewrite lookup_empty in Hx.
    discriminate.
  - repeat split; try reflexivity. intros _ [x Hx]. rewrite lookup_empty in Hx.
    discriminate.
  - destruct (data !! cid) as [md|] eqn:L; simpl.
    + destruct (w_setItemOk w) eqn:W; simpl; rewrite ?C; simpl.
      * split; [intros other Hne; now apply lookup_delete_ne|].
        split; [intros _; apply lookup_delete_eq|].
        split; [congruence|]. split; [reflexivity|reflexivity].
      * split; [reflexivity|]. split; [discriminate|].
        split; [reflexivity|]. split; [discriminate|reflexivity].
    + rewrite C. simpl. split; [reflexivity|]. split; [intros _; exact L|].
      split; [reflexivity|]. split; [|reflexivity].
      intros _ [x Hx]. congruence.
Qed.

Lemma deleteFile_steps (w : World) (dc : DriveCore) (cid : string)
      (metadata : Metadata) (s : State) :
  truthy (authToken dc) = true \/ truthy (walletSignature dc) = true ->
  exists s1,
    st_cache s1 = st_cache s /\ st_now s1 = st_now s
    /\ st_calls s1 = st_calls s ++ deleteRequests dc cid metadata
    /\ snd (deleteFile w dc cid metadata s)
       = snd (removeFromLocalCache w cid "Error removing from cache" s1).
Proof.
  intros Hcred. unfold deleteFile, deleteRequests.
  remember (removeFromLocalCache w cid "Error removing from cache") as step
    eqn:Hstep.
  assert (Hok : forall st, exists s2, step st = (Ok tt, s2)).
  { intros st. pose proof (removeFromLocalCache_ok w cid
                             "Error removing from cache" st) as H.
    rewrite <- Hstep in H. destruct (step st) as [[[]|e] s2]; simpl in H;
      [eauto|discriminate]. }
  destruct (truthy (authToken dc)) eqn:A; simpl.
  - unfold bind, catch, call, lift, warn, ret, throw. simpl.
    destruct (w_pinRm w cid) as [[]|e1]; simpl;
      destruct (w_removeSystemHash w cid _) as [[]|e2]; simpl;
      match goal with
      | |- context [step ?st] =>
          exists st; destruct (Hok st) as [s2 E2]; rewrite E2; simpl
      end; rewrite <- ?app_assoc; simpl; auto.
  - destruct Hcred as [H|H]; [discriminate|]. rewrite H. simpl.
    unfold bind, catch, call, lift, warn, ret, throw. simpl.
    destruct (truthy (userAddress dc)) eqn:U; simpl.
    + destruct (w_removeSystemHashFetch w cid _) as [[|]|e2]; simpl;
      match goal with
      | |- context [step ?st] =>
          exists st; destruct (Hok st) as [s2 E2]; rewrite E2; simpl
      end; auto.
    + exists s. destruct (Hok s) as [s2 E2]; rewrite E2; simpl.
      rewrite app_nil_r. auto.
Qed.

(** X3. With a credential set, [deleteFile] leaves every other record of
    the local cache as it was; when [localStorage] accepts writes the
    record of [cid] is gone afterwards, whatever the relay answered; and
    the cache is rewritten (with the current time as its timestamp) only
    when it listed [cid]: a cache that does not list it is not touched. *)
Theorem X3_deleteFile_forgets_only_the_record
        (w : World) (dc : DriveCore) (cid : string) (metadata : Metadata)
        (s : State) :
  truthy (authToken dc) = true \/ truthy (walletSignature dc) = true ->
  let s' := snd (deleteFile w dc cid metadata s) in
  (forall other, other <> cid -> cached s' other = cached s other)
  /\ (w_setItemOk w = true -> cached s' cid = None)
  /\ (cached s cid = None -> st_cache s' = st_cache s)
  /\ (w_setItemOk w = true -> is_Some (cached s cid) ->
      st_cache s' = CacheDoc (delete cid (cacheData (st_cache s))) (st_now s)).
Proof.
  intros Hcred s'.
  destruct (deleteFile_steps w dc cid metadata s Hcred)
    as (s1 & C1 & N1 & _ & E).
  subst s'. rewrite E.
  pose proof (removeFromLocalCache_cache w cid "Error removing from cache" s1)
    as (H1 & H2 & H3 & H4 & _).
  unfold cached in *. rewrite C1, N1 in *.
  split; [exact H1|]. split; [exact H2|]. split; [exact H3|exact H4].
Qed.

Lemma X3_deleteFile_forgets_only_the_record_witness :
  let s := emptyState twoRecords 2000 in
  let s' := snd (deleteFile (Reference.world noStore) walletCore "QmA"
                   emptyMetadata s) in
  cached s' "QmB" = cached s "QmB" /\ cached s' "QmA" = None.
Proof.
  intros s s'.
  destruct (X3_deleteFile_forgets_only_the_record (Reference.world noStore)
              walletCore "QmA" emptyMetadata s (or_intror eq_refl))
    as (H1 & H2 & _).
  split; [apply H1; discriminate|apply H2; reflexivity].
Defined.

(** X4. The requests of [deleteFile] depend on the session only, not on
    what the relay answers.  With an auth token it asks for the unpin and
    then for the removal of the remote record, also when the unpin failed.
    With a wallet signature and no auth token it never asks for an unpin:
    it sends the one removal request when the address is known, and no
    request at all when it is not. *)
Theorem X4_deleteFile_requests_follow_the_session
        (w : World) (dc : DriveCore) (cid : string) (metadata : Metadata)
        (s : State) :
  truthy (authToken dc) = true \/ truthy (walletSignature dc) = true ->
  let s' := snd (deleteFile w dc cid metadata s) in
  st_calls s' = st_calls s ++ deleteRequests dc cid metadata
  /\ (In (CallPinRm cid) (deleteRequests dc cid metadata)
      <-> truthy (authToken dc) = true)
  /\ (truthy (authToken dc) = false -> truthy (userAddress dc) = false ->
      st_calls s' = st_calls s).
Proof.
  intros Hcred s'.
  destruct (deleteFile_steps w dc cid metadata s Hcred)
    as (s1 & _ & _ & L1 & E).
  pose proof (removeFromLocalCache_cache w cid "Error removing from cache" s1)
    as (_ & _ & _ & _ & H5).
  assert (Hcalls : st_calls s' = st_calls s ++ deleteRequests dc cid metadata).
  { subst s'. rewrite E. simpl in H5. now rewrite H5. }
  split; [exact Hcalls|]. split.
  - unfold deleteRequests. destruct (truthy (authToken dc)); simpl.
    + split; auto.
    + destruct (truthy (walletSignature dc) && truthy (userAddress dc)); simpl;
        split; intros H; try discriminate;
        repeat (destruct H as [H|H]; try discriminate); contradiction.
  - intros A U. rewrite Hcalls. unfold deleteRequests. rewrite A, U.
    rewrite andb_false_r. apply app_nil_r.
Qed.

Lemma X4_deleteFile_requests_follow_the_session_witness :
  let s := emptyState twoRecords 2000 in
  st_calls (snd (deleteFile offlineWorld walletCore "QmA" emptyMetadata s))
  = [CallRemoveSystemHashFetch "QmA" "0xA11CE"].
Proof.
  intros s.
  exact (proj1 (X4_deleteFile_requests_follow_the_session offlineWorld walletCore
                  "QmA" emptyMetadata s (or_intror eq_refl))).
Defined.

(** X5. In a wallet session (an address, no auth token) [getFileList]
    asks the relay for its health and for the uploads of the user, and
    for nothing else: the pin list is not requested, the local cache is
    neither read nor written, no refresh of the metadata map is started,
    and the result is never the listing built from pins and metadata, so
    the per-user filter at the end of that listing is never reached. *)
Theorem X5_getFileList_wallet_session_reads_uploads_only
        (w : World) (dc : DriveCore) (s : State) :
  truthy (authToken dc) = false -> truthy (userAddress dc) = true ->
  let out := getFileList w dc s in
  st_cache (snd out) = st_cache s
  /\ st_calls (snd out) = st_calls s ++ [CallHealth]
  /\ (w_health w = true ->
      fst out = match w_getUserUploads w (userAddress dc) with
                | Ok ups => Ok (WalletListing ups)
                | Err e => Err ("Failed to fetch your uploads: " +:+ e)
                end)
  /\ (w_health w = false ->
      fst out = Err "Cannot connect to relay server. Please check the relay URL in settings.")
  /\ (forall pins systemHashMap,
        fst out <> Ok (AdminListing pins systemHashMap)).
Proof.
  intros A U out. subst out. unfold getFileList, checkRelayConnection.
  rewrite A, U. simpl. run_monad.
  destruct (w_health w); simpl.
  - destruct (w_getUserUploads w (userAddress dc)) as [ups|e]; simpl;
      repeat split; try discriminate; intros; discriminate.
  - repeat split; try discriminate; intros; discriminate.
Qed.

Lemma X5_getFileList_wallet_session_reads_uploads_only_witness :
  let out := getFileList (Reference.world noStore) walletCore
               (emptyState twoRecords 2000) in
  st_cache (snd out) = twoRecords /\ st_calls (snd out) = [CallHealth].
Proof.
  intros out.
  destruct (X5_getFileList_wallet_session_reads_uploads_only
              (Reference.world noStore) walletCore (emptyState twoRecords 2000)
              eq_refl eq_refl) as (H1 & H2 & _).
  split; [exact H1|exact H2].
Defined.

(** X6. [checkAuthentication] never rejects, and it answers [true]
    exactly when a wallet address is set or the relay lists the pins for
    the auth token.  With an address, or with neither address nor token,
    it decides without any request; it never touches the local cache. *)
Theorem X6_checkAuthentication_decides
        (w : World) (dc : DriveCore) (s : State) :
  exists ok s',
    checkAuthentication w dc s = (Ok ok, s')
    /\ st_cache s' = st_cache s
    /\ (ok = true <->
        truthy (userAddress dc) = true
        \/ (truthy (authToken dc) = true
            /\ exists pins, w_pinLs w = PinLsOk pins))
    /\ (truthy (userAddress dc) = true \/ truthy (authToken dc) = false ->
        s' = s).
Proof.
  unfold checkAuthentication.
  destruct (truthy (userAddress dc)) eqn:U; simpl.
  - exists true, s. unfold ret. repeat split; auto.
  - destruct (truthy (authToken dc)) eqn:A; simpl.
    + run_monad. destruct (w_pinLs w) as [pins| |msg] eqn:P; simpl;
        do 2 eexists; (split; [reflexivity|]); simpl;
        (split; [reflexivity|]); (split; [split|]);
        try (intros [H|[_ [pins' H]]]; discriminate);
        try (intros [H|H]; discriminate);
        try discriminate; eauto.
    + exists false, s. unfold ret. repeat split; auto; try discriminate.
      intros [H|[H _]]; discriminate.
Qed.

End MetadataStoreExtras.

Section DirectoryExact.
Import MetadataStore Directory.
Variable w : World.
Variable dc : DriveCore.

Lemma prepareEntry_exact (encrypt : bool) (file : File) (s : State) :
  prepareEntry w dc encrypt file s
  = (Ok (entryOf w dc encrypt file),
     mkState (st_cache s) (st_now s) (st_calls s)
             (st_log s ++ encryptionWarning w dc encrypt file)).
Proof.
  unfold prepareEntry, entryOf, encryptionWarning, secretOf, bind, ret, warn.
  destruct encrypt; simpl.
  - destruct (Crypto.encryptFile w file _); simpl; rewrite ?app_nil_r;
      destruct s; reflexivity.
  - rewrite app_nil_r. destruct s; reflexivity.
Qed.

Lemma prepareEntries_exact (encrypt : bool) (files : list File) (s : State) :
  prepareEntries w dc encrypt files s
  = (Ok (map (entryOf w dc encrypt) files),
     mkState (st_cache s) (st_now s) (st_calls s)
             (st_log s ++ flat_map (encryptionWarning w dc encrypt) files)).
Proof.
  revert s. induction files as [|f files IH]; intros s; simpl.
  - rewrite app_nil_r. destruct s; reflexivity.
  - unfold bind at 1. rewrite prepareEntry_exact.
    unfold bind at 1. rewrite IH. unfold ret. simpl.
    now rewrite <- app_assoc.
Qed.

Lemma saveFileMetadata_exact (m : Metadata) (s : State) :
  exists log',
    saveFileMetadata w m s
    = (Ok tt, mkState (savedCache w m (st_cache s) (st_now s)) (st_now s)
                      (st_calls s ++ [CallSaveSystemHash m]) log')
    /\ exists rest, log' = st_log s ++ rest.
Proof.
  unfold saveFileMetadata, savedCache, catch, bind, call, lift, getCache, now,
    setItem, putCache, warn, throw. simpl.
  destruct (w_saveSystemHash w m) as [[|]|e]; simpl;
    try destruct (w_setItemOk w); simpl;
    eexists; (split; [reflexivity|]); eexists;
    first [ symmetry; apply app_nil_r | reflexivity ].
Qed.

Lemma checkRelayAndAuth_exact (s : State) :
  relayAccepts w dc ->
  checkRelayAndAuth w dc s
  = (Ok tt, mkState (st_cache s) (st_now s) (st_calls s ++ probes dc) (st_log s)).
Proof.
  intros [Hh Ha].
  unfold checkRelayAndAuth, checkRelayConnection, checkAuthentication, probes,
    bind, call, ret, warn, throw.
  rewrite Hh. simpl.
  destruct (truthy (userAddress dc)) eqn:U; simpl; [reflexivity|].
  destruct Ha as [Ha|[Ht [pins Hp]]]; [discriminate|].
  rewrite Ht, Hp. simpl. now rewrite <- app_assoc.
Qed.

Lemma relayAccepts_credentials :
  relayAccepts w dc ->
  negb (truthy (authToken dc)) && negb (truthy (userAddress dc)) = false.
Proof.
  intros [_ [H|[H _]]]; rewrite H; simpl; [apply andb_false_r|reflexivity].
Qed.

Lemma uploadDirectory_exact (files : list File) (encrypt : bool)
      (folderName : string) (s : State) :
  relayAccepts w dc -> storageAccepts w -> files <> [] ->
  let es := map (entryOf w dc encrypt) files in
  let batch := map fileObject es in
  exists cid name log',
    let md := directoryRecord dc cid name files es (st_now s) in
    uploadDirectory w dc files encrypt folderName s
    = (Ok (mkDirResult true cid md),
       mkState (savedCache w md (st_cache s) (st_now s)) (st_now s)
               (st_calls s ++ probes dc
                ++ [CallUploadDirectory batch; CallSaveSystemHash md]) log')
    /\ truthy cid = true
    /\ (exists error, w_uploadDirectoryBrowser w batch
                      = UploadReplies true cid error)
    /\ (truthy folderName = true -> name = folderName)
    /\ exists rest,
         log' = st_log s ++ flat_map (encryptionWarning w dc encrypt) files
                ++ rest.
Proof.
  intros Hr Hs Hne es batch. unfold uploadDirectory.
  rewrite (relayAccepts_credentials Hr).
  destruct files as [|file0 rest]; [contradiction|].
  unfold bind at 1. rewrite (checkRelayAndAuth_exact s Hr).
  unfold bind at 1. rewrite prepareEntries_exact. fold es. fold batch.
  assert (Hb : batch <> []) by (subst batch es; discriminate).
  destruct (Hs batch Hb) as (cid & err & E & T).
  unfold uploadObjects, bind at 1, bind at 1, call at 1. rewrite E. simpl.
  rewrite T. simpl. unfold ret at 1, bind at 1, now at 1. simpl.
  unfold bind at 1.
  match goal with
  | |- context [saveFileMetadata w ?m ?st] =>
      destruct (saveFileMetadata_exact m st) as (log' & E4 & rest4 & L4);
      rewrite E4
  end.
  unfold ret. simpl. exists cid. eexists. exists log'.
  split; [rewrite <- !app_assoc; reflexivity|].
  split; [exact T|]. split; [eauto|].
  split; [intros Hn; unfold orElse; now rewrite Hn|].
  exists rest4. rewrite L4. simpl. now rewrite <- app_assoc.
Qed.


Lemma folderNameOf_exact (directoryCid : string) (s : State) :
  exists name log',
    folderNameOf directoryCid s
    = (Ok name, mkState (st_cache s) (st_now s) (st_calls s) log')
    /\ truthy name = true
    /\ exists rest, log' = st_log s ++ rest.
Proof.
  unfold folderNameOf, catch, bind, getCache, parseCache, ret, throw, warn.
  destruct s as [cache t calls log]. simpl.
  destruct cache as [| |data ts]; simpl;
    try destruct (data !! directoryCid) as [md|]; simpl;
    try destruct (truthy (md_displayName md)) eqn:D; simpl;
    try destruct (truthy (md_fileName md)) eqn:F; simpl;
    do 2 eexists; (split; [reflexivity|]);
    (split; [ first [ reflexivity
                    | unfold orElse; rewrite D; assumption
                    | unfold orElse; rewrite D; exact F ]|]);
    eexists; first [ symmetry; apply app_nil_r | reflexivity ].
Qed.

Lemma cleanupOld_exact (directoryCid : string) (s : State) :
  exists log',
    cleanupOld w directoryCid s
    = (Ok tt, mkState (forgottenCache w directoryCid (st_cache s) (st_now s))
                      (st_now s)
                      (st_calls s ++ [CallPinRm directoryCid;
                                      CallRemoveSystemHash directoryCid "drive-user"])
                      log')
    /\ exists rest, log' = st_log s ++ rest.
Proof.
  unfold cleanupOld, removeFromLocalCache, forgottenCache, catch, bind, call,
    lift, getCache, parseCache, now, setItem, putCache, warn, throw, ret.
  destruct s as [cache t calls log]. simpl.
  destruct (w_pinRm w directoryCid) as [[]|e1]; simpl;
    destruct (w_removeSystemHash w directoryCid "drive-user") as [[]|e2]; simpl;
    destruct cache as [| |data ts]; simpl;
    try destruct (data !! directoryCid); simpl;
    try destruct (w_setItemOk w); simpl;
    rewrite <- ?app_assoc; simpl;
    eexists; (split; [reflexivity|]); eexists;
    first [ symmetry; apply app_nil_r | reflexivity
          | rewrite <- ?app_assoc; reflexivity ].
Qed.

(** Without an auth token no member can be fetched. *)
Lemma fetchMember_without_token (directoryCid : string) (m : FileMeta)
      (s : State) :
  truthy (authToken dc) = false ->
  fetchMember w dc directoryCid m s
  = (Ok None, mkState (st_cache s) (st_now s) (st_calls s)
                      (st_log s ++ ["Failed to retrieve existing file"])).
Proof.
  intros A. unfold fetchMember, catFromDirectory. rewrite A. simpl.
  unfold catch, bind, throw, warn, ret. simpl. reflexivity.
Qed.

Lemma fetchMembers_without_token (directoryCid : string)
      (metas : list FileMeta) (s : State) :
  truthy (authToken dc) = false ->
  fetchMembers w dc directoryCid metas s
  = (Ok [], mkState (st_cache s) (st_now s) (st_calls s)
                    (st_log s ++ flat_map (fun _ => ["Failed to retrieve existing file"])
                                          metas)).
Proof.
  intros A. revert s. induction metas as [|m metas IH]; intros s; simpl.
  - rewrite app_nil_r. destruct s; reflexivity.
  - unfold bind at 1. rewrite (fetchMember_without_token _ _ _ A).
    unfold bind at 1. rewrite IH. unfold ret. simpl. now rewrite <- app_assoc.
Qed.

(** With an auth token every member is asked for once, in order. *)
Lemma fetchMember_exact (directoryCid : string) (m : FileMeta) (s : State) :
  truthy (authToken dc) = true ->
  fetchMember w dc directoryCid m s
  = (Ok (option_map (fun buffer => existingFile m (newBlob buffer EmptyString))
                    (fetchedContent w directoryCid m)),
     mkState (st_cache s) (st_now s)
             (st_calls s ++ [CallCat directoryCid (normalizePath (pathOrName m))])
             (st_log s ++ fetchLog w directoryCid m)).
Proof.
  intros A.
  unfold fetchMember, catFromDirectory, fetchedContent, fetchLog.
  rewrite A. simpl. rewrite normalizePath_idempotent.
  unfold catch, bind, call, warn, ret, throw. simpl.
  destruct (w_cat w directoryCid _) as [buffer|e]; simpl.
  - unfold f_size. simpl.
    destruct (String.length buffer =? 0)%nat; simpl; rewrite ?app_nil_r;
      reflexivity.
  - now rewrite <- app_assoc.
Qed.

Lemma fetchMembers_exact (directoryCid : string) (metas : list FileMeta)
      (s : State) :
  truthy (authToken dc) = true ->
  fetchMembers w dc directoryCid metas s
  = (Ok (fetchedFiles w directoryCid metas),
     mkState (st_cache s) (st_now s)
             (st_calls s
              ++ map (fun m => CallCat directoryCid (normalizePath (pathOrName m)))
                     metas)
             (st_log s ++ flat_map (fetchLog w directoryCid) metas)).
Proof.
  intros A. revert s. induction metas as [|m metas IH]; intros s; simpl.
  - rewrite !app_nil_r. destruct s; reflexivity.
  - unfold bind at 1. rewrite (fetchMember_exact _ _ _ A).
    unfold bind at 1. rewrite IH. unfold ret. simpl.
    rewrite <- !app_assoc. simpl.
    destruct (fetchedContent w directoryCid m); reflexivity.
Qed.

Lemma fetchMembers_carriedOver (directoryCid : string)
      (members : list FileMeta) (s : State) :
  exists log',
    fetchMembers w dc directoryCid members s
    = (Ok (carriedOver w dc directoryCid members),
       mkState (st_cache s) (st_now s)
               (st_calls s ++ memberRequests dc directoryCid members) log')
    /\ (truthy (authToken dc) = true ->
        log' = st_log s ++ flat_map (fetchLog w directoryCid) members)
    /\ (truthy (authToken dc) = false ->
        log' = st_log s
               ++ flat_map (fun _ => ["Failed to retrieve existing file"]) members).
Proof.
  unfold carriedOver, memberRequests.
  destruct (truthy (authToken dc)) eqn:A.
  - rewrite (fetchMembers_exact _ _ _ A). eexists. split; [reflexivity|].
    split; [reflexivity|discriminate].
  - rewrite (fetchMembers_without_token _ _ _ A). rewrite app_nil_r.
    eexists. split; [reflexivity|]. split; [discriminate|reflexivity].
Qed.

Lemma addFilesToDirectory_exact (directoryCid : string) (newFiles : list File)
      (members : list FileMeta) (s : State) :
  relayAccepts w dc -> storageAccepts w ->
  let allFiles :=
    carriedOver w dc directoryCid members ++ map withRelativePath newFiles in
  allFiles <> [] ->
  exists cid name log',
    let es := map (entryOf w dc true) allFiles in
    let md := directoryRecord dc cid name allFiles es (st_now s) in
    let saved := savedCache w md (st_cache s) (st_now s) in
    addFilesToDirectory w dc directoryCid newFiles members s
    = (Ok (mkDirResult true cid md),
       mkState (if String.eqb cid directoryCid then saved
                else forgottenCache w directoryCid saved (st_now s))
               (st_now s)
               (st_calls s ++ memberRequests dc directoryCid members
                ++ probes dc
                ++ [CallUploadDirectory (map fileObject es); CallSaveSystemHash md]
                ++ retirement directoryCid cid)
               log')
    /\ truthy cid = true
    /\ exists rest,
         log' = st_log s
                ++ (if truthy (authToken dc)
                    then flat_map (fetchLog w directoryCid) members
                    else flat_map (fun _ => ["Failed to retrieve existing file"])
                                  members)
                ++ rest.
Proof.
  intros Hr Hs allFiles Hne. unfold addFilesToDirectory.
  rewrite (relayAccepts_credentials Hr).
  destruct (fetchMembers_carriedOver directoryCid members s)
    as (log1 & E1 & L1t & L1f).
  unfold bind at 1. rewrite E1. fold allFiles.
  destruct allFiles as [|f0 fs] eqn:EA; [contradiction|].
  change ((length (f0 :: fs) =? 0)%nat) with false. cbv iota.
  unfold bind at 1.
  match goal with |- context [folderNameOf directoryCid ?st] =>
    destruct (folderNameOf_exact directoryCid st) as (name & log2 & E2 & T2 & r2 & L2);
    rewrite E2 end.
  unfold bind at 1. cbn [st_cache st_now st_calls st_log] in *.
  match goal with |- context [uploadDirectory w dc ?fl true name ?st] =>
    destruct (uploadDirectory_exact fl true name st Hr Hs ltac:(discriminate))
      as (cid & name' & log3 & E3 & T3 & _ & Hname & r3 & L3);
    rewrite E3 end.
  rewrite (Hname T2) in *. clear Hname name'.
  cbn [st_cache st_now st_calls st_log dr_success dr_directoryCid andb] in *.
  rewrite T3. cbn [andb]. unfold retirement.
  exists cid, name.
  destruct (String.eqb cid directoryCid) eqn:Q; cbn [negb].
  - exists log3. unfold bind at 1, ret. cbv beta iota.
    split; [rewrite <- ?app_assoc, ?app_nil_r; reflexivity|].
    split; [exact T3|].
    exists (r2 ++ flat_map (encryptionWarning w dc true) (f0 :: fs) ++ r3).
    rewrite L3, L2.
    destruct (truthy (authToken dc));
      [rewrite (L1t eq_refl)|rewrite (L1f eq_refl)];
      now rewrite <- !app_assoc.
  - unfold bind at 1.
    match goal with |- context [cleanupOld w directoryCid ?st] =>
      destruct (cleanupOld_exact directoryCid st) as (log4 & E4 & r4 & L4);
      rewrite E4 end.
    exists log4. unfold ret. cbv beta iota.
    cbn [st_cache st_now st_calls st_log].
    split; [rewrite <- ?app_assoc; reflexivity|].
    split; [exact T3|].
    exists (r2 ++ flat_map (encryptionWarning w dc true) (f0 :: fs) ++ r3 ++ r4).
    rewrite L4. cbn [st_log]. rewrite L3, L2.
    destruct (truthy (authToken dc));
      [rewrite (L1t eq_refl)|rewrite (L1f eq_refl)];
      now rewrite <- !app_assoc.
Qed.

End DirectoryExact.

(** ** What the directory operations send, record and retire *)
Section DirectorySynthesis.
Import MetadataStore Directory.

Lemma uploadsOf_probes (dc : DriveCore) : uploadsOf (probes dc) = [].
Proof. unfold probes. now destruct (truthy (userAddress dc)). Qed.

Lemma uploadsOf_memberRequests (dc : DriveCore) (dir : string)
      (members : list FileMeta) :
  uploadsOf (memberRequests dc dir members) = [].
Proof.
  unfold memberRequests. destruct (truthy (authToken dc)); [|reflexivity].
  induction members as [|m ms IH]; [reflexivity|exact IH].
Qed.

Lemma uploadsOf_retirement (dir cid : string) :
  uploadsOf (retirement dir cid) = [].
Proof. unfold retirement. now destruct (String.eqb cid dir). Qed.

Lemma removalsOf_app (l1 l2 : list Call) :
  removalsOf (l1 ++ l2) = removalsOf l1 ++ removalsOf l2.
Proof. apply List.filter_app. Qed.

Lemma removalsOf_probes (dc : DriveCore) : removalsOf (probes dc) = [].
Proof. unfold probes. now destruct (truthy (userAddress dc)). Qed.

Lemma removalsOf_memberRequests (dc : DriveCore) (dir : string)
      (members : list FileMeta) :
  removalsOf (memberRequests dc dir members) = [].
Proof.
  unfold memberRequests. destruct (truthy (authToken dc)); [|reflexivity].
  induction members as [|m ms IH]; [reflexivity|exact IH].
Qed.

Lemma removalsOf_retirement (dir cid : string) :
  removalsOf (retirement dir cid) = retirement dir cid.
Proof. unfold retirement. now destruct (String.eqb cid dir). Qed.

Lemma catsOf_app (l1 l2 : list Call) : catsOf (l1 ++ l2) = catsOf l1 ++ catsOf l2.
Proof.
  induction l1 as [|c l1 IH]; [reflexivity|].
  destruct c; simpl; rewrite ?IH; reflexivity.
Qed.

Lemma catsOf_probes (dc : DriveCore) : catsOf (probes dc) = [].
Proof. unfold probes. now destruct (truthy (userAddress dc)). Qed.

Lemma catsOf_retirement (dir cid : string) : catsOf (retirement dir cid) = [].
Proof. unfold retirement. now destruct (String.eqb cid dir). Qed.

Lemma entryOf_contentType (w : World) (dc : DriveCore) (encrypt : bool)
      (file : File) :
  truthy (fe_contentType (entryOf w dc encrypt file)) = true.
Proof.
  unfold entryOf. cbn [fe_contentType]. unfold orElse.
  destruct (truthy (f_type _)) eqn:T; [exact T|].
  destruct (truthy (f_type file)) eqn:T'; [exact T'|reflexivity].
Qed.

Lemma fileObject_type (w : World) (dc : DriveCore) (encrypt : bool)
      (file : File) :
  f_type (fileObject (entryOf w dc encrypt file))
  = fe_contentType (entryOf w dc encrypt file).
Proof.
  unfold fileObject. cbn [f_type]. unfold orElse at 1.
  now rewrite entryOf_contentType.
Qed.

Lemma encryptFile_type (w : World) (file : File) (token : string)
      (encrypted : File) :
  Crypto.encryptFile w file token = Ok encrypted ->
  f_type encrypted = "text/plain".
Proof.
  unfold Crypto.encryptFile. destruct (negb (truthy token)); [discriminate|].
  destruct (Crypto.loadSEA w) as [S'|]; simpl; [|discriminate].
  destruct (Crypto.fileToBase64 w file) as [u|]; simpl; [|discriminate].
  destruct (sea_encrypt S' u token); simpl; [|discriminate].
  intros H. injection H as <-. reflexivity.
Qed.

Lemma encryptFile_needs_secret (w : World) (file : File) (token : string) :
  truthy token = false ->
  Crypto.encryptFile w file token = Err "Auth token is required for encryption".
Proof. intros T. unfold Crypto.encryptFile. now rewrite T. Qed.

Lemma sent_member_by_member (w : World) (dc : DriveCore) (files : list File) :
  Forall2 (fun original sent =>
             match Crypto.encryptFile w original (secretOf dc) with
             | Ok encrypted =>
                 f_content sent = f_content encrypted
                 /\ f_type sent = "text/plain"
             | Err _ => f_content sent = f_content original
             end)
          files (map fileObject (map (entryOf w dc true) files)).
Proof.
  induction files as [|f fs IH]; simpl; constructor; [|exact IH].
  unfold entryOf.
  destruct (Crypto.encryptFile w f (secretOf dc)) as [enc|e] eqn:Q;
    cbn [fileObject f_content f_type fe_buffer fe_contentType fst].
  - split; [reflexivity|].
    rewrite (encryptFile_type _ _ _ _ Q). reflexivity.
  - reflexivity.
Qed.

(** X7. When the relay and the storage network accept the requests,
    [uploadDirectory] sends one batch with one member per file, in the
    order of the files and under their relative paths
    ([webkitRelativePath], or the name where there is none), and the
    record it resolves with describes that batch: its hash is the returned
    address, it is marked as a directory, it counts the files, and member
    by member it lists the relative path, the original file name, the
    size and the type of what was sent.  The total size it records is
    that of the files as they were given. *)
Theorem X7_uploadDirectory_records_what_it_sent
        (w : World) (dc : DriveCore) (files : list File) (encrypt : bool)
        (folderName : string) (s : State) :
  relayAccepts w dc -> storageAccepts w -> files <> [] ->
  exists result s' batch,
    uploadDirectory w dc files encrypt folderName s = (Ok result, s')
    /\ dr_success result = true
    /\ uploadsOf (st_calls s') = uploadsOf (st_calls s) ++ [batch]
    /\ md_hash (dr_metadata result) = dr_directoryCid result
    /\ md_isDirectory (dr_metadata result) = true
    /\ md_fileCount (dr_metadata result) = length batch
    /\ length batch = length files
    /\ md_fileSize (dr_metadata result) = list_sum (map f_size files)
    /\ map f_webkitRelativePath batch = map relativePathOf files
    /\ map fm_path (md_files (dr_metadata result)) = map relativePathOf files
    /\ map fm_name (md_files (dr_metadata result)) = map f_name files
    /\ map fm_size (md_files (dr_metadata result)) = map f_size batch
    /\ map fm_mimetype (md_files (dr_metadata result)) = map f_type batch.
Proof.
  intros Hr Hs Hne.
  destruct (uploadDirectory_exact w dc files encrypt folderName s Hr Hs Hne)
    as (cid & name & log' & E & T & _ & _ & _).
  cbv zeta in E. do 3 eexists. split; [exact E|].
  cbn [dr_success dr_metadata dr_directoryCid st_calls directoryRecord
       md_hash md_isDirectory md_fileCount md_fileSize md_files].
  split; [reflexivity|].
  split.
  { rewrite !uploadsOf_app, uploadsOf_probes. reflexivity. }
  split; [reflexivity|]. split; [reflexivity|].
  split; [now rewrite !length_map|]. split; [now rewrite !length_map|].
  split; [reflexivity|].
  rewrite !map_map.
  split; [reflexivity|]. split; [reflexivity|]. split; [reflexivity|].
  split; [reflexivity|].
  apply map_ext. intros f. cbn [entryMeta fm_mimetype].
  symmetry. apply fileObject_type.
Qed.

Lemma X7_uploadDirectory_records_what_it_sent_witness :
  exists result s' batch,
    uploadDirectory (Reference.world noStore) adminCore
      [helloFile] true "docs" (emptyState CacheAbsent 2000) = (Ok result, s')
    /\ dr_success result = true
    /\ map f_webkitRelativePath batch = ["notes.txt"]
    /\ map fm_path (md_files (dr_metadata result)) = ["notes.txt"]
    /\ map fm_size (md_files (dr_metadata result)) = map f_size batch.
Proof.
  destruct (X7_uploadDirectory_records_what_it_sent (Reference.world noStore)
              adminCore [helloFile] true "docs" (emptyState CacheAbsent 2000)
              (reference_relayAccepts noStore) (reference_storageAccepts noStore)
              ltac:(discriminate))
    as (result & s' & batch & E & H1 & _ & _ & _ & _ & _ & _ & H8 & H9 & _ & H11 & _).
  exists result, s', batch.
  split; [exact E|]. split; [exact H1|]. split; [exact H8|].
  split; [exact H9|exact H11].
Defined.

(** X8. With encryption requested, [uploadDirectory] decides member by
    member: a file that [encryptFile] encrypts goes out as its ciphertext,
    typed [text/plain]; a file whose encryption fails goes out as it is,
    after a warning, and the upload goes on.  The [isEncrypted] flag of
    each member of the record tells which of the two happened, and the
    record as a whole is flagged when at least one member is. *)
Theorem X8_uploadDirectory_encrypts_member_by_member
        (w : World) (dc : DriveCore) (files : list File)
        (folderName : string) (s : State) :
  relayAccepts w dc -> storageAccepts w -> files <> [] ->
  exists result s' batch,
    uploadDirectory w dc files true folderName s = (Ok result, s')
    /\ uploadsOf (st_calls s') = uploadsOf (st_calls s) ++ [batch]
    /\ Forall2 (fun original sent =>
                  match Crypto.encryptFile w original (secretOf dc) with
                  | Ok encrypted =>
                      f_content sent = f_content encrypted
                      /\ f_type sent = "text/plain"
                  | Err _ => f_content sent = f_content original
                  end) files batch
    /\ map fm_isEncrypted (md_files (dr_metadata result))
       = map (fun f => isOk (Crypto.encryptFile w f (secretOf dc))) files
    /\ md_isEncrypted (dr_metadata result)
       = existsb (fun f => isOk (Crypto.encryptFile w f (secretOf dc))) files
    /\ hasLogPrefix
         (st_log s
          ++ flat_map (fun f => if isOk (Crypto.encryptFile w f (secretOf dc))
                                then []
                                else ["Warning: Failed to encrypt"]) files) s'.
Proof.
  intros Hr Hs Hne.
  destruct (uploadDirectory_exact w dc files true folderName s Hr Hs Hne)
    as (cid & name & log' & E & T & _ & _ & rest & L).
  cbv zeta in E. do 3 eexists. split; [exact E|].
  cbn [dr_metadata st_calls st_log directoryRecord md_files md_isEncrypted].
  split.
  { rewrite !uploadsOf_app, uploadsOf_probes. reflexivity. }
  split; [apply sent_member_by_member|].
  split.
  { rewrite !map_map. apply map_ext. intros f. unfold entryOf.
    cbn [entryMeta fm_isEncrypted fe_isEncrypted].
    now destruct (Crypto.encryptFile w f (secretOf dc)). }
  split.
  { clear. induction files as [|f fs IH]; [reflexivity|]. simpl.
    rewrite IH. f_equal. unfold entryOf. cbn [fe_isEncrypted].
    now destruct (Crypto.encryptFile w f (secretOf dc)). }
  exists rest. unfold hasLogPrefix. cbn [st_log]. rewrite L, <- app_assoc.
  do 2 f_equal. clear. induction files as [|f fs IH]; [reflexivity|].
  simpl. rewrite IH. f_equal. unfold encryptionWarning. simpl.
  now destruct (Crypto.encryptFile w f (secretOf dc)).
Qed.

Lemma X8_uploadDirectory_encrypts_member_by_member_witness :
  exists result s' batch,
    uploadDirectory (Reference.world noStore) adminCore
      [helloFile] true "docs" (emptyState CacheAbsent 2000) = (Ok result, s')
    /\ uploadsOf (st_calls s') = [batch]
    /\ map fm_isEncrypted (md_files (dr_metadata result)) = [true]
    /\ md_isEncrypted (dr_metadata result) = true.
Proof.
  destruct (X8_uploadDirectory_encrypts_member_by_member (Reference.world noStore)
              adminCore [helloFile] "docs" (emptyState CacheAbsent 2000)
              (reference_relayAccepts noStore) (reference_storageAccepts noStore)
              ltac:(discriminate))
    as (result & s' & batch & E & H1 & _ & H3 & H4 & _).
  exists result, s', batch.
  split; [exact E|]. split; [exact H1|]. split; [exact H3|exact H4].
Defined.

(** X9. In a session with neither an encryption token nor an auth token
    (a wallet session), [uploadDirectory] with encryption requested still
    succeeds: every file is sent unencrypted, byte for byte, after one
    warning per file, and the record and all its members are flagged as
    not encrypted. *)
Theorem X9_uploadDirectory_without_secret_sends_plaintext
        (w : World) (dc : DriveCore) (files : list File)
        (folderName : string) (s : State) :
  truthy (secretOf dc) = false ->
  relayAccepts w dc -> storageAccepts w -> files <> [] ->
  exists result s' batch,
    uploadDirectory w dc files true folderName s = (Ok result, s')
    /\ dr_success result = true
    /\ uploadsOf (st_calls s') = uploadsOf (st_calls s) ++ [batch]
    /\ map f_content batch = map f_content files
    /\ md_isEncrypted (dr_metadata result) = false
    /\ Forall (fun m => fm_isEncrypted m = false) (md_files (dr_metadata result))
    /\ hasLogPrefix
         (st_log s ++ repeat "Warning: Failed to encrypt" (length files)) s'.
Proof.
  intros Hsec Hr Hs Hne.
  destruct (uploadDirectory_exact w dc files true folderName s Hr Hs Hne)
    as (cid & name & log' & E & T & _ & _ & rest & L).
  cbv zeta in E. do 3 eexists. split; [exact E|].
  cbn [dr_success dr_metadata st_calls st_log directoryRecord md_files
       md_isEncrypted].
  assert (Hentry : forall f, entryOf w dc true f = entryOf w dc false f).
  { intros f. unfold entryOf.
    now rewrite (encryptFile_needs_secret w f _ Hsec). }
  split; [reflexivity|].
  split.
  { rewrite !uploadsOf_app, uploadsOf_probes. reflexivity. }
  split.
  { rewrite !map_map. apply map_ext. intros f. now rewrite Hentry. }
  split.
  { clear - Hentry. induction files as [|f fs IH]; [reflexivity|].
    cbn [map existsb]. rewrite IH, Hentry. reflexivity. }
  split.
  { apply List.Forall_forall. intros m Hin. apply in_map_iff in Hin.
    destruct Hin as (e & <- & Hin). apply in_map_iff in Hin.
    destruct Hin as (f & <- & _). now rewrite Hentry. }
  exists rest. unfold hasLogPrefix. cbn [st_log]. rewrite L, <- app_assoc.
  do 2 f_equal. clear - Hsec. induction files as [|f fs IH]; [reflexivity|].
  simpl. rewrite IH. f_equal. unfold encryptionWarning.
  now rewrite (encryptFile_needs_secret w f _ Hsec).
Qed.

Lemma X9_uploadDirectory_without_secret_sends_plaintext_witness :
  exists result s' batch,
    uploadDirectory (Reference.world noStore) walletCore
      [helloFile] true "docs" (emptyState CacheAbsent 2000) = (Ok result, s')
    /\ uploadsOf (st_calls s') = [batch]
    /\ map f_content batch = ["hello"]
    /\ md_isEncrypted (dr_metadata result) = false.
Proof.
  destruct (X9_uploadDirectory_without_secret_sends_plaintext
              (Reference.world noStore) walletCore [helloFile] "docs"
              (emptyState CacheAbsent 2000) eq_refl
              (conj eq_refl (or_introl eq_refl))
              (reference_storageAccepts noStore) ltac:(discriminate))
    as (result & s' & batch & E & _ & H2 & H3 & H4 & _).
  exists result, s', batch.
  split; [exact E|]. split; [exact H2|]. split; [exact H3|exact H4].
Defined.

End DirectorySynthesis.

(** ** Adding files to a directory *)
Section DirectoryRebuild.
Import MetadataStore Directory.

Lemma relativePathOf_withRelativePath (f : File) :
  relativePathOf (withRelativePath f) = relativePathOf f.
Proof.
  unfold withRelativePath, relativePathOf, orElse.
  destruct (truthy (f_webkitRelativePath f)) eqn:T; cbn [f_webkitRelativePath f_name].
  - now rewrite T.
  - now destruct (truthy (f_name f)).
Qed.


Lemma catsOf_memberRequests (dc : DriveCore) (dir : string)
      (members : list FileMeta) :
  catsOf (memberRequests dc dir members)
  = if truthy (authToken dc)
    then map (fun m => normalizePath (pathOrName m)) members else [].
Proof.
  unfold memberRequests. destruct (truthy (authToken dc)); [|reflexivity].
  induction members as [|m ms IH]; [reflexivity|]. simpl. now rewrite IH.
Qed.

Lemma flat_map_const {A B} (x : B) (l : list A) :
  flat_map (fun _ => [x]) l = repeat x (length l).
Proof. induction l as [|a l IH]; [reflexivity|]. simpl. now rewrite IH. Qed.

Lemma paths_of_rebuild (w : World) (dc : DriveCore) (dir : string)
      (members : list FileMeta) (newFiles : list File) :
  map relativePathOf
      (carriedOver w dc dir members ++ map withRelativePath newFiles)
  = map relativePathOfMeta
        (if truthy (authToken dc) then List.filter (fetched w dir) members else [])
    ++ map relativePathOf newFiles.
Proof.
  rewrite map_app, map_map. f_equal.
  - unfold carriedOver. destruct (truthy (authToken dc)); [|reflexivity].
    apply fetchedFiles_paths.
  - apply map_ext. intros f. apply relativePathOf_withRelativePath.
Qed.

(** X10. With an auth token, [addFilesToDirectory] asks the storage
    network for every recorded member once, in order and by the last
    segment of its path, and uploads one batch: the members whose download
    gave at least one byte, under their recorded paths, followed by the
    new files under their relative paths.  The record of the new
    directory lists exactly these paths and counts them; a member that was
    not carried over has left a line in the log.  Every member of the
    batch goes through the encryption of [uploadDirectory]: a member
    carried over is encrypted as it was stored, so one that was stored
    encrypted is sent encrypted once more. *)
Theorem X10_addFilesToDirectory_appends_to_fetched_members
        (w : World) (dc : DriveCore) (dir : string) (newFiles : list File)
        (members : list FileMeta) (s : State) :
  truthy (authToken dc) = true ->
  relayAccepts w dc -> storageAccepts w ->
  List.filter (fetched w dir) members <> [] \/ newFiles <> [] ->
  exists result s' batch,
    addFilesToDirectory w dc dir newFiles members s = (Ok result, s')
    /\ dr_success result = true
    /\ truthy (dr_directoryCid result) = true
    /\ uploadsOf (st_calls s') = uploadsOf (st_calls s) ++ [batch]
    /\ catsOf (st_calls s')
       = catsOf (st_calls s) ++ map (fun m => normalizePath (pathOrName m)) members
    /\ map f_webkitRelativePath batch
       = map relativePathOfMeta (List.filter (fetched w dir) members)
         ++ map relativePathOf newFiles
    /\ map fm_path (md_files (dr_metadata result))
       = map relativePathOfMeta (List.filter (fetched w dir) members)
         ++ map relativePathOf newFiles
    /\ md_fileCount (dr_metadata result)
       = (length (List.filter (fetched w dir) members) + length newFiles)%nat
    /\ Forall2 (fun original sent =>
                  match Crypto.encryptFile w original (secretOf dc) with
                  | Ok encrypted =>
                      f_content sent = f_content encrypted
                      /\ f_type sent = "text/plain"
                  | Err _ => f_content sent = f_content original
                  end)
               (fetchedFiles w dir members ++ map withRelativePath newFiles)
               batch
    /\ hasLogPrefix (st_log s ++ flat_map (fetchLog w dir) members) s'.
Proof.
  intros A Hr Hs Hne.
  pose proof (paths_of_rebuild w dc dir members newFiles) as Hpaths.
  rewrite A in Hpaths.
  assert (Hall : carriedOver w dc dir members ++ map withRelativePath newFiles
                 <> []).
  { intros E. apply (f_equal (map relativePathOf)) in E. rewrite Hpaths in E.
    simpl in E. apply app_eq_nil in E. destruct E as [E1 E2].
    apply map_eq_nil in E1, E2. tauto. }
  destruct (addFilesToDirectory_exact w dc dir newFiles members s Hr Hs Hall)
    as (cid & name & log' & E & T & rest & L).
  cbv zeta in E. do 3 eexists. split; [exact E|].
  cbn [dr_success dr_metadata dr_directoryCid st_calls st_log directoryRecord
       md_files md_fileCount].
  split; [reflexivity|]. split; [exact T|].
  split.
  { rewrite !uploadsOf_app, uploadsOf_memberRequests, uploadsOf_probes,
      uploadsOf_retirement. reflexivity. }
  split.
  { rewrite !catsOf_app, catsOf_memberRequests, catsOf_probes, catsOf_retirement,
      A. simpl. now rewrite app_nil_r. }
  split; [rewrite !map_map; exact Hpaths|].
  split; [rewrite !map_map; exact Hpaths|].
  split.
  { rewrite <- (length_map relativePathOf), Hpaths, length_app, !length_map.
    reflexivity. }
  split.
  { pose proof (sent_member_by_member w dc
                  (carriedOver w dc dir members ++ map withRelativePath newFiles))
      as Hsent.
    unfold carriedOver in Hsent at 1. rewrite A in Hsent. exact Hsent. }
  rewrite A in L. exists rest. cbn [st_log]. rewrite L, <- app_assoc.
  reflexivity.
Qed.

Lemma X10_addFilesToDirectory_appends_to_fetched_members_witness :
  exists result s',
    addFilesToDirectory (Reference.world fullStore) adminCore "QmOld"
      [helloFile] twoFolders (emptyState CacheAbsent 2000) = (Ok result, s')
    /\ map fm_path (md_files (dr_metadata result))
       = ["docs/a.txt"; "img/a.txt"; "b.txt"; "notes.txt"]
    /\ catsOf (st_calls s') = ["a.txt"; "a.txt"; "b.txt"].
Proof.
  assert (Hne : List.filter (fetched (Reference.world fullStore) "QmOld")
                            twoFolders <> []
                \/ [helloFile] <> []) by (right; discriminate).
  destruct (X10_addFilesToDirectory_appends_to_fetched_members
              (Reference.world fullStore) adminCore "QmOld" [helloFile]
              twoFolders (emptyState CacheAbsent 2000) eq_refl
              (reference_relayAccepts fullStore)
              (reference_storageAccepts fullStore) Hne)
    as (result & s' & batch & E & _ & _ & _ & H4 & _ & H6 & _).
  exists result, s'.
  split; [exact E|]. rewrite H6, H4. split; vm_compute; reflexivity.
Defined.

(** X11. Without an auth token (a wallet session), [addFilesToDirectory]
    carries no member over: [catFromDirectory] refuses every download
    before any request is sent, each member leaves a warning, and the
    batch and the record of the new directory hold the new files only.
    When the new directory has another address, the old one is retired
    all the same: its unpin and the removal of its remote record are
    requested. *)
Theorem X11_addFilesToDirectory_without_token_keeps_no_member
        (w : World) (dc : DriveCore) (dir : string) (newFiles : list File)
        (members : list FileMeta) (s : State) :
  truthy (authToken dc) = false ->
  relayAccepts w dc -> storageAccepts w -> newFiles <> [] ->
  exists result s' batch,
    addFilesToDirectory w dc dir newFiles members s = (Ok result, s')
    /\ dr_success result = true
    /\ uploadsOf (st_calls s') = uploadsOf (st_calls s) ++ [batch]
    /\ catsOf (st_calls s') = catsOf (st_calls s)
    /\ map f_webkitRelativePath batch = map relativePathOf newFiles
    /\ map fm_path (md_files (dr_metadata result)) = map relativePathOf newFiles
    /\ md_fileCount (dr_metadata result) = length newFiles
    /\ (dr_directoryCid result <> dir ->
        removalsOf (st_calls s')
        = removalsOf (st_calls s)
          ++ [CallPinRm dir; CallRemoveSystemHash dir "drive-user"])
    /\ hasLogPrefix
         (st_log s ++ repeat "Failed to retrieve existing file" (length members))
         s'.
Proof.
  intros A Hr Hs Hne.
  pose proof (paths_of_rebuild w dc dir members newFiles) as Hpaths.
  rewrite A in Hpaths. simpl in Hpaths.
  assert (Hall : carriedOver w dc dir members ++ map withRelativePath newFiles
                 <> []).
  { intros E. apply (f_equal (map relativePathOf)) in E. rewrite Hpaths in E.
    simpl in E. apply map_eq_nil in E. contradiction. }
  destruct (addFilesToDirectory_exact w dc dir newFiles members s Hr Hs Hall)
    as (cid & name & log' & E & T & rest & L).
  cbv zeta in E. do 3 eexists. split; [exact E|].
  cbn [dr_success dr_metadata dr_directoryCid st_calls st_log directoryRecord
       md_files md_fileCount].
  split; [reflexivity|].
  split.
  { rewrite !uploadsOf_app, uploadsOf_memberRequests, uploadsOf_probes,
      uploadsOf_retirement. reflexivity. }
  split.
  { rewrite !catsOf_app, catsOf_memberRequests, catsOf_probes, catsOf_retirement,
      A. simpl. now rewrite !app_nil_r. }
  split; [rewrite !map_map; exact Hpaths|].
  split; [rewrite !map_map; exact Hpaths|].
  split.
  { rewrite <- (length_map relativePathOf), Hpaths, !length_map. reflexivity. }
  split.
  { intros Hcid. rewrite !removalsOf_app, removalsOf_memberRequests,
      removalsOf_probes, removalsOf_retirement. simpl. unfold retirement.
    apply String.eqb_neq in Hcid. now rewrite Hcid. }
  rewrite A, flat_map_const in L. exists rest. cbn [st_log].
  rewrite L, <- app_assoc. reflexivity.
Qed.

Lemma X11_addFilesToDirectory_without_token_keeps_no_member_witness :
  exists result s',
    addFilesToDirectory (Reference.world fullStore) walletCore "QmOld"
      [helloFile] twoFolders (emptyState CacheAbsent 2000) = (Ok result, s')
    /\ map fm_path (md_files (dr_metadata result)) = ["notes.txt"]
    /\ catsOf (st_calls s') = [].
Proof.
  destruct (X11_addFilesToDirectory_without_token_keeps_no_member
              (Reference.world fullStore) walletCore "QmOld" [helloFile]
              twoFolders (emptyState CacheAbsent 2000) eq_refl
              (conj eq_refl (or_introl eq_refl))
              (reference_storageAccepts fullStore) ltac:(discriminate))
    as (result & s' & batch & E & _ & _ & H3 & _ & H5 & _).
  exists result, s'.
  split; [exact E|]. rewrite H5, H3. split; vm_compute; reflexivity.
Defined.

Lemma cached_savedCache (w : World) (md : Metadata) (cache : CacheItem)
      (t : Z) (k : string) :
  w_saveSystemHash w md = Ok true -> w_setItemOk w = true ->
  cacheData (savedCache w md cache t) !! k
  = if String.eqb k (md_hash md) then Some md else cacheData cache !! k.
Proof.
  intros H1 H2. unfold savedCache. rewrite H1, H2. simpl.
  destruct (String.eqb k (md_hash md)) eqn:Q.
  - apply String.eqb_eq in Q. subst. apply lookup_insert_eq.
  - apply String.eqb_neq in Q. now apply lookup_insert_ne.
Qed.

Lemma cached_forgottenCache (w : World) (dir : string) (cache : CacheItem)
      (t : Z) (k : string) :
  w_setItemOk w = true ->
  cacheData (forgottenCache w dir cache t) !! k
  = if String.eqb k dir then None else cacheData cache !! k.
Proof.
  intros H2. unfold forgottenCache.
  destruct cache as [| |data ts]; simpl.
  - rewrite lookup_empty. now destruct (String.eqb k dir).
  - rewrite lookup_empty. now destruct (String.eqb k dir).
  - destruct (data !! dir) eqn:L; rewrite ?H2; simpl;
      destruct (String.eqb k dir) eqn:Q.
    + apply String.eqb_eq in Q. subst. apply lookup_delete_eq.
    + apply String.eqb_neq in Q. now apply lookup_delete_ne.
    + apply String.eqb_eq in Q. now subst.
    + reflexivity.
Qed.

(** X12. When the relay stores every record and [localStorage] accepts
    writes, a successful [addFilesToDirectory] leaves the local cache in
    step with the result: the record it resolves with is cached under the
    new address, the record of the directory it replaced is gone when the
    address changed, and every other record is as it was.  The unpin and
    the removal of the remote record of the old directory are requested
    exactly when the address changed. *)
Theorem X12_addFilesToDirectory_replaces_the_cached_record
        (w : World) (dc : DriveCore) (dir : string) (newFiles : list File)
        (members : list FileMeta) (s : State) :
  relayAccepts w dc -> storageAccepts w ->
  (forall m, w_saveSystemHash w m = Ok true) -> w_setItemOk w = true ->
  newFiles <> [] ->
  exists result s',
    addFilesToDirectory w dc dir newFiles members s = (Ok result, s')
    /\ cached s' (dr_directoryCid result) = Some (dr_metadata result)
    /\ (dr_directoryCid result <> dir -> cached s' dir = None)
    /\ (forall other, other <> dr_directoryCid result -> other <> dir ->
                      cached s' other = cached s other)
    /\ removalsOf (st_calls s')
       = removalsOf (st_calls s)
         ++ (if String.eqb (dr_directoryCid result) dir then []
             else [CallPinRm dir; CallRemoveSystemHash dir "drive-user"]).
Proof.
  intros Hr Hs Hsave Hset Hne.
  assert (Hall : carriedOver w dc dir members ++ map withRelativePath newFiles
                 <> []).
  { intros E. apply app_eq_nil in E. destruct E as [_ E].
    apply map_eq_nil in E. contradiction. }
  destruct (addFilesToDirectory_exact w dc dir newFiles members s Hr Hs Hall)
    as (cid & name & log' & E & T & _).
  cbv zeta in E. do 2 eexists. split; [exact E|].
  set (md := directoryRecord dc cid name _ _ _) in *.
  cbn [dr_metadata dr_directoryCid st_calls]. unfold cached. cbn [st_cache].
  assert (Hmd : md_hash md = cid) by reflexivity.
  split.
  { destruct (String.eqb cid dir) eqn:Q.
    - rewrite (cached_savedCache _ _ _ _ _ (Hsave md) Hset), Hmd.
      now rewrite String.eqb_refl.
    - rewrite (cached_forgottenCache _ _ _ _ _ Hset), Q.
      rewrite (cached_savedCache _ _ _ _ _ (Hsave md) Hset), Hmd.
      now rewrite String.eqb_refl. }
  split.
  { intros Hcid. apply String.eqb_neq in Hcid. rewrite Hcid.
    rewrite (cached_forgottenCache _ _ _ _ _ Hset).
    now rewrite String.eqb_refl. }
  split.
  { intros other H1 H2. apply String.eqb_neq in H1, H2.
    destruct (String.eqb cid dir) eqn:Q.
    - rewrite (cached_savedCache _ _ _ _ _ (Hsave md) Hset), Hmd. now rewrite H1.
    - rewrite (cached_forgottenCache _ _ _ _ _ Hset), H2.
      rewrite (cached_savedCache _ _ _ _ _ (Hsave md) Hset), Hmd. now rewrite H1. }
  rewrite !removalsOf_app, removalsOf_memberRequests, removalsOf_probes,
    removalsOf_retirement. reflexivity.
Qed.

Lemma X12_addFilesToDirectory_replaces_the_cached_record_witness :
  exists result s',
    addFilesToDirectory (Reference.world fullStore) adminCore "QmA"
      [helloFile] [] (emptyState twoRecords 2000) = (Ok result, s')
    /\ cached s' (dr_directoryCid result) = Some (dr_metadata result)
    /\ (dr_directoryCid result <> "QmA" -> cached s' "QmA" = None).
Proof.
  destruct (X12_addFilesToDirectory_replaces_the_cached_record
              (Reference.world fullStore) adminCore "QmA" [helloFile] []
              (emptyState twoRecords 2000)
              (reference_relayAccepts fullStore)
              (reference_storageAccepts fullStore)
              (fun _ => eq_refl) eq_refl ltac:(discriminate))
    as (result & s' & E & H1 & H2 & _).
  exists result, s'. split; [exact E|]. split; [exact H1|exact H2].
Defined.

End DirectoryRebuild.

(** ** The snapshot a removal produces *)
Section RemovalSnapshot.
Import MetadataStore Directory.









End RemovalSnapshot.

(** ** What a rebuild leaves alone *)
Section FailureFacts.

Variable P : State -> Prop.

Lemma onFailure_throw {A} (e : string) : onFailure P (@throw A e).
Proof. intros s Hs e' s' H. injection H as _ <-. exact Hs. Qed.

Lemma onFailure_preserves {A} (m : M A) : preserves P m -> onFailure P m.
Proof. intros Hm s Hs e s' H. specialize (Hm s Hs). now rewrite H in Hm. Qed.

Lemma onFailure_settles {A} (m : M A) : settles m -> onFailure P m.
Proof. intros Hm s _ e s' H. specialize (Hm s). now rewrite H in Hm. Qed.

Lemma onFailure_bind {A B} (m : M A) (k : A -> M B) :
  preserves P m -> (forall a, onFailure P (k a)) -> onFailure P (bind m k).
Proof.
  intros Hm Hk s Hs e s' H. unfold bind in H. specialize (Hm s Hs).
  destruct (m s) as [[a|e1] s1]; simpl in Hm.
  - exact (Hk a s1 Hm e s' H).
  - injection H as _ <-. exact Hm.
Qed.

Lemma onFailure_bind_settles {A B} (m : M A) (k : A -> M B) :
  onFailure P m -> (forall a, settles (k a)) -> onFailure P (bind m k).
Proof.
  intros Hm Hk s Hs e s' H. unfold bind in H.
  destruct (m s) as [[a|e1] s1] eqn:E.
  - specialize (Hk a s1). now rewrite H in Hk.
  - injection H as <- <-. exact (Hm s Hs e1 s1 E).
Qed.

End FailureFacts.

Section Settling.
Import MetadataStore Directory.

Lemma settles_ret {A} (a : A) : settles (ret a).
Proof. intros s. reflexivity. Qed.

Lemma settles_bind {A B} (m : M A) (k : A -> M B) :
  settles m -> (forall a, settles (k a)) -> settles (bind m k).
Proof.
  intros Hm Hk s. unfold bind. specialize (Hm s).
  destruct (m s) as [[a|e] s1]; simpl in Hm; [apply Hk|discriminate].
Qed.

Lemma settles_saveFileMetadata (w : World) (m : Metadata) :
  settles (saveFileMetadata w m).
Proof.
  intros s. destruct (saveFileMetadata_run w m s) as (s' & E & _).
  now rewrite E.
Qed.

Lemma settles_cleanupOld (w : World) (directoryCid : string) :
  settles (cleanupOld w directoryCid).
Proof.
  intros s. destruct (cleanupOld_run w directoryCid s) as (s' & E & _).
  now rewrite E.
Qed.

End Settling.

(** Operations that send neither a removal request nor a write of the
    cache keep every property [P] that the other requests and the
    warnings keep. *)
Section QuietFrames.
Import MetadataStore Directory.
Variable P : State -> Prop.
Variable quiet : Call -> bool.
Hypothesis quiet_probes :
  quiet CallHealth = true /\ quiet CallPinLs = true
  /\ (forall files, quiet (CallUploadDirectory files) = true)
  /\ (forall m, quiet (CallSaveSystemHash m) = true).
Hypothesis P_call : forall c, quiet c = true -> preserves P (call c).
Hypothesis P_warn : forall msg, preserves P (warn msg).
Hypothesis P_putCache : forall c, preserves P (putCache c).
Variable w : World.
Variable dc : DriveCore.

Create HintDb quiet.

Ltac quiet_step :=
  repeat (lazy beta zeta;
    first
    [ apply preserves_ret | apply preserves_throw | apply preserves_lift
    | apply P_warn | apply frame_getCache | apply frame_now | apply P_putCache
    | apply P_call; solve [ apply quiet_probes | reflexivity | assumption ]
    | solve [auto with quiet]
    | apply preserves_bind; [|intros ?]
    | apply preserves_catch; [|intros ?]
    | match goal with
      | |- preserves _ (if ?b then _ else _) => destruct b
      | |- preserves _ (match ?x with _ => _ end) => destruct x
      end ]).

Lemma quiet_parseCache (c : CacheItem) : preserves P (parseCache c).
Proof. unfold parseCache. quiet_step. Qed.
#[local] Hint Resolve quiet_parseCache : quiet.

Lemma quiet_checkRelayAndAuth : preserves P (checkRelayAndAuth w dc).
Proof.
  unfold checkRelayAndAuth, checkRelayConnection, checkAuthentication.
  quiet_step.
Qed.
#[local] Hint Resolve quiet_checkRelayAndAuth : quiet.

Lemma quiet_uploadObjects (files : list File) (invalid : string) :
  preserves P (uploadObjects w files invalid).
Proof. unfold uploadObjects. quiet_step. Qed.
#[local] Hint Resolve quiet_uploadObjects : quiet.

Lemma quiet_prepareEntries (encrypt : bool) (files : list File) :
  preserves P (prepareEntries w dc encrypt files).
Proof.
  induction files as [|f files IH]; simpl; [apply preserves_ret|].
  unfold prepareEntry. quiet_step.
Qed.
#[local] Hint Resolve quiet_prepareEntries : quiet.

Lemma quiet_folderNameOf (directoryCid : string) :
  preserves P (folderNameOf directoryCid).
Proof. unfold folderNameOf. quiet_step. Qed.
#[local] Hint Resolve quiet_folderNameOf : quiet.

Lemma quiet_fetchMembers (directoryCid : string) (metas : list FileMeta) :
  (forall path, quiet (CallCat directoryCid path) = true) ->
  preserves P (fetchMembers w dc directoryCid metas).
Proof.
  intros Hcat.
  induction metas as [|m metas IH]; simpl; [apply preserves_ret|].
  unfold fetchMember, catFromDirectory. quiet_step.
Qed.

(** A directory upload that rejects has not reached the write of the
    record. *)
Lemma onFailure_uploadDirectory (files : list File) (encrypt : bool)
      (folderName : string) :
  onFailure P (uploadDirectory w dc files encrypt folderName).
Proof.
  unfold uploadDirectory.
  destruct (negb (truthy (authToken dc)) && negb (truthy (userAddress dc)));
    [apply onFailure_throw|].
  destruct files as [|file0 rest]; [apply onFailure_throw|].
  apply onFailure_bind; [apply quiet_checkRelayAndAuth|intros _].
  apply onFailure_bind; [apply quiet_prepareEntries|intros es].
  apply onFailure_bind; [apply quiet_uploadObjects|intros cid].
  apply onFailure_settles.
  apply settles_bind; [intros s; reflexivity|intros t].
  apply settles_bind; [apply settles_saveFileMetadata|intros _].
  apply settles_ret.
Qed.

Lemma onFailure_createEmptyDirectory (folderName : string) :
  onFailure P (createEmptyDirectory w dc folderName).
Proof.
  unfold createEmptyDirectory.
  destruct (negb (truthy (authToken dc)) && negb (truthy (userAddress dc)));
    [apply onFailure_throw|].
  apply onFailure_bind; [apply quiet_checkRelayAndAuth|intros _].
  apply onFailure_bind; [apply quiet_uploadObjects|intros cid].
  apply onFailure_settles.
  apply settles_bind; [intros s; reflexivity|intros t].
  apply settles_bind; [apply settles_saveFileMetadata|intros _].
  apply settles_ret.
Qed.

Lemma settles_retire (result : DirResult) (directoryCid : string) :
  settles (bind (if dr_success result && truthy (dr_directoryCid result)
                    && negb (String.eqb (dr_directoryCid result) directoryCid)
                 then cleanupOld w directoryCid else ret tt)
                (fun _ => ret result)).
Proof.
  apply settles_bind; [|intros _; apply settles_ret].
  destruct (_ && _); [apply settles_cleanupOld|apply settles_ret].
Qed.

Lemma onFailure_addFilesToDirectory (directoryCid : string)
      (newFiles : list File) (members : list FileMeta) :
  (forall path, quiet (CallCat directoryCid path) = true) ->
  onFailure P (addFilesToDirectory w dc directoryCid newFiles members).
Proof.
  intros Hcat. unfold addFilesToDirectory.
  destruct (negb (truthy (authToken dc)) && negb (truthy (userAddress dc)));
    [apply onFailure_throw|].
  apply onFailure_bind; [now apply quiet_fetchMembers|intros existing].
  lazy zeta. destruct (length _ =? 0)%nat; [apply onFailure_throw|].
  apply onFailure_bind; [apply quiet_folderNameOf|intros folderName].
  apply onFailure_bind_settles; [apply onFailure_uploadDirectory|].
  intros result. apply settles_retire.
Qed.

Lemma onFailure_removeFileFromDirectory (directoryCid p : string)
      (members : list FileMeta) :
  (forall path, quiet (CallCat directoryCid path) = true) ->
  onFailure P (removeFileFromDirectory w dc directoryCid p members).
Proof.
  intros Hcat. unfold removeFileFromDirectory.
  destruct (negb (truthy (authToken dc))); [apply onFailure_throw|].
  lazy zeta. destruct (length _ =? length _)%nat; [apply onFailure_throw|].
  apply onFailure_bind; [now apply quiet_fetchMembers|intros allFiles].
  destruct (_ && _); [apply onFailure_throw|].
  apply onFailure_bind; [apply quiet_folderNameOf|intros folderName].
  destruct (length allFiles =? 0)%nat;
    [apply onFailure_createEmptyDirectory|].
  apply onFailure_bind_settles; [apply onFailure_uploadDirectory|].
  intros result. apply settles_retire.
Qed.

Lemma quiet_saveFileMetadata (m : Metadata) :
  preserves P (saveFileMetadata w m).
Proof. unfold saveFileMetadata, setItem. quiet_step. Qed.
#[local] Hint Resolve quiet_saveFileMetadata : quiet.

Lemma quiet_createEmptyDirectory (folderName : string) :
  preserves P (createEmptyDirectory w dc folderName).
Proof. unfold createEmptyDirectory. quiet_step. Qed.

End QuietFrames.

Section RebuildSafety.
Import MetadataStore Directory.

Lemma removalsOf_snoc (calls : list Call) (c : Call) :
  removalsOf (calls ++ [c])
  = removalsOf calls ++ (if isRemoval c then [c] else []).
Proof. rewrite removalsOf_app. simpl. now destruct (isRemoval c). Qed.

Lemma catsOf_snoc (calls : list Call) (c : Call) :
  isProbeOrUpload c = true -> catsOf (calls ++ [c]) = catsOf calls.
Proof.
  intros H. rewrite catsOf_app.
  destruct c; simpl in *; try discriminate; apply app_nil_r.
Qed.

Lemma Unretired_call (cache : CacheItem) (removals : list Call) (c : Call) :
  negb (isRemoval c) = true -> preserves (Unretired cache removals) (call c).
Proof.
  intros Hc s [H1 H2]. unfold Unretired, call. simpl.
  split; [exact H1|]. rewrite removalsOf_snoc.
  apply negb_true_iff in Hc. rewrite Hc. now rewrite app_nil_r.
Qed.

Lemma NoRequestBut_call (removals : list Call) (cats : list string) (c : Call) :
  isProbeOrUpload c = true -> preserves (NoRequestBut removals cats) (call c).
Proof.
  intros Hc s [H1 H2]. unfold NoRequestBut, call. simpl.
  split.
  - rewrite removalsOf_snoc.
    assert (isRemoval c = false) as -> by (destruct c; simpl in *; congruence).
    now rewrite app_nil_r.
  - now rewrite catsOf_snoc.
Qed.

(** X13. A rebuild that fails retires nothing.  Whenever
    [removeFileFromDirectory] or [addFilesToDirectory] rejects, for
    whatever reason and whatever the relay and the storage network
    answered, the local cache is as it was before the call and no unpin
    and no removal of a remote record has been requested: the directory
    that was to be replaced is still recorded and still pinned. *)
Theorem X13_failed_rebuild_retires_nothing
        (w : World) (dc : DriveCore) (dir p : string) (newFiles : list File)
        (members : list FileMeta) (s s' : State) (e : string) :
  removeFileFromDirectory w dc dir p members s = (Err e, s')
  \/ addFilesToDirectory w dc dir newFiles members s = (Err e, s') ->
  st_cache s' = st_cache s
  /\ removalsOf (st_calls s') = removalsOf (st_calls s).
Proof.
  set (P := Unretired (st_cache s) (removalsOf (st_calls s))).
  assert (HP : P s) by (split; reflexivity).
  assert (Hq : (fun c => negb (isRemoval c)) CallHealth = true
               /\ (fun c => negb (isRemoval c)) CallPinLs = true
               /\ (forall files,
                     (fun c => negb (isRemoval c)) (CallUploadDirectory files)
                     = true)
               /\ (forall m,
                     (fun c => negb (isRemoval c)) (CallSaveSystemHash m) = true))
    by (repeat split).
  assert (Hw : forall msg, preserves P (warn msg))
    by (intros msg st Hst; exact Hst).
  intros [H|H].
  - exact (onFailure_removeFileFromDirectory P (fun c => negb (isRemoval c)) Hq
             (Unretired_call _ _) Hw w dc dir p members (fun _ => eq_refl)
             s HP e s' H).
  - exact (onFailure_addFilesToDirectory P (fun c => negb (isRemoval c)) Hq
             (Unretired_call _ _) Hw w dc dir newFiles members
             (fun _ => eq_refl) s HP e s' H).
Qed.

Lemma X13_failed_rebuild_retires_nothing_witness :
  let s := emptyState twoRecords 2000 in
  let out := removeFileFromDirectory offlineWorld adminCore "QmA" "b.txt"
               twoFolders s in
  st_cache (snd out) = twoRecords /\ removalsOf (st_calls (snd out)) = [].
Proof.
  intros s out.
  apply (X13_failed_rebuild_retires_nothing offlineWorld adminCore "QmA" "b.txt" []
           twoFolders s (snd out)
           "Failed to retrieve remaining files from directory").
  left. vm_compute. reflexivity.
Defined.

Lemma removal_of_every_member (w : World) (dc : DriveCore) (dir p : string)
      (members : list FileMeta) (s : State) :
  truthy (authToken dc) = true -> members <> [] ->
  (forall m, In m members -> lastSegment (pathOrName m) = lastSegment p) ->
  removeFileFromDirectory w dc dir p members s
  = bind (folderNameOf dir) (createEmptyDirectory w dc) s.
Proof.
  intros A Hne Hall. unfold removeFileFromDirectory. rewrite A. simpl.
  assert (Hf : List.filter (keeps p) members = []).
  { clear Hne. induction members as [|m ms IH]; [reflexivity|]. simpl.
    assert (Hk : keeps p m = false).
    { unfold keeps. rewrite (Hall m (or_introl eq_refl)).
      now rewrite String.eqb_refl. }
    rewrite Hk. apply IH. intros m' Hin. apply Hall. now right. }
  rewrite Hf. destruct members as [|m0 ms]; [contradiction|]. simpl.
  unfold bind at 1, ret at 1. simpl. reflexivity.
Qed.

Lemma createEmptyDirectory_resolves (w : World) (dc : DriveCore)
      (folderName : string) (s s' : State) (result : DirResult) :
  createEmptyDirectory w dc folderName s = (Ok result, s') ->
  md_files (dr_metadata result) = []
  /\ md_hash (dr_metadata result) = dr_directoryCid result
  /\ st_cache s'
     = savedCache w (dr_metadata result) (st_cache s) (st_now s).
Proof.
  unfold createEmptyDirectory, checkRelayAndAuth, checkRelayConnection,
    checkAuthentication, uploadObjects.
  destruct (negb (truthy (authToken dc)) && negb (truthy (userAddress dc)));
    [discriminate|].
  unfold bind, call, ret, warn, throw, now. simpl.
  destruct (w_health w); simpl; [|discriminate].
  assert (Hsave : forall calls log cid (t := st_now s),
             let md := directoryRecord dc cid folderName [] [] t in
             (let (r, s1) := saveFileMetadata w md
                               (mkState (st_cache s) t calls log) in
              match r with
              | Ok _ => (Ok (mkDirResult true cid md), s1)
              | Err e => (Err e, s1)
              end) = (Ok result, s') ->
             md_files (dr_metadata result) = []
             /\ md_hash (dr_metadata result) = dr_directoryCid result
             /\ st_cache s' = savedCache w (dr_metadata result) (st_cache s) t).
  { intros calls log cid t md.
    destruct (saveFileMetadata_exact w md (mkState (st_cache s) t calls log))
      as (log' & E & _).
    rewrite E. intros H. injection H as <- <-. simpl. auto. }
  destruct (truthy (userAddress dc)); simpl.
  - destruct (w_uploadDirectoryBrowser w _) as [msg|success cid err]; simpl;
      [discriminate|].
    destruct (negb success || negb (truthy cid)); simpl; [discriminate|].
    apply Hsave.
  - destruct (negb (truthy (authToken dc))); simpl; [discriminate|].
    destruct (w_pinLs w); simpl; try discriminate.
    destruct (w_uploadDirectoryBrowser w _) as [msg|success cid err]; simpl;
      [discriminate|].
    destruct (negb success || negb (truthy cid)); simpl; [discriminate|].
    apply Hsave.
Qed.

Lemma cached_savedCache_other (w : World) (md : Metadata) (cache : CacheItem)
      (t : Z) (k : string) :
  k <> md_hash md ->
  cacheData (savedCache w md cache t) !! k = cacheData cache !! k.
Proof.
  intros Hk. unfold savedCache.
  destruct (w_saveSystemHash w md) as [[|]|e]; try reflexivity.
  destruct (w_setItemOk w); [|reflexivity]. simpl. now apply lookup_insert_ne.
Qed.

(** X14. Removing every member of a directory retires nothing, whatever
    the relay and the storage network answer.  With an auth token, when
    all recorded members have the file name that is removed, no member is
    downloaded, the placeholder directory is created, and no unpin and no
    removal of a remote record is requested.  When the call resolves, the
    record of the new directory lists no member and, the address having
    changed, the record of the old directory is still in the local
    cache. *)
Theorem X14_removing_every_member_retires_nothing
        (w : World) (dc : DriveCore) (dir p : string)
        (members : list FileMeta) (s : State) :
  truthy (authToken dc) = true -> members <> [] ->
  (forall m, In m members -> lastSegment (pathOrName m) = lastSegment p) ->
  let out := removeFileFromDirectory w dc dir p members s in
  removalsOf (st_calls (snd out)) = removalsOf (st_calls s)
  /\ catsOf (st_calls (snd out)) = catsOf (st_calls s)
  /\ (forall result, fst out = Ok result ->
        md_files (dr_metadata result) = []
        /\ (dr_directoryCid result <> dir ->
            cached (snd out) dir = cached s dir)).
Proof.
  intros A Hne Hall out. subst out.
  rewrite (removal_of_every_member w dc dir p members s A Hne Hall).
  set (P := NoRequestBut (removalsOf (st_calls s)) (catsOf (st_calls s))).
  assert (HP : P s) by (split; reflexivity).
  assert (Hq : isProbeOrUpload CallHealth = true
               /\ isProbeOrUpload CallPinLs = true
               /\ (forall files, isProbeOrUpload (CallUploadDirectory files) = true)
               /\ (forall m, isProbeOrUpload (CallSaveSystemHash m) = true))
    by (repeat split).
  assert (Hw : forall msg, preserves P (warn msg))
    by (intros msg st Hst; exact Hst).
  assert (Hc : forall c, preserves P (putCache c))
    by (intros c st Hst; exact Hst).
  assert (Hkeep : preserves P (bind (folderNameOf dir) (createEmptyDirectory w dc))).
  { apply preserves_bind.
    - apply quiet_folderNameOf. exact Hw.
    - intros name.
      apply quiet_createEmptyDirectory with (quiet := isProbeOrUpload);
        [exact Hq|apply NoRequestBut_call|exact Hw|exact Hc]. }
  destruct (Hkeep s HP) as [H1 H2]. split; [exact H1|]. split; [exact H2|].
  intros result Hres. unfold bind in *.
  destruct (folderNameOf_exact dir s) as (name & log1 & E1 & _).
  rewrite E1 in *.
  destruct (createEmptyDirectory w dc name _) as [[r|e] s'] eqn:E2;
    simpl in Hres; [|discriminate].
  injection Hres as ->.
  destruct (createEmptyDirectory_resolves _ _ _ _ _ _ E2) as (F & Hh & C).
  split; [exact F|]. intros Hcid. unfold cached. simpl. rewrite C. simpl.
  apply cached_savedCache_other. now rewrite Hh.
Qed.

Lemma X14_removing_every_member_retires_nothing_witness :
  let s := emptyState twoRecords 2000 in
  let out := removeFileFromDirectory (Reference.world fullStore) adminCore
               "QmA" "notes.txt" [member "notes.txt" "notes.txt" 5] s in
  removalsOf (st_calls (snd out)) = [] /\ catsOf (st_calls (snd out)) = [].
Proof.
  intros s out.
  assert (Hall : forall m, In m [member "notes.txt" "notes.txt" 5] ->
                           lastSegment (pathOrName m) = lastSegment "notes.txt").
  { intros m [<-|[]]. reflexivity. }
  destruct (X14_removing_every_member_retires_nothing (Reference.world fullStore)
              adminCore "QmA" "notes.txt" [member "notes.txt" "notes.txt" 5] s
              eq_refl ltac:(discriminate) Hall) as (H1 & H2 & _).
  split; [exact H1|exact H2].
Defined.

(** X15. No directory operation uploads a batch of zero files: the
    property that no empty batch has been sent is kept by
    [uploadDirectory], by [createEmptyDirectory] and by
    [addFilesToDirectory], for all arguments and whatever the
    collaborators answer. *)
Theorem X15_no_directory_operation_uploads_an_empty_batch
        (w : World) (dc : DriveCore) :
  (forall files encrypt folderName,
      preserves NoEmptyUpload (uploadDirectory w dc files encrypt folderName))
  /\ (forall folderName,
         preserves NoEmptyUpload (createEmptyDirectory w dc folderName))
  /\ (forall dir newFiles members,
         preserves NoEmptyUpload (addFilesToDirectory w dc dir newFiles members)).
Proof.
  assert (Hw : forall msg, preserves NoEmptyUpload (warn msg))
    by (intros msg st Hst; exact Hst).
  assert (Hc : forall c, preserves NoEmptyUpload (putCache c))
    by (intros c st Hst; exact Hst).
  split; [|split].
  - intros. now apply frame_uploadDirectory; [apply NoEmptyUpload_call| |].
  - intros. now apply frame_createEmptyDirectory; [apply NoEmptyUpload_call| |].
  - intros. now apply frame_addFilesToDirectory; [apply NoEmptyUpload_call| |].
Qed.

End RebuildSafety.

(** ** TransferPipeline: what a download resolves with *)
Section Transfer.
Import Download.
Local Open Scope Z_scope.

Lemma failure_some (reply : FetchReply) :
  failure reply <> None -> exists e, failure reply = Some e.
Proof. destruct (failure reply) as [e|]; [eauto|contradiction]. Qed.

Lemma retry_prefix (w : World) (url : string) (k fuel attempt : nat)
      (response : option Response) (s : State) :
  (attempt + k <= 2)%nat ->
  (forall j, (attempt <= j)%nat -> (j < attempt + k)%nat ->
             failure (w_fetch w url j) <> None) ->
  exists response' log',
    retryLoop w url (k + fuel) attempt response s
    = retryLoop w url fuel (attempt + k) response'
        (mkState (st_cache s) (st_now s)
                 (st_calls s
                  ++ flat_map (fun j => [CallFetch url; Sleep (backoff j)])
                              (seq attempt k)) log').
Proof.
  revert attempt response s.
  induction k as [|k IH]; intros attempt response s Hle Hf.
  - exists response, (st_log s). simpl. rewrite app_nil_r, Nat.add_0_r.
    destruct s; reflexivity.
  - destruct (failure_some _ (Hf attempt ltac:(lia) ltac:(lia))) as [e He].
    destruct (retry_step w url (k + fuel) attempt response s e ltac:(lia) He)
      as (r1 & log1 & E1).
    change (S k + fuel)%nat with (S (k + fuel)). rewrite E1.
    destruct (IH (S attempt) r1 (mkState (st_cache s) (st_now s)
                                   (st_calls s ++ [CallFetch url; Sleep (backoff attempt)])
                                   log1))
      as (r2 & log2 & E2); [lia|intros j H1 H2; apply Hf; lia|].
    rewrite E2. exists r2, log2. cbn [st_cache st_now st_calls].
    replace (S attempt + k)%nat with (attempt + S k)%nat by lia.
    cbn [seq flat_map]. rewrite <- !app_assoc. reflexivity.
Qed.

Lemma retry_hit (w : World) (url : string) (fuel attempt : nat)
      (response : option Response) (s : State) (r : Response) :
  w_fetch w url attempt = FetchResponse r -> r_ok r = true ->
  retryLoop w url (S fuel) attempt response s
  = (Ok (Some r), mkState (st_cache s) (st_now s) (st_calls s ++ [CallFetch url])
                          (st_log s)).
Proof.
  intros Hf Hok. cbn [retryLoop]. unfold bind at 1, call at 1.
  cbn [st_cache st_now st_calls st_log]. rewrite Hf, Hok. reflexivity.
Qed.

Lemma retry_resolves (w : World) (url : string) (fuel attempt : nat)
      (response resp : option Response) (s s' : State) :
  (attempt + fuel = maxRetries)%nat -> (0 < fuel)%nat ->
  retryLoop w url fuel attempt response s = (Ok resp, s') ->
  exists r k,
    (attempt <= k)%nat /\ (k < maxRetries)%nat
    /\ resp = Some r
    /\ w_fetch w url k = FetchResponse r /\ r_ok r = true
    /\ (forall j, (attempt <= j)%nat -> (j < k)%nat ->
                  failure (w_fetch w url j) <> None).
Proof.
  revert attempt response s.
  induction fuel as [|fuel IH]; intros attempt response s Hsum Hpos H; [lia|].
  unfold maxRetries in *.
  destruct (failure (w_fetch w url attempt)) as [e|] eqn:F.
  - destruct (Nat.eq_dec attempt 2%nat) as [->|Hne].
    + rewrite (retry_last w url fuel response s e F) in H. discriminate.
    + destruct (retry_step w url fuel attempt response s e ltac:(lia) F)
        as (r1 & log1 & E1).
      rewrite E1 in H.
      destruct (IH (S attempt) r1 _ ltac:(lia) ltac:(lia) H)
        as (r & k & H1 & H2 & H3 & H4 & H5 & H6).
      exists r, k. split; [lia|]. split; [exact H2|]. split; [exact H3|].
      split; [exact H4|]. split; [exact H5|].
      intros j Hj1 Hj2. destruct (Nat.eq_dec j attempt) as [->|Hj].
      * rewrite F. discriminate.
      * apply H6; lia.
  - unfold failure in F.
    destruct (w_fetch w url attempt) as [m| |r] eqn:W; try discriminate.
    destruct (r_ok r) eqn:Hok; [|discriminate].
    rewrite (retry_hit w url fuel attempt response s r W Hok) in H.
    injection H as <- _. exists r, attempt.
    split; [lia|]. split; [lia|]. split; [reflexivity|].
    split; [exact W|]. split; [exact Hok|]. intros; lia.
Qed.

(** X16. The download loop resolves only with a response that is [ok].
    When the loop of [downloadFile] is left without an error, the response
    it holds is the answer to one of the three attempts, that answer is
    [ok], and every earlier attempt failed: the test for a missing or
    failed response that follows the loop never fires. *)
Theorem X16_retry_loop_resolves_with_an_ok_response
        (w : World) (url : string) (s s' : State) (resp : option Response) :
  retryLoop w url maxRetries 0 None s = (Ok resp, s') ->
  exists r k,
    resp = Some r /\ r_ok r = true
    /\ (k < maxRetries)%nat /\ w_fetch w url k = FetchResponse r
    /\ (forall j, (j < k)%nat -> failure (w_fetch w url j) <> None).
Proof.
  intros H.
  destruct (retry_resolves w url maxRetries 0 None resp s s' eq_refl
              ltac:(unfold maxRetries; lia) H)
    as (r & k & _ & H2 & H3 & H4 & H5 & H6).
  exists r, k. split; [exact H3|]. split; [exact H5|]. split; [exact H2|].
  split; [exact H4|]. intros j Hj. apply H6; lia.
Qed.

Lemma X16_retry_loop_resolves_with_an_ok_response_witness :
  exists r k,
    r_status r = 200 /\ r_ok r = true /\ k = 2%nat
    /\ w_fetch flakyRelay "https://relay/api/v1/ipfs/cat/QmA" k = FetchResponse r.
Proof.
  destruct (X16_retry_loop_resolves_with_an_ok_response flakyRelay
              "https://relay/api/v1/ipfs/cat/QmA" (emptyState CacheAbsent 2000)
              (snd (retryLoop flakyRelay "https://relay/api/v1/ipfs/cat/QmA"
                      maxRetries 0 None (emptyState CacheAbsent 2000)))
              (Some (asciiResponse 200 "text/plain" (Some 5) ["hel"; "lo"]))
              eq_refl)
    as (r & k & H1 & H2 & H3 & H4 & H5).
  injection H1 as <-.
  assert (k = 2%nat) as ->.
  { destruct k as [|[|[|k]]]; [| |reflexivity|unfold maxRetries in H3; lia];
      vm_compute in H4; discriminate. }
  exists (asciiResponse 200 "text/plain" (Some 5) ["hel"; "lo"]), 2%nat.
  split; [reflexivity|]. split; [exact H2|]. split; [reflexivity|exact H4].
Defined.

(** X17. A download that first fails and then succeeds.  For a file that
    is not encrypted and whose declared size is at most 5 MB: when the
    first [k] attempts fail (by a network error, the timeout or a
    response that is not [ok]) and attempt [k], one of the three, is
    answered [ok] with a body that is not empty, [downloadFile] resolves
    with exactly the bytes of that body, typed with the [Content-Type] of
    the response or [application/octet-stream].  It has sent [k + 1]
    requests, has waited 1000 ms times the attempt number after each
    failed one, and has reported the progress of the body only. *)
Theorem X17_download_succeeds_after_transient_failures
        (w : World) (dc : DriveCore) (hash : string) (metadata : DownloadMeta)
        (s : State) (k : nat) (r : Response) :
  dm_isEncrypted metadata = false ->
  dm_size metadata <= 5 * 1024 * 1024 ->
  let url := downloadUrl w dc hash metadata in
  (k < maxRetries)%nat ->
  (forall j, (j < k)%nat -> failure (w_fetch w url j) <> None) ->
  w_fetch w url k = FetchResponse r -> r_ok r = true ->
  r_body r <> EmptyString ->
  fst (downloadFile w dc hash metadata s)
  = Ok (newBlob (r_body r)
          (orElse (r_contentType r) "application/octet-stream"))
  /\ st_calls (snd (downloadFile w dc hash metadata s))
     = st_calls s ++ attemptsBefore url k ++ CallFetch url :: bodyProgress r.
Proof.
  intros Henc Hsize url Hk Hfail Hfetch Hok Hbody.
  assert (Hrun :
    downloadFile w dc hash metadata s
    = (Ok (newBlob (r_body r)
             (orElse (r_contentType r) "application/octet-stream")),
       mkState (st_cache s) (st_now s)
               (st_calls s ++ attemptsBefore url k
                ++ CallFetch url :: bodyProgress r)
               (st_log (snd (retryLoop w url maxRetries 0 None s))))).
  { rewrite (downloadFile_small w dc hash metadata s);
      [|unfold canDecrypt; now rewrite Henc|exact Hsize].
    apply reportFailure_ok.
    fold url. unfold fetchWithRetries.
    unfold maxRetries in *.
    destruct (retry_prefix w url k (S (2 - k)) 0 None s ltac:(lia)
                ltac:(intros j _ Hj; apply Hfail; lia))
      as (r1 & log1 & E1).
    replace (k + S (2 - k))%nat with 3%nat in E1 by lia.
    rewrite (retry_hit w url (2 - k) (0 + k) r1 _ r Hfetch Hok) in E1.
    cbn [st_cache st_now st_calls st_log] in E1.
    unfold bind at 1. rewrite E1. rewrite Hok.
    unfold decodeResponse. rewrite Henc.
    unfold bind at 1. rewrite readStream_exact.
    cbn [st_cache st_now st_calls st_log snd].
    change (f_size (newBlob (r_body r)
                      (orElse (r_contentType r) "application/octet-stream")))
      with (String.length (r_body r)).
    destruct (String.length (r_body r) =? 0)%nat eqn:Z.
    { apply length_zero in Z. contradiction. }
    unfold ret, attemptsBefore. rewrite <- !app_assoc. reflexivity. }
  rewrite Hrun. split; reflexivity.
Qed.

Lemma X17_download_succeeds_after_transient_failures_witness :
  let out := downloadFile flakyRelay adminCore "QmA" (plain 1024)
               (emptyState CacheAbsent 2000) in
  let url := "https://relay/api/v1/ipfs/cat/QmA" in
  fst out = Ok (newBlob "hello" "text/plain")
  /\ st_calls (snd out)
     = [CallFetch url; Sleep 1000; CallFetch url; Sleep 2000; CallFetch url;
        Progress 3 5; Progress 5 5].
Proof.
  intros out url.
  assert (Hfail : forall j, (j < 2)%nat ->
            failure (w_fetch flakyRelay
                       (downloadUrl flakyRelay adminCore "QmA" (plain 1024)) j)
            <> None).
  { intros [|[|j]] Hj; [discriminate|discriminate|lia]. }
  exact (X17_download_succeeds_after_transient_failures flakyRelay adminCore "QmA"
           (plain 1024) (emptyState CacheAbsent 2000) 2
           (asciiResponse 200 "text/plain" (Some 5) ["hel"; "lo"])
           eq_refl ltac:(vm_compute; discriminate)
           ltac:(unfold maxRetries; lia) Hfail eq_refl eq_refl
           ltac:(discriminate)).
Defined.

(** X18. A download never resolves with an empty payload: whatever the
    size class, the encryption flag, the responses and the decryption,
    a blob that [downloadFile] resolves with holds at least one byte. *)
Theorem X18_downloadFile_never_resolves_empty
        (w : World) (dc : DriveCore) (hash : string) (metadata : DownloadMeta)
        (s s' : State) (blob : File) :
  downloadFile w dc hash metadata s = (Ok blob, s') ->
  f_size blob <> 0%nat.
Proof.
  unfold downloadFile.
  destruct (dm_isEncrypted metadata && _); [discriminate|].
  intros H. apply reportFailure_resolves in H. revert H. cbv zeta.
  destruct (isLargeFile (dm_size metadata)).
  - rewrite downloadWithXHR_run.
    destruct (snd (w_xhr w _)) as [status statusText response| |];
      try discriminate.
    destruct ((200 <=? status) && (status <? 300)); [|discriminate].
    destruct (f_size response =? 0)%nat eqn:Z; [discriminate|].
    intros H. injection H as <- _. now apply Nat.eqb_neq.
  - unfold fetchWithRetries, bind at 1.
    destruct (retryLoop w _ maxRetries 0 None s) as [[[r|]|e] s1];
      try discriminate.
    destruct (r_ok r); [|discriminate].
    unfold bind at 1.
    destruct (decodeResponse w dc metadata r s1) as [[b|e] s2];
      [|discriminate].
    destruct (f_size b =? 0)%nat eqn:Z; [discriminate|].
    intros H. injection H as <- _. now apply Nat.eqb_neq.
Qed.

Lemma X18_downloadFile_never_resolves_empty_witness :
  f_size (newBlob "hello" "text/plain") <> 0%nat.
Proof.
  apply (X18_downloadFile_never_resolves_empty flakyRelay adminCore "QmA"
           (plain 1024) (emptyState CacheAbsent 2000)
           (snd (downloadFile flakyRelay adminCore "QmA" (plain 1024)
                   (emptyState CacheAbsent 2000)))).
  vm_compute. reflexivity.
Defined.

(** X19. A file that is not empty and was encrypted by [encryptFile]
    comes back through [downloadFile] when the relay does not decrypt.
    Let the session hold a secret, let SEA be loaded and decrypt under
    that secret what it encrypted under it, let its ciphertexts be
    [SEA{...] envelopes, and let the browser read the file as a [data:]
    URL that it fetches back to the same bytes.  When the first answer of
    the relay to the download of such a file, declared encrypted and of
    at most 5 MB, is [ok], served as [text/plain], and its text is the
    ciphertext itself, [downloadFile] decrypts locally and resolves with
    exactly the original content. *)
Theorem X19_download_decrypts_what_encryptFile_made
        (w : World) (dc : DriveCore) (hash : string) (metadata : DownloadMeta)
        (s : State) (file : File) (SEA : SEAlib) (dataUrl c : string)
        (fetched : File) (r : Response) :
  truthy (secretOf dc) = true ->
  Crypto.loadSEA w = Ok SEA ->
  Crypto.fileToBase64 w file = Ok dataUrl ->
  startsWith dataUrl "data:" = true ->
  w_fetchDataURL w dataUrl = Ok fetched ->
  f_content fetched = f_content file ->
  f_content file <> EmptyString ->
  sea_encrypt SEA dataUrl (secretOf dc) = Ok c ->
  sea_decrypt SEA c (secretOf dc) = Ok dataUrl ->
  startsWith (trim c) "SEA{" = true ->
  dm_isEncrypted metadata = true ->
  dm_size metadata <= 5 * 1024 * 1024 ->
  w_fetch w (downloadUrl w dc hash metadata) 0 = FetchResponse r ->
  r_ok r = true ->
  includes (r_contentType r) "text/plain" = true ->
  r_text r = c ->
  exists encrypted,
    Crypto.encryptFile w file (secretOf dc) = Ok encrypted
    /\ f_content encrypted = r_text r
    /\ fst (downloadFile w dc hash metadata s) = Ok fetched
    /\ f_content fetched = f_content file.
Proof.
  intros Hsec Hsea Hurl Hdata Hfetch Hsame Hne Henc Hdec Henv Hflag Hsize
         Hreply Hok Htype Hbody.
  exists (newFile c (Crypto.encryptedFileName (f_name file)) "text/plain").
  split; [now apply (encryptFile_ok w file _ SEA dataUrl c)|].
  split; [now rewrite Hbody|]. split; [|exact Hsame].
  rewrite (downloadFile_small w dc hash metadata s);
    [|unfold canDecrypt; rewrite Hflag; fold (secretOf dc); now rewrite Hsec
     |exact Hsize].
  rewrite reportFailure_fst.
  rewrite (fetchWithRetries_first w dc _ metadata r s Hreply Hok).
  unfold bind at 1, decodeResponse. rewrite Hflag, Htype.
  rewrite andb_false_r. cbn [andb]. rewrite Hbody, Henv.
  fold (secretOf dc). unfold bind, lift. rewrite Hsea, Hdec.
  rewrite (startsWith_truthy dataUrl "data:" eq_refl Hdata). cbn [negb].
  rewrite Hdata, Hfetch.
  destruct (f_size fetched =? 0)%nat eqn:Z; [|reflexivity].
  unfold f_size in Z. apply length_zero in Z. congruence.
Qed.

Lemma X19_download_decrypts_what_encryptFile_made_witness :
  exists encrypted plain,
    Crypto.encryptFile relayReturningCiphertext helloFile "admin-token"
    = Ok encrypted
    /\ fst (downloadFile relayReturningCiphertext adminCore "QmA"
              (mkDownloadMeta true 1024) (emptyState CacheAbsent 2000))
       = Ok plain
    /\ f_content plain = "hello".
Proof.
  destruct (X19_download_decrypts_what_encryptFile_made relayReturningCiphertext
              adminCore "QmA" (mkDownloadMeta true 1024)
              (emptyState CacheAbsent 2000) helloFile Reference.sea
              "data:text/plain;base64,aGVsbG8="
              sealedHello (newBlob "hello" "text/plain")
              (asciiResponse 200 "text/plain" None [sealedHello])
              eq_refl eq_refl eq_refl eq_refl eq_refl eq_refl
              ltac:(discriminate) eq_refl eq_refl eq_refl eq_refl
              ltac:(vm_compute; discriminate) eq_refl eq_refl eq_refl eq_refl)
    as (encrypted & H1 & _ & H3 & H4).
  exists encrypted, (newBlob "hello" "text/plain").
  split; [exact H1|]. split; [exact H3|exact H4].
Defined.

End Transfer.

(** ** NavigationState: jumps along the breadcrumb *)
Section Breadcrumb.
Import Directory Navigation.

Lemma navigateToPath_valid
        (nav : Nav) (i : nat) (target : PathEntry) :
  currentPath nav !! i = Some target ->
  let nav' := navigateToPath nav (Z.of_nat i) in
  currentPath nav' = take (S i) (currentPath nav)
  /\ length (currentPath nav') = S i
  /\ (forall j, (j <= i)%nat -> currentPath nav' !! j = currentPath nav !! j)
  /\ List.last (currentPath nav') target = target
  /\ currentDirectoryCid nav' = Some (pe_cid target).
Proof.
  intros Hi nav'. subst nav'. unfold navigateToPath.
  assert (Hlen : (i < length (currentPath nav))%nat)
    by (apply lookup_lt_is_Some; eauto).
  destruct (Z.of_nat i <? 0)%Z eqn:Neg; [apply Z.ltb_lt in Neg; lia|].
  rewrite Nat2Z.id, Nat.add_1_r.
  assert (Htake : take (S i) (currentPath nav) !! i = Some target).
  { rewrite lookup_take_lt by lia. exact Hi. }
  rewrite Htake. cbn [currentPath currentDirectoryCid].
  split; [reflexivity|].
  split; [rewrite length_take; lia|].
  split; [intros j Hj; apply lookup_take_lt; lia|].
  split; [|reflexivity].
  rewrite (take_S_r _ _ _ Hi). apply List.last_last.
Qed.

(** X20. A click on entry [i] of the breadcrumb cuts [currentPath] after
    that entry and makes its directory the current one: the path keeps
    its first [i + 1] entries unchanged, and its last entry is now the
    directory that is shown. *)
Theorem X20_navigateToPath_lands_on_the_clicked_entry
        (nav : Nav) (i : nat) (target : PathEntry) :
  currentPath nav !! i = Some target ->
  let nav' := navigateToPath nav (Z.of_nat i) in
  currentPath nav' = take (S i) (currentPath nav)
  /\ length (currentPath nav') = S i
  /\ (forall j, (j <= i)%nat -> currentPath nav' !! j = currentPath nav !! j)
  /\ List.last (currentPath nav') target = target
  /\ currentDirectoryCid nav' = Some (pe_cid target).
Proof.
  intros Hi. exact (navigateToPath_valid nav i target Hi).
Qed.

Lemma X20_navigateToPath_lands_on_the_clicked_entry_witness :
  length (currentPath (navigateToPath enteredThrice 0)) = 1%nat
  /\ currentDirectoryCid (navigateToPath enteredThrice 0) = Some "QmA".
Proof.
  destruct (X20_navigateToPath_lands_on_the_clicked_entry enteredThrice 0
              (mkPathEntry "QmA" "docs") eq_refl) as (_ & H2 & _ & _ & H5).
  split; [exact H2|exact H5].
Defined.

(** X21. Entering a folder right after a jump records the directory
    jumped to a second time.  After a click on entry [i] of the
    breadcrumb, a click on a folder pushes the current directory, which
    is that of entry [i]: the breadcrumb then holds entry [i] followed by
    an entry with the same address. *)
Theorem X21_folder_click_after_a_jump_repeats_the_entry
        (cache : CacheItem) (nav : Nav) (i : nat) (target : PathEntry)
        (folderCid folderName : string) :
  currentPath nav !! i = Some target ->
  truthy (pe_cid target) = true ->
  let nav' := handleFolderClick cache (navigateToPath nav (Z.of_nat i))
                folderCid folderName in
  currentPath nav'
  = take (S i) (currentPath nav)
    ++ [mkPathEntry (pe_cid target) (dirNameOf cache (pe_cid target) folderName)]
  /\ currentPath nav' !! i = Some target
  /\ (exists again, currentPath nav' !! S i = Some again
                    /\ pe_cid again = pe_cid target)
  /\ currentDirectoryCid nav' = Some folderCid.
Proof.
  intros Hi Ht nav'.
  destruct (navigateToPath_valid nav i target Hi)
    as (H1 & H2 & _ & _ & H5).
  subst nav'. unfold handleFolderClick. rewrite H5, Ht, H1.
  cbn [currentPath currentDirectoryCid].
  assert (Hlen : length (take (S i) (currentPath nav)) = S i)
    by (now rewrite <- H1).
  split; [reflexivity|].
  split.
  { rewrite lookup_app_l by lia. rewrite lookup_take_lt by lia. exact Hi. }
  split; [|reflexivity].
  eexists. split.
  - rewrite lookup_app_r by lia. rewrite Hlen, Nat.sub_diag. reflexivity.
  - reflexivity.
Qed.

Lemma X21_folder_click_after_a_jump_repeats_the_entry_witness :
  map pe_cid
      (currentPath (handleFolderClick CacheAbsent
                      (navigateToPath insideParent 0) "QmB" "music"))
  = ["QmP"; "QmP"].
Proof.
  destruct (X21_folder_click_after_a_jump_repeats_the_entry CacheAbsent insideParent
              0 (mkPathEntry "QmP" "photos") "QmB" "music" eq_refl eq_refl)
    as (H1 & _).
  change (navigateToPath insideParent 0)
    with (navigateToPath insideParent (Z.of_nat 0)).
  rewrite H1. reflexivity.
Defined.

(** X22. At the root the breadcrumb is empty: in every navigation state
    that the handlers can produce from the initial one, [currentPath] has
    no entry whenever [currentDirectoryCid] is [null]. *)
Theorem X22_breadcrumb_is_empty_at_the_root (nav : Nav) :
  Reachable nav -> currentDirectoryCid nav = None -> currentPath nav = [].
Proof.
  induction 1 as [|cache nav cid name _ IH|nav i _ IH Hi
                  |nav old result _ IH|nav cur result _ IH Hcur].
  - reflexivity.
  - unfold handleFolderClick.
    destruct (currentDirectoryCid nav) as [c|]; [destruct (truthy c)|];
      discriminate.
  - unfold navigateToPath. destruct (i <? 0)%Z eqn:Neg; [reflexivity|].
    apply Z.ltb_ge in Neg.
    destruct (take (Z.to_nat i + 1) (currentPath nav) !! Z.to_nat i) eqn:L;
      [discriminate|].
    apply lookup_ge_None in L. rewrite length_take in L. lia.
  - unfold repointAfterDelete. destruct (replaced result old); [|exact IH].
    destruct (currentDirectoryCid nav) as [c|] eqn:C;
      [|intros _; now apply IH].
    destruct (String.eqb c old); [discriminate|]. intros H. congruence.
  - unfold repointAfterUpload. destruct (replaced result cur); [discriminate|].
    exact IH.
Qed.

Lemma X22_breadcrumb_is_empty_at_the_root_witness :
  currentPath (navigateToPath enteredThrice (-1)) = [].
Proof.
  apply X22_breadcrumb_is_empty_at_the_root; [|reflexivity].
  apply R_navigate; [exact enteredThrice_reachable|].
  simpl. lia.
Defined.

End Breadcrumb.

(** ** Single files *)
Section SingleFiles.
Import MetadataStore Directory SingleUpload.

(** X23. A single file is never uploaded unencrypted by default.  With
    encryption requested, when [encryptFile] fails, [uploadFile] rejects
    with the error of [encryptFile] prefixed once more by
    [Encryption failed: ]; it has sent the health and authentication
    probes and nothing else (no upload, no record), whatever the uploader
    would have answered, and the cache is as it was.  This is the case in
    every session that has neither an encryption token nor an auth
    token. *)
Theorem X23_uploadFile_gives_up_when_encryption_fails
        (w : World) (u : Uploader) (dc : DriveCore) (file : File)
        (fileName : string) (s : State) (e : string) :
  relayAccepts w dc ->
  Crypto.encryptFile w file (secretOf dc) = Err e ->
  uploadFile w u dc file true fileName s
  = (Err ("Encryption failed: " +:+ e),
     mkState (st_cache s) (st_now s) (st_calls s ++ probes dc) (st_log s))
  /\ (truthy (secretOf dc) = false ->
      e = "Auth token is required for encryption").
Proof.
  intros Hr He. split.
  - unfold uploadFile. rewrite (relayAccepts_credentials w dc Hr).
    unfold bind at 1. rewrite (checkRelayAndAuth_exact w dc s Hr).
    fold (secretOf dc). rewrite He. reflexivity.
  - intros Hs. rewrite (encryptFile_needs_secret w file _ Hs) in He.
    now injection He as <-.
Qed.

Lemma X23_uploadFile_gives_up_when_encryption_fails_witness :
  uploadFile (Reference.world noStore) Uploaders.storing walletCore helloFile
    true EmptyString (emptyState CacheAbsent 2000)
  = (Err "Encryption failed: Auth token is required for encryption",
     mkState CacheAbsent 2000 [CallHealth] []).
Proof.
  exact (proj1 (X23_uploadFile_gives_up_when_encryption_fails
                  (Reference.world noStore) Uploaders.storing walletCore
                  helloFile EmptyString (emptyState CacheAbsent 2000)
                  "Auth token is required for encryption"
                  (conj eq_refl (or_introl eq_refl)) eq_refl)).
Defined.

Lemma uploadRoute (u : Uploader) (dc : DriveCore) (sent : File) (hash : string)
      (s : State) :
  uploaderAccepts u dc sent hash -> truthy hash = true ->
  exists calls',
    (if truthy (walletSignature dc) && truthy (userAddress dc)
     then uploadByFetch u dc sent else uploadBySdk u sent) s
    = (Ok hash, mkState (st_cache s) (st_now s) (st_calls s ++ calls') (st_log s))
    /\ uploadsOf calls' = [] /\ removalsOf calls' = [].
Proof.
  intros Ha Ht. unfold uploaderAccepts in Ha.
  destruct (truthy (walletSignature dc) && truthy (userAddress dc)).
  - destruct Ha as (status & error & hint & E & Hok).
    exists [CallFetch (relayUrl dc +:+ "/api/v1/ipfs/upload")].
    unfold uploadByFetch, bind, call, ret. rewrite E, Hok, Ht. simpl.
    repeat split.
  - destruct Ha as (error & E). exists [].
    unfold uploadBySdk, ret. rewrite E, Ht. simpl. rewrite app_nil_r.
    destruct s; repeat split.
Qed.

Lemma uploadFile_encrypted_run
        (w : World) (u : Uploader) (dc : DriveCore) (file encrypted : File)
        (fileName hash : string) (s : State) :
  relayAccepts w dc ->
  Crypto.encryptFile w file (secretOf dc) = Ok encrypted ->
  uploaderAccepts u dc encrypted hash -> truthy hash = true ->
  exists md s',
    uploadFile w u dc file true fileName s
    = (Ok (mkUploadResult true hash md), s')
    /\ md_hash md = hash
    /\ md_fileName md = Crypto.encryptedFileName (f_name file)
    /\ md_displayName md = Crypto.encryptedFileName (f_name file)
    /\ md_originalName md = f_name file
    /\ md_isEncrypted md = true
    /\ md_isDirectory md = false
    /\ md_contentType md = "text/plain"
    /\ md_fileSize md = f_size encrypted
    /\ md_userAddress md = orElse (userAddress dc) "drive-user"
    /\ (forall size,
          md_relayUrl md
          = Download.downloadUrl w dc hash (Download.mkDownloadMeta true size))
    /\ st_cache s' = savedCache w md (st_cache s) (st_now s)
    /\ uploadsOf (st_calls s') = uploadsOf (st_calls s)
    /\ removalsOf (st_calls s') = removalsOf (st_calls s).
Proof.
  intros Hr He Ha Ht.
  pose proof (encryptFile_name _ _ _ _ He) as Hname.
  pose proof (encryptFile_type _ _ _ _ He) as Htype.
  unfold uploadFile. rewrite (relayAccepts_credentials w dc Hr).
  unfold bind at 1. rewrite (checkRelayAndAuth_exact w dc s Hr).
  fold (secretOf dc). rewrite He.
  unfold bind at 1, ret at 1. cbn [fst snd]. rewrite String.eqb_refl.
  unfold bind at 1.
  match goal with |- context [(if _ then uploadByFetch u dc encrypted
                               else uploadBySdk u encrypted) ?st] =>
    destruct (uploadRoute u dc encrypted hash st Ha Ht)
      as (calls' & E & U & R); rewrite E end.
  unfold bind at 1, now at 1. cbn [st_cache st_now st_calls st_log].
  unfold bind at 1.
  match goal with |- context [saveFileMetadata w ?m ?st] =>
    destruct (saveFileMetadata_exact w m st) as (log' & E4 & _);
    rewrite E4 end.
  unfold ret. do 2 eexists. split; [reflexivity|].
  cbn [md_hash md_fileName md_displayName md_originalName md_isEncrypted
       md_isDirectory md_contentType md_fileSize md_userAddress md_relayUrl
       st_cache st_now st_calls].
  rewrite Hname, Htype.
  repeat (split; [reflexivity|]).
  rewrite !uploadsOf_app, !removalsOf_app, uploadsOf_probes, removalsOf_probes,
    U, R. simpl. rewrite !app_nil_r. split; reflexivity.
Qed.

(** X24. What [uploadFile] records for an encrypted upload.  When the
    relay accepts the session, [encryptFile] succeeds and the storage
    network takes the ciphertext, [uploadFile] resolves with the address
    it was given and a record that names the upload after the encrypted
    file (the [fileName] option is not used), keeps the original name,
    flags it as encrypted, types it [text/plain], counts the bytes of the
    ciphertext, and stores as [relayUrl] exactly the URL that
    [downloadFile] requests for an encrypted file with that address.  The
    local cache is then what [saveFileMetadata] makes of it. *)
Theorem X24_uploadFile_records_the_encrypted_upload
        (w : World) (u : Uploader) (dc : DriveCore) (file encrypted : File)
        (fileName hash : string) (s : State) :
  relayAccepts w dc ->
  Crypto.encryptFile w file (secretOf dc) = Ok encrypted ->
  uploaderAccepts u dc encrypted hash -> truthy hash = true ->
  exists md s',
    uploadFile w u dc file true fileName s
    = (Ok (mkUploadResult true hash md), s')
    /\ md_hash md = hash
    /\ md_fileName md = Crypto.encryptedFileName (f_name file)
    /\ md_displayName md = Crypto.encryptedFileName (f_name file)
    /\ md_originalName md = f_name file
    /\ md_isEncrypted md = true
    /\ md_isDirectory md = false
    /\ md_contentType md = "text/plain"
    /\ md_fileSize md = f_size encrypted
    /\ md_userAddress md = orElse (userAddress dc) "drive-user"
    /\ (forall size,
          md_relayUrl md
          = Download.downloadUrl w dc hash (Download.mkDownloadMeta true size))
    /\ st_cache s' = savedCache w md (st_cache s) (st_now s)
    /\ uploadsOf (st_calls s') = uploadsOf (st_calls s)
    /\ removalsOf (st_calls s') = removalsOf (st_calls s).
Proof.
  intros Hr He Ha Ht.
  exact (uploadFile_encrypted_run w u dc file encrypted fileName hash s
           Hr He Ha Ht).
Qed.

Lemma X24_uploadFile_records_the_encrypted_upload_witness :
  exists md s',
    uploadFile (Reference.world noStore) Uploaders.storing adminCore helloFile
      true "renamed.txt" (emptyState CacheAbsent 2000)
    = (Ok (mkUploadResult true "QmFile" md), s')
    /\ md_fileName md = "notes.txt.enc"
    /\ md_originalName md = "notes.txt"
    /\ md_relayUrl md
       = "https://relay/api/v1/ipfs/cat/QmFile/decrypt?token=admin-token".
Proof.
  destruct (X24_uploadFile_records_the_encrypted_upload (Reference.world noStore)
              Uploaders.storing adminCore helloFile
              (newFile sealedHello "notes.txt.enc" "text/plain")
              "renamed.txt" "QmFile" (emptyState CacheAbsent 2000)
              (reference_relayAccepts noStore) eq_refl
              (ex_intro _ EmptyString eq_refl) eq_refl)
    as (md & s' & E & _ & H2 & _ & H4 & _ & _ & _ & _ & _ & H10 & _).
  exists md, s'. split; [exact E|]. split; [exact H2|]. split; [exact H4|].
  exact (H10 0%Z).
Defined.

Lemma uploadFile_without_secret (w : World) (u : Uploader) (dc : DriveCore)
      (file : File) (s : State) :
  truthy (secretOf dc) = false ->
  exists e s', uploadFile w u dc file true EmptyString s = (Err e, s').
Proof.
  intros Hs. unfold uploadFile.
  destruct (negb (truthy (authToken dc)) && negb (truthy (userAddress dc)));
    [unfold throw; eauto|].
  unfold bind at 1.
  destruct (checkRelayAndAuth w dc s) as [[[]|e] s1]; [|eauto].
  fold (secretOf dc). rewrite (encryptFile_needs_secret w file _ Hs).
  unfold bind, throw. eauto.
Qed.

(** X25. The loop of [handleUpload] over single files never rejects and
    attempts every file: an upload that fails is counted and the loop
    goes on, so the two counters grow together by the number of files.
    In a session with neither an encryption token nor an auth token every
    one of these uploads fails. *)
Theorem X25_uploadEach_attempts_every_file
        (w : World) (u : Uploader) (dc : DriveCore) (files : list File)
        (successCount errorCount : nat) (s : State) :
  exists uploaded failed s',
    uploadEach w u dc files successCount errorCount s
    = (Ok (uploaded, failed), s')
    /\ (uploaded + failed = successCount + errorCount + length files)%nat
    /\ (successCount <= uploaded)%nat /\ (errorCount <= failed)%nat
    /\ (truthy (secretOf dc) = false ->
        uploaded = successCount
        /\ failed = (errorCount + length files)%nat).
Proof.
  revert successCount errorCount s.
  induction files as [|file rest IH]; intros a b s.
  - exists a, b, s. simpl. unfold ret.
    repeat split; try lia.
  - cbn [uploadEach]. unfold bind at 1, catch at 1, bind at 1.
    destruct (uploadFile w u dc file true EmptyString s) as [[r|e] s1] eqn:E.
    + unfold ret at 1. cbv beta iota.
      destruct (IH (S a) b s1) as (a' & b' & s' & E' & H1 & H2 & H3 & H4).
      exists a', b', s'. rewrite E'. cbn [length].
      split; [reflexivity|]. split; [lia|]. split; [lia|]. split; [lia|].
      intros Hs.
      destruct (uploadFile_without_secret w u dc file s Hs) as (e & s2 & E2).
      congruence.
    + unfold bind at 1, warn at 1, ret at 1. cbv beta iota.
      match goal with |- context [uploadEach w u dc rest a (S b) ?st] =>
        destruct (IH a (S b) st) as (a' & b' & s' & E' & H1 & H2 & H3 & H4)
      end.
      exists a', b', s'. rewrite E'. cbn [length].
      split; [reflexivity|]. split; [lia|]. split; [lia|]. split; [lia|].
      intros Hs. destruct (H4 Hs). lia.
Qed.

End SingleFiles.

(** ** The rows of the file grid *)
Section Rows.
Import MetadataStore Directory SingleUpload Listing.

Lemma substring_prefix (a b : string) :
  String.substring 0 (String.length a) (a +:+ b) = a.
Proof.
  induction a as [|c a IH]; simpl.
  - destruct b; reflexivity.
  - change (String c (String.substring 0 (String.length a) (a +:+ b))
            = String c a).
    now rewrite IH.
Qed.

Lemma dropLast_suffix (base suffix : string) :
  dropLast (String.length suffix) (base +:+ suffix) = base.
Proof.
  unfold dropLast. rewrite length_append.
  replace (String.length base + String.length suffix - String.length suffix)%nat
    with (String.length base) by lia.
  apply substring_prefix.
Qed.

Lemma orElse_left (a b : string) : truthy a = true -> orElse a b = a.
Proof. intros H. unfold orElse. now rewrite H. Qed.

Lemma truthy_encryptedFileName (name : string) :
  truthy (Crypto.encryptedFileName name) = true.
Proof.
  unfold Crypto.encryptedFileName.
  destruct (endsWith name ".enc") eqn:E.
  - destruct name; [discriminate|reflexivity].
  - destruct name; reflexivity.
Qed.

(** X26. An encrypted upload is downloaded under its original name.  For
    the record [uploadFile] writes for a file with a name, the row that
    [getFileList] builds is named after the encrypted file, keeps the
    original name, is flagged encrypted and carries the recorded
    [relayUrl]; [handleFileDownload] saves it under the original name
    when that name does not end in [.enc].  When the original name does
    end in [.enc], the name saved is the original one without this
    suffix. *)
Theorem X26_encrypted_upload_is_saved_under_its_original_name
        (w : World) (u : Uploader) (dc : DriveCore) (file encrypted : File)
        (fileName hash otherName : string) (nowMs : Z) (s : State) :
  relayAccepts w dc ->
  Crypto.encryptFile w file (secretOf dc) = Ok encrypted ->
  uploaderAccepts u dc encrypted hash -> truthy hash = true ->
  truthy (f_name file) = true ->
  exists result s',
    uploadFile w u dc file true fileName s = (Ok result, s')
    /\ let row := fileRow w dc nowMs (ur_hash result) (ur_metadata result)
                    otherName in
       en_cid row = hash
       /\ en_name row = Crypto.encryptedFileName (f_name file)
       /\ en_originalName row = f_name file
       /\ en_isEncrypted row = true
       /\ en_relayUrl row = md_relayUrl (ur_metadata result)
       /\ (endsWith (f_name file) ".enc" = false ->
           downloadName row = f_name file)
       /\ (forall base, f_name file = base +:+ ".enc" ->
                        downloadName row = base).
Proof.
  intros Hr He Ha Ht Hn.
  destruct (uploadFile_encrypted_run w u dc file encrypted
              fileName hash s Hr He Ha Ht)
    as (md & s' & E & H1 & H2 & H3 & H4 & H5 & H6 & H7 & H8 & H9 & H10 & _).
  exists (mkUploadResult true hash md), s'. split; [exact E|].
  cbn [ur_hash ur_metadata]. unfold fileRow, downloadName.
  cbn [en_cid en_name en_originalName en_isEncrypted en_relayUrl].
  rewrite H3, H4, H5, H2.
  assert (Hd : truthy (Crypto.encryptedFileName (f_name file)) = true)
    by apply truthy_encryptedFileName.
  assert (Hurl : truthy (md_relayUrl md) = true).
  { rewrite (H10 0%Z). unfold Download.downloadUrl. simpl.
    destruct (relayUrl dc); reflexivity. }
  rewrite !(orElse_left (Crypto.encryptedFileName (f_name file)) _ Hd).
  rewrite !(orElse_left (f_name file) _ Hn).
  rewrite (orElse_left (md_relayUrl md) _ Hurl). cbn [andb].
  split; [reflexivity|]. split; [reflexivity|]. split; [reflexivity|].
  split; [reflexivity|]. split; [reflexivity|].
  split.
  - intros Hno. now rewrite Hno.
  - intros base Hb. rewrite Hb, endsWith_append.
    apply (dropLast_suffix base ".enc").
Qed.

Lemma X26_encrypted_upload_is_saved_under_its_original_name_witness :
  exists result s',
    uploadFile (Reference.world noStore) Uploaders.storing adminCore helloFile
      true EmptyString (emptyState CacheAbsent 2000) = (Ok result, s')
    /\ downloadName (fileRow (Reference.world noStore) adminCore 3000
                       (ur_hash result) (ur_metadata result) EmptyString)
       = "notes.txt".
Proof.
  destruct (X26_encrypted_upload_is_saved_under_its_original_name
              (Reference.world noStore) Uploaders.storing adminCore helloFile
              (newFile sealedHello "notes.txt.enc" "text/plain")
              EmptyString "QmFile" EmptyString 3000 (emptyState CacheAbsent 2000)
              (reference_relayAccepts noStore) eq_refl
              (ex_intro _ EmptyString eq_refl) eq_refl eq_refl)
    as (result & s' & E & _ & _ & _ & _ & _ & H6 & _).
  exists result, s'. split; [exact E|]. apply H6. reflexivity.
Defined.

(** X27. The wallet listing recognises what [encryptFile] made.  An
    upload whose name and type are those of a file produced by
    [encryptFile] is flagged as encrypted by the row that
    [getUserUploads] builds for it.  With a secret in the session, the
    [relayUrl] of the row is the URL [downloadFile] requests for it.
    Without one, the row points at the plain endpoint and
    [handleFileDownload] gives up before any request is sent: it hands
    nothing to the browser and leaves one error in the console, the cache
    and the clock being as they were. *)
Theorem X27_wallet_listing_recognises_encrypted_files
        (w : World) (dc : DriveCore) (file encrypted : File) (token hash : string)
        (size : nat) (nowMs uploadedAt : Z) (s : State) :
  Crypto.encryptFile w file token = Ok encrypted ->
  let row := uploadEntry w dc nowMs
               (mkUpload hash (f_name encrypted) size (f_type encrypted))
               uploadedAt in
  en_isEncrypted row = true
  /\ (truthy (secretOf dc) = true ->
      en_relayUrl row
      = Download.downloadUrl w dc hash
          (Download.mkDownloadMeta true (Z.of_nat size)))
  /\ (truthy (secretOf dc) = false ->
      en_relayUrl row = relayUrl dc +:+ "/api/v1/ipfs/cat/" +:+ hash
      /\ handleFileDownload w dc row s
         = (Ok None,
            mkState (st_cache s) (st_now s) (st_calls s)
                    (st_log s ++ ["Download error"]))).
Proof.
  intros He row.
  pose proof (encryptFile_name _ _ _ _ He) as Hname.
  pose proof (encryptFile_type _ _ _ _ He) as Htype.
  assert (Hflag : en_isEncrypted row = true).
  { subst row. unfold uploadEntry. cbn [en_isEncrypted up_mimetype up_name].
    rewrite Htype, Hname, encryptedFileName_endsWith. reflexivity. }
  split; [exact Hflag|].
  assert (Hurl : en_relayUrl row = catEndpoint w dc hash true).
  { subst row. unfold uploadEntry in *.
    cbn [en_isEncrypted en_relayUrl up_mimetype up_name up_hash] in *.
    now rewrite Hflag. }
  split.
  - intros Hs. rewrite Hurl. unfold catEndpoint, Download.downloadUrl.
    fold (secretOf dc). rewrite Hs. reflexivity.
  - intros Hs. split.
    + rewrite Hurl. unfold catEndpoint. fold (secretOf dc). now rewrite Hs.
    + unfold handleFileDownload.
      assert (Hp : en_parentDirectory row = EmptyString) by reflexivity.
      rewrite Hp, Hflag. cbn [truthy andb].
      unfold Download.downloadFile. cbn [Download.dm_isEncrypted].
      fold (secretOf dc). rewrite Hs. reflexivity.
Qed.

Lemma X27_wallet_listing_recognises_encrypted_files_witness :
  let row := uploadEntry (Reference.world noStore) walletCore 3000
               (mkUpload "QmFile" "notes.txt.enc" 36 "text/plain") 0 in
  en_isEncrypted row = true
  /\ handleFileDownload (Reference.world noStore) walletCore row
       (emptyState CacheAbsent 3000)
     = (Ok None, mkState CacheAbsent 3000 [] ["Download error"]).
Proof.
  intros row.
  destruct (X27_wallet_listing_recognises_encrypted_files (Reference.world noStore)
              walletCore helloFile
              (newFile sealedHello "notes.txt.enc" "text/plain")
              "admin-token" "QmFile" 36 3000 0 (emptyState CacheAbsent 3000)
              eq_refl) as (H1 & _ & H3).
  split; [exact H1|]. exact (proj2 (H3 eq_refl)).
Defined.

(** X28. A row of the root listing can always be shown.  Whatever the
    record, the row that [getFileList] builds is never dated in the
    future, and its date is a valid one when the clock is; for an address
    that is not empty neither its name nor its original name is empty;
    the [relayUrl] of a record that has one is kept, and a record without
    one gets the endpoint that fits its encryption flag. *)
Theorem X28_fileRow_can_be_shown
        (w : World) (dc : DriveCore) (nowMs : Z) (cid : string)
        (metadata : Metadata) (otherName : string) :
  let row := fileRow w dc nowMs cid metadata otherName in
  (en_uploadedAt row <= nowMs)%Z
  /\ ((Z.abs nowMs <= maxTime)%Z -> (Z.abs (en_uploadedAt row) <= maxTime)%Z)
  /\ (truthy cid = true ->
      truthy (en_name row) = true /\ truthy (en_originalName row) = true)
  /\ (truthy (md_relayUrl metadata) = true ->
      en_relayUrl row = md_relayUrl metadata)
  /\ (truthy (md_relayUrl metadata) = false ->
      en_relayUrl row = catEndpoint w dc cid (md_isEncrypted metadata)).
Proof.
  intros row. subst row. unfold fileRow.
  cbn [en_uploadedAt en_name en_originalName en_relayUrl].
  set (u := if negb (md_uploadedAt metadata =? 0)%Z then md_uploadedAt metadata
            else if negb (md_timestamp metadata =? 0)%Z
                 then md_timestamp metadata else nowMs).
  split.
  { destruct (nowMs <? u)%Z eqn:A; cbn [orb]; [lia|].
    destruct (maxTime <? Z.abs u)%Z; [lia|]. apply Z.ltb_ge in A. exact A. }
  split.
  { intros Hnow. destruct (nowMs <? u)%Z; cbn [orb]; [exact Hnow|].
    destruct (maxTime <? Z.abs u)%Z eqn:B; [exact Hnow|].
    apply Z.ltb_ge in B. exact B. }
  split.
  { intros Hc.
    assert (Hd : truthy (orElse (md_displayName metadata)
                           (orElse (md_fileName metadata)
                              (orElse (md_originalName metadata)
                                 (orElse otherName cid)))) = true)
      by (repeat apply orElse_truthy; exact Hc).
    split; [exact Hd|]. do 2 apply orElse_truthy. exact Hd. }
  split; intros H; unfold orElse; now rewrite H.
Qed.

Lemma split_slash_nonempty (t : string) : split_slash t <> [].
Proof.
  destruct t as [|c r]; simpl; [discriminate|].
  destruct (Ascii.eqb c "/"); [discriminate|].
  destruct (split_slash r); discriminate.
Qed.

Lemma last_cons_nonempty {A} (x d : A) (l : list A) :
  l <> [] -> List.last (x :: l) d = List.last l d.
Proof. destruct l; [contradiction|reflexivity]. Qed.

Lemma split_slash_after_slash (a b : string) :
  exists h t, split_slash (a +:+ String "/" b) = h :: t /\ t <> []
              /\ List.last t EmptyString = lastSegment b.
Proof.
  induction a as [|c a IH].
  - change (EmptyString +:+ String "/" b) with (String "/" b). simpl.
    exists EmptyString, (split_slash b).
    split; [reflexivity|]. split; [apply split_slash_nonempty|reflexivity].
  - change (String c a +:+ String "/" b) with (String c (a +:+ String "/" b)).
    destruct IH as (h & t & E & Hne & Hl). cbn [split_slash]. rewrite E.
    destruct (Ascii.eqb c "/").
    + exists EmptyString, (h :: t). split; [reflexivity|].
      split; [discriminate|]. rewrite last_cons_nonempty by exact Hne. exact Hl.
    + exists (String c h), t. split; [reflexivity|]. split; [exact Hne|exact Hl].
Qed.

Lemma lastSegment_after_slash (a b : string) :
  lastSegment (a +:+ String "/" b) = lastSegment b.
Proof.
  destruct (split_slash_after_slash a b) as (h & t & E & Hne & Hl).
  unfold lastSegment at 1. rewrite E, last_cons_nonempty by exact Hne. exact Hl.
Qed.

Lemma isPrefix_split (p l : list ascii) :
  isPrefix p l = true -> l = p ++ skipn (length p) l.
Proof.
  revert l. induction p as [|a p IH]; intros l H; [reflexivity|].
  destruct l as [|b l]; [discriminate|]. simpl in H.
  destruct (Ascii.eqb a b) eqn:E; [|discriminate].
  apply Ascii.eqb_eq in E. subst. simpl. f_equal. now apply IH.
Qed.

Lemma chars_substringFrom (n : nat) (t : string) :
  chars (substringFrom n t) = skipn n (chars t).
Proof.
  revert t. induction n as [|n IH]; intros t; [reflexivity|].
  destruct t as [|c r]; [reflexivity|]. simpl. apply IH.
Qed.

Lemma chars_length (t : string) : length (chars t) = String.length t.
Proof. induction t as [|c r IH]; [reflexivity|]. simpl. now rewrite IH. Qed.

Lemma chars_inj (a b : string) : chars a = chars b -> a = b.
Proof.
  revert b. induction a as [|c a IH]; intros [|d b] H; try discriminate;
    [reflexivity|].
  simpl in H. injection H as -> H. f_equal. now apply IH.
Qed.

Lemma startsWith_split (t p : string) :
  startsWith t p = true -> t = p +:+ substringFrom (String.length p) t.
Proof.
  intros H. apply chars_inj. rewrite chars_app, chars_substringFrom.
  rewrite <- chars_length. now apply isPrefix_split.
Qed.

Lemma stripDirectoryName_lastSegment (directoryName filePath : string) :
  lastSegment (stripDirectoryName directoryName filePath)
  = lastSegment filePath.
Proof.
  unfold stripDirectoryName.
  destruct (truthy directoryName && startsWith filePath (directoryName +:+ "/"))
    eqn:E; [|reflexivity].
  apply andb_prop in E. destruct E as [_ E].
  apply startsWith_split in E.
  rewrite length_append in E. simpl in E.
  remember (substringFrom (String.length directoryName + 1) filePath) as rest
    eqn:Hrest.
  clear Hrest. rewrite E. rewrite append_assoc.
  change ("/" +:+ rest) with (String "/" rest).
  symmetry. apply lastSegment_after_slash.
Qed.

Lemma normalizePath_lastSegment (path : string) :
  normalizePath path = lastSegment path.
Proof.
  unfold normalizePath.
  destruct (1 <? length (split_slash path))%nat eqn:E; [reflexivity|].
  apply Nat.ltb_ge in E. unfold lastSegment.
  pose proof (split_slash_nonempty path) as Hne.
  destruct (split_slash path) as [|x [|y l]] eqn:S;
    [contradiction| |simpl in E; lia].
  simpl. clear E Hne. revert x S.
  induction path as [|c r IH]; intros x S; simpl in S.
  - now injection S as <-.
  - destruct (Ascii.eqb c "/").
    + injection S as _ S. now apply split_slash_nonempty in S.
    + destruct (split_slash r) as [|h t] eqn:R.
      * now apply split_slash_nonempty in R.
      * injection S as <- ->. f_equal. now apply IH.
Qed.

(** X29. A row of a directory addresses its member.  The row that
    [loadDirectoryContents] builds for a member belongs to the directory
    and is not a directory itself; its [relativePath] is the recorded
    path without the name of the directory in front, and it has the file
    name of the member.  So the download of the row asks the storage
    network for the very object a rebuild fetches for the member, and
    [removeFileFromDirectory] called on this path drops the member: it
    never answers that the file was not found. *)
Theorem X29_directory_row_addresses_its_member
        (directoryCid : string) (metadata : Metadata) (nowMs : Z)
        (fileInfo : FileMeta) (members : list FileMeta) :
  let row := memberRow directoryCid metadata nowMs fileInfo in
  en_parentDirectory row = directoryCid
  /\ en_isDirectory row = false
  /\ en_cid row = directoryCid +:+ "/" +:+ en_relativePath row
  /\ (forall directoryName rest,
        orElse (md_displayName metadata) (md_fileName metadata) = directoryName ->
        truthy directoryName = true ->
        pathOrName fileInfo = directoryName +:+ "/" +:+ rest ->
        en_relativePath row = rest)
  /\ lastSegment (en_relativePath row) = lastSegment (pathOrName fileInfo)
  /\ normalizePath (en_relativePath row) = normalizePath (pathOrName fileInfo)
  /\ keeps (en_relativePath row) fileInfo = false
  /\ (In fileInfo members ->
      (length (List.filter (keeps (en_relativePath row)) members)
       < length members)%nat).
Proof.
  intros row. subst row. unfold memberRow.
  cbn [en_parentDirectory en_isDirectory en_cid en_relativePath].
  fold (pathOrName fileInfo).
  set (directoryName := orElse (md_displayName metadata) (md_fileName metadata)).
  pose proof (stripDirectoryName_lastSegment directoryName (pathOrName fileInfo))
    as Hlast.
  assert (Hkeeps : keeps (stripDirectoryName directoryName (pathOrName fileInfo))
                         fileInfo = false).
  { unfold keeps. rewrite Hlast. now rewrite String.eqb_refl. }
  split; [reflexivity|]. split; [reflexivity|]. split; [reflexivity|].
  split.
  { intros name rest Hname Ht Hpath. subst directoryName. rewrite Hname, Hpath.
    unfold stripDirectoryName. rewrite Ht. cbn [andb].
    assert (Hs : startsWith (name +:+ "/" +:+ rest) (name +:+ "/") = true).
    { unfold startsWith. rewrite <- append_assoc.
      rewrite (chars_app (name +:+ "/") rest). apply isPrefix_app. }
    rewrite Hs. apply chars_inj. rewrite chars_substringFrom.
    rewrite <- append_assoc, (chars_app (name +:+ "/") rest).
    replace (String.length name + 1)%nat with (length (chars (name +:+ "/")))
      by (rewrite chars_length, length_append; reflexivity).
    now rewrite skipn_app, skipn_all, Nat.sub_diag. }
  split; [exact Hlast|].
  split; [now rewrite !normalizePath_lastSegment|].
  split; [exact Hkeeps|].
  intros Hin.
  pose proof (List.filter_length_le
                (keeps (stripDirectoryName directoryName (pathOrName fileInfo)))
                members) as Hle.
  destruct (Nat.eq_dec
              (length (List.filter
                         (keeps (stripDirectoryName directoryName
                                   (pathOrName fileInfo))) members))
              (length members)) as [Heq|Hne]; [|lia].
  rewrite (proj1 (filter_length_all _ _) Heq fileInfo Hin) in Hkeeps.
  discriminate.
Qed.

(** X30. [FileGrid.truncate] keeps its promise from 3 code units on: for
    [maxLength >= 3] the result is never longer than [maxLength], counted
    in UTF-16 code units as [length] counts; a string that fits is
    returned as it is, and one that does not fit is cut to its first
    [maxLength - 3] code units followed by three dots. *)
Theorem X30_truncate_fits (str : CodeUnits) (maxLength : nat) :
  (3 <= maxLength)%nat ->
  (length (truncate str maxLength) <= maxLength)%nat
  /\ ((length str <= maxLength)%nat -> truncate str maxLength = str)
  /\ ((maxLength < length str)%nat ->
      truncate str maxLength
      = substringTo (maxLength - 3) str ++ asciiUnits "..."
      /\ length (truncate str maxLength) = maxLength).
Proof.
  intros H3. unfold truncate.
  destruct (length str <=? maxLength)%nat eqn:E.
  - apply Nat.leb_le in E. split; [exact E|]. split; [reflexivity|]. lia.
  - apply Nat.leb_gt in E.
    assert (Hlen : length (substringTo (maxLength - 3) str ++ threeDots)
                   = maxLength).
    { unfold substringTo. rewrite length_app, List.length_firstn.
      change (length threeDots) with 3%nat. lia. }
    rewrite Hlen.
    split; [lia|]. split; [lia|]. intros _. split; reflexivity.
Qed.

Lemma X30_truncate_fits_witness :
  truncate (asciiUnits "a-very-long-file-name-that-does-not-fit.txt") 30
  = asciiUnits "a-very-long-file-name-that-..."
  /\ truncate [26085; 26412; 35486; 12398; 21517; 21069]%N 4
     = [26085; 46; 46; 46]%N.
Proof.
  split.
  - apply (X30_truncate_fits
             (asciiUnits "a-very-long-file-name-that-does-not-fit.txt") 30
             ltac:(lia)).
    vm_compute. lia.
  - apply (X30_truncate_fits [26085; 26412; 35486; 12398; 21517; 21069]%N 4
             ltac:(lia)).
    vm_compute. lia.
Defined.

End Rows.
